(** * parse_json.c of the input_opencv plugin: marker-layout decoder

    A shallow embedding of [slurp], [jsoneq] and [parse_json] from
    plugins/input_opencv/parse_json.c, and the properties of the
    marker-configuration decoder stated over it.

    Conventions of the embedding:
    - C [int] and [long] values are [Z]; token indexes ([i], [indx], [j],
      [k]), which the code keeps below the token count, are [nat];
    - the file buffer is a [list ascii]; token spans are offsets into it;
    - the token array [t] is the list of the [r] tokens the tokenizer
      filled; reading [t[i]] for [i >= r] reads an uninitialised automatic
      object (or past the array) and is [Undefined];
    - heap blocks are numbered by their position in the heap; a cell that
      was never written holds [None];
    - statements run in a state-and-result monad whose results distinguish
      falling through, [return], [exit], undefined behaviour and running
      out of loop fuel;
    - [int] has 32 bits, [long] and [size_t] have 64; signed overflow, a
      read past the end of the buffer or of the filled tokens, and a write
      outside an allocated array are undefined behaviour;
    - what [printf] prints is kept as a list of diagnostics; the echo of
      the file ([printf("File %s", buf)]) reads the buffer as a string, up
      to its first NUL: it is one entry, without its text, when the buffer
      holds a NUL, and undefined when the read runs past the buffer. *)

From Stdlib Require Import ZArith Ascii String.
From stdpp Require Import base tactics option list numbers strings.

Local Open Scope Z_scope.

(** ** Characters *)

Definition code (c : ascii) : Z := Z.of_N (N_of_ascii c).

(** The double-quote character, code 34. *)
Definition dquote : ascii := ascii_of_nat 34.

Definition chars (s : string) : list ascii := list_ascii_of_string s.

(** JSON documents are written below with ['] in place of the double
    quote; [json] restores the double quotes. *)
Definition json (s : string) : list ascii :=
  map (fun c => if Ascii.eqb c "'" then dquote else c) (chars s).

Definition isspace (c : ascii) : bool :=
  (code c =? 32) || ((9 <=? code c) && (code c <=? 13)).

Definition isdigit (c : ascii) : bool :=
  (48 <=? code c) && (code c <=? 57).

(** ** Tokens (jsmn.h) *)

Inductive jsmntype_t :=
  | JSMN_UNDEFINED
  | JSMN_OBJECT
  | JSMN_ARRAY
  | JSMN_STRING
  | JSMN_PRIMITIVE.

#[global] Instance jsmntype_eq_dec : EqDecision jsmntype_t.
Proof. solve_decision. Defined.

Record jsmntok_t := Tok {
  type : jsmntype_t;
  start : Z;
  end_ : Z;
  size : Z
}.

Definition JSMN_ERROR_NOMEM : Z := -1.
Definition JSMN_ERROR_INVAL : Z := -2.
Definition JSMN_ERROR_PART : Z := -3.

(** ** The tokenizer *)

Module Jsmn.

Record jsmn_parser := Parser {
  pos : nat;
  toknext : nat;
  toksuper : Z
}.

Definition is_delim (c : ascii) : bool :=
  let n := code c in
  (n =? 58) || (n =? 9) || (n =? 13) || (n =? 10) || (n =? 32)
  || (n =? 44) || (n =? 93) || (n =? 125).

Definition is_hex (c : ascii) : bool :=
  let n := code c in
  ((48 <=? n) && (n <=? 57)) || ((65 <=? n) && (n <=? 70))
  || ((97 <=? n) && (n <=? 102)).

Definition is_escape (c : ascii) : bool :=
  let n := code c in
  (n =? 34) || (n =? 47) || (n =? 92) || (n =? 98) || (n =? 102)
  || (n =? 114) || (n =? 110) || (n =? 116).

(** Length of the primitive that starts the input; [None] is
    JSMN_ERROR_INVAL (a character outside 32..126). *)
Fixpoint primitive_len (js : list ascii) : option nat :=
  match js with
  | [] => Some O
  | c :: js' =>
      if (code c =? 0) || is_delim c then Some O
      else if (code c <? 32) || (127 <=? code c) then None
      else S <$> primitive_len js'
  end.

(** Offset of the closing quote in the input that follows an opening
    quote; [hex] counts the hexadecimal digits of a \u escape that are
    still to be checked. *)
Fixpoint string_len (js : list ascii) (hex n : nat) : Z + nat :=
  match js with
  | [] => inl JSMN_ERROR_PART
  | c :: js' =>
      if code c =? 0 then inl JSMN_ERROR_PART
      else match hex with
      | S h => if is_hex c then string_len js' h (S n) else inl JSMN_ERROR_INVAL
      | O =>
          if code c =? 34 then inr n
          else if code c =? 92 then
            match js' with
            | [] => inl JSMN_ERROR_PART
            | e :: js'' =>
                if is_escape e then string_len js'' O (S (S n))
                else if code e =? 117 then string_len js'' 4 (S (S n))
                else inl JSMN_ERROR_INVAL
            end
          else string_len js' O (S n)
      end
  end.

Definition is_open (k : jsmntok_t) : bool :=
  negb (start k =? -1) && (end_ k =? -1).

Definition is_container (k : jsmntok_t) : bool :=
  bool_decide (type k = JSMN_ARRAY) || bool_decide (type k = JSMN_OBJECT).

(** Index of the last token among the first [n] that satisfies [p]
    (the backward scans [for (i = ...; i >= 0; i--)]). *)
Fixpoint last_index (p : jsmntok_t -> bool) (tokens : list jsmntok_t)
    (n : nat) : option nat :=
  match n with
  | O => None
  | S n' =>
      match tokens !! n' with
      | Some k => if p k then Some n' else last_index p tokens n'
      | None => last_index p tokens n'
      end
  end.

Definition incr_size (tokens : list jsmntok_t) (super : Z) : list jsmntok_t :=
  if super =? -1 then tokens
  else alter (fun k => Tok (type k) (start k) (end_ k) (size k + 1))
             (Z.to_nat super) tokens.

(** One iteration of the main loop of [jsmn_parse] at the character [c]
    found at [pos]; the result is an error code or the parser, the
    tokens and the count after the iteration (before [pos++]). *)
Definition parse_char (js : list ascii) (num_tokens : nat) (c : ascii)
    (p : jsmn_parser) (tokens : list jsmntok_t) (count : Z)
    : Z + (jsmn_parser * list jsmntok_t * Z) :=
  let n := code c in
  if (n =? 123) || (n =? 91) then
    if bool_decide (num_tokens <= toknext p)%nat then inl JSMN_ERROR_NOMEM
    else
      let tokens := incr_size tokens (toksuper p) in
      let ty := if n =? 123 then JSMN_OBJECT else JSMN_ARRAY in
      inr (Parser (pos p) (S (toknext p)) (Z.of_nat (toknext p)),
           tokens ++ [Tok ty (Z.of_nat (pos p)) (-1) 0], count + 1)
  else if (n =? 125) || (n =? 93) then
    let ty := if n =? 125 then JSMN_OBJECT else JSMN_ARRAY in
    match last_index is_open tokens (toknext p) with
    | None => inl JSMN_ERROR_INVAL
    | Some i =>
        match tokens !! i with
        | None => inl JSMN_ERROR_INVAL
        | Some k =>
            if bool_decide (type k = ty) then
              let tokens :=
                <[i := Tok (type k) (start k) (Z.of_nat (pos p) + 1) (size k)]> tokens in
              let super :=
                match last_index is_open tokens i with
                | Some i' => Z.of_nat i'
                | None => -1
                end in
              inr (Parser (pos p) (toknext p) super, tokens, count)
            else inl JSMN_ERROR_INVAL
        end
    end
  else if n =? 34 then
    match string_len (drop (S (pos p)) js) O O with
    | inl e => inl e
    | inr len =>
        if bool_decide (num_tokens <= toknext p)%nat then inl JSMN_ERROR_NOMEM
        else
          let s := Z.of_nat (pos p) + 1 in
          let tokens := tokens ++ [Tok JSMN_STRING s (s + Z.of_nat len) 0] in
          inr (Parser (S (pos p) + len) (S (toknext p)) (toksuper p),
               incr_size tokens (toksuper p), count + 1)
    end
  else if (n =? 9) || (n =? 13) || (n =? 10) || (n =? 32) then
    inr (p, tokens, count)
  else if n =? 58 then
    inr (Parser (pos p) (toknext p) (Z.of_nat (toknext p) - 1), tokens, count)
  else if n =? 44 then
    let super :=
      if toksuper p =? -1 then toksuper p
      else match tokens !! Z.to_nat (toksuper p) with
      | Some k =>
          if is_container k then toksuper p
          else match last_index (fun k => is_container k && is_open k)
                                tokens (toknext p) with
               | Some i => Z.of_nat i
               | None => toksuper p
               end
      | None => toksuper p
      end in
    inr (Parser (pos p) (toknext p) super, tokens, count)
  else
    match primitive_len (drop (pos p) js) with
    | None => inl JSMN_ERROR_INVAL
    | Some len =>
        if bool_decide (num_tokens <= toknext p)%nat then inl JSMN_ERROR_NOMEM
        else
          let s := Z.of_nat (pos p) in
          let tokens := tokens ++ [Tok JSMN_PRIMITIVE s (s + Z.of_nat len) 0] in
          inr (Parser (pos p + len - 1) (S (toknext p)) (toksuper p),
               incr_size tokens (toksuper p), count + 1)
    end.

Fixpoint parse_loop (fuel : nat) (js : list ascii) (num_tokens : nat)
    (p : jsmn_parser) (tokens : list jsmntok_t) (count : Z)
    : Z * list jsmntok_t :=
  match fuel with
  | O => (JSMN_ERROR_PART, tokens)
  | S fuel' =>
      match js !! pos p with
      | None => (if bool_decide (last_index is_open tokens (toknext p) = None)
                 then count else JSMN_ERROR_PART, tokens)
      | Some c =>
          if code c =? 0 then
            (if bool_decide (last_index is_open tokens (toknext p) = None)
             then count else JSMN_ERROR_PART, tokens)
          else
            match parse_char js num_tokens c p tokens count with
            | inl e => (e, tokens)
            | inr (p', tokens', count') =>
                parse_loop fuel' js num_tokens
                  (Parser (S (pos p')) (toknext p') (toksuper p')) tokens' count'
            end
      end
  end.

(** Modelled from the spec: the tokenizer [jsmn_parse] of jsmn.h, which
    is not among the sources.  It turns the first [len] bytes of [js]
    into at most [num_tokens] tokens in document order, each with its
    type tag, its byte span and, for containers, its element count, and
    returns their number, or a negative code when the token budget is
    exceeded or the syntax is invalid. *)
Definition jsmn_parse (js : list ascii) (len : Z) (num_tokens : nat)
    : Z * list jsmntok_t :=
  let js := take (Z.to_nat len) js in
  parse_loop (S (length js)) js num_tokens (Parser O O (-1)) [] 0.

End Jsmn.

(** ** Memory, diagnostics and the statement monad *)

Inductive ptr := NULL | Ptr (b : nat).

#[global] Instance ptr_eq_dec : EqDecision ptr.
Proof. solve_decision. Defined.

Record block := Block {
  live : bool;
  cells : list (option Z)
}.

(** The objects behind the seven out-parameters of [parse_json]. *)
Record outs := Outs {
  marker_color : ptr;
  marker_start : ptr;
  marker_mid : ptr;
  marker_end : ptr;
  num_ang : Z;
  num_mark : Z;
  angles : ptr
}.

(** What the code prints. *)
Inductive msg :=
  | MFile
  | MReadFailed
  | MUsage
  | MParseFailed (r : Z)
  | MObjectExpected
  | MDimensions (num_angles num_markers : Z)
  | MDimensionError
  | MNotAllocated
  | MAnglesMismatch (sz_arr num_angles : Z)
  | MColorsMismatch (sz_arr num_markers : Z)
  | MFirstDimension (sz_arr num_angles : Z)
  | MSecondDimension (sz_arr_inner num_markers : Z)
  | MUnexpectedKey (text : list ascii).

(** [buf] is the [char *] object that [parse_json] declares and hands to
    [slurp] by address; [mallocs] counts the calls of [malloc]; [stdout]
    is what was printed, in order (the lines [perror] and [usage] send to
    the error stream included). *)
Record state := State {
  heap : list block;
  mallocs : nat;
  out : outs;
  buf : ptr;
  stdout : list msg
}.

Inductive result (A : Type) :=
  | Next (a : A) (s : state)
  | Returned (rc : Z) (s : state)
  | Exited (rc : Z) (s : state)
  | Undefined
  | OutOfFuel.
Arguments Next {A} a s.
Arguments Returned {A} rc s.
Arguments Exited {A} rc s.
Arguments Undefined {A}.
Arguments OutOfFuel {A}.

Definition M (A : Type) : Type := state -> result A.

Definition ret {A} (a : A) : M A := fun s => Next a s.

Definition bind {A B} (m : M A) (k : A -> M B) : M B :=
  fun s =>
    match m s with
    | Next a s' => k a s'
    | Returned rc s' => Returned rc s'
    | Exited rc s' => Exited rc s'
    | Undefined => Undefined
    | OutOfFuel => OutOfFuel
    end.

Declare Scope stmt_scope.
Delimit Scope stmt_scope with stmt.
Notation "x <- c1 ;; c2" := (bind c1 (fun x => c2))
  (at level 20, c1 at level 99, c2 at level 200, right associativity,
   format "'[v' x  <-  c1  ;; '/' c2 ']'") : stmt_scope.
Notation "' pat <- c1 ;; c2" := (bind c1 (fun x => match x with pat => c2 end))
  (at level 20, pat pattern, c1 at level 99, c2 at level 200,
   right associativity) : stmt_scope.
Notation "c1 ;; c2" := (bind c1 (fun _ => c2))
  (at level 100, c2 at level 200, right associativity,
   format "'[v' c1  ;; '/' c2 ']'") : stmt_scope.
Local Open Scope stmt_scope.

Definition skip : M unit := ret tt.
Definition return_ {A} (rc : Z) : M A := fun s => Returned rc s.
Definition exit {A} (rc : Z) : M A := fun s => Exited rc s.
Definition undefined {A} : M A := fun _ => Undefined.
Definition out_of_fuel {A} : M A := fun _ => OutOfFuel.

(** A call: the callee's [return] value is the value of the call. *)
Definition call (body : M unit) : M Z :=
  fun s =>
    match body s with
    | Next _ _ => Undefined
    | Returned rc s' => Next rc s'
    | Exited rc s' => Exited rc s'
    | Undefined => Undefined
    | OutOfFuel => OutOfFuel
    end.

Definition get_out : M outs := fun s => Next (out s) s.
Definition get_buf : M ptr := fun s => Next (buf s) s.

Definition set_out (f : outs -> outs) : M unit :=
  fun s => Next tt (State (heap s) (mallocs s) (f (out s)) (buf s) (stdout s)).

Definition set_buf (p : ptr) : M unit :=
  fun s => Next tt (State (heap s) (mallocs s) (out s) p (stdout s)).

Definition set_heap (h : list block) (s : state) : state :=
  State h (mallocs s) (out s) (buf s) (stdout s).

Definition printf (m : msg) : M unit :=
  fun s => Next tt (State (heap s) (mallocs s) (out s) (buf s) (stdout s ++ [m])).

Definition EXIT_SUCCESS : Z := 0.
Definition EXIT_FAILURE : Z := 1.
Definition EOF : Z := -1.
Definition INT_MIN : Z := - 2 ^ 31.
Definition INT_MAX : Z := 2 ^ 31 - 1.
Definition SIZE_MOD : Z := 2 ^ 64.

(** [(size_t) n] *)
Definition to_size_t (n : Z) : Z := n mod SIZE_MOD.

(** [a * b] on [int]; signed overflow is undefined. *)
Definition int_mul (a b : Z) : M Z :=
  if (INT_MIN <=? a * b) && (a * b <=? INT_MAX) then ret (a * b) else undefined.

Section Program.

(** Whether the [n]-th call of [malloc], for [sz] bytes, succeeds. *)
Variable malloc_ok : nat -> Z -> bool.

(** [malloc(sz)] for an array whose elements take [esz] bytes. *)
Definition malloc (esz sz : Z) : M ptr :=
  fun s =>
    if malloc_ok (mallocs s) sz then
      Next (Ptr (length (heap s)))
           (State (heap s ++ [Block true (replicate (Z.to_nat (sz / esz)) None)])
                  (S (mallocs s)) (out s) (buf s) (stdout s))
    else
      Next NULL (State (heap s) (S (mallocs s)) (out s) (buf s) (stdout s)).

Definition free (p : ptr) : M unit :=
  fun s =>
    match p with
    | NULL => Next tt s
    | Ptr b =>
        match heap s !! b with
        | Some (Block true c) => Next tt (set_heap (<[b := Block false c]> (heap s)) s)
        | _ => Undefined
        end
    end.

(** [p[idx] = x] *)
Definition store (p : ptr) (idx : Z) (x : Z) : M unit :=
  fun s =>
    match p with
    | NULL => Undefined
    | Ptr b =>
        match heap s !! b with
        | Some (Block true c) =>
            if (0 <=? idx) && (idx <? Z.of_nat (length c)) then
              Next tt (set_heap (<[b := Block true (<[Z.to_nat idx := Some x]> c)]> (heap s)) s)
            else Undefined
        | _ => Undefined
        end
    end.

(** ** [slurp] *)

(** The file behind the path: whether it opens, what [fseek] and
    [ftell] answer, the bytes [fread] can deliver, what [fclose]
    answers. *)
Record fsys := Fsys {
  fopen_ok : bool;
  fseek_rc : Z;
  ftell_off : Z;
  fbytes : list ascii;
  fclose_rc : Z
}.

Variable fs : fsys.

(** [fread(p, 1, fsz, fp)] after [rewind]: the bytes delivered fill the
    start of the block; the value is their number. *)
Definition fread (p : ptr) (fsz : Z) : M Z :=
  fun s =>
    let data := take (Z.to_nat fsz) (fbytes fs) in
    match p with
    | NULL => Undefined
    | Ptr b =>
        match heap s !! b with
        | Some (Block true c) =>
            if bool_decide (length data <= length c)%nat then
              Next (Z.of_nat (length data))
                   (set_heap (<[b := Block true (map (fun ch => Some (code ch)) data
                                                    ++ drop (length data) c)]> (heap s)) s)
            else Undefined
        | _ => Undefined
        end
    end.

(** [buf[fsz] = 0] where [buf] has type [char **] and points to the one
    [char *] object of the caller: the element written is that object
    when [fsz] is 0 and lies outside it otherwise. *)
Definition store_bufvar (idx : Z) (p : ptr) : M unit :=
  if idx =? 0 then set_buf p else undefined.

Definition slurp (add_nul : bool) : M unit :=
  (if negb (fopen_ok fs) then return_ (-1) else skip) ;;
  (if negb (fseek_rc fs =? 0) then return_ (-1) else skip) ;;
  let off_end := ftell_off fs in
  (if 0 >? off_end then return_ (-1) else skip) ;;
  let fsz := to_size_t off_end in
  p <- malloc 1 (to_size_t (fsz + (if add_nul then 1 else 0))) ;;
  set_buf p ;;
  (if bool_decide (p = NULL) then return_ (-1) else skip) ;;
  n <- fread p fsz ;;
  (if negb (fsz =? n) then free p ;; return_ (-1) else skip) ;;
  (if EOF =? fclose_rc fs then free p ;; return_ (-1) else skip) ;;
  (if add_nul then store_bufvar fsz NULL else skip) ;;
  return_ fsz.

Definition usage : M unit :=
  printf MUsage ;; exit 1.

(** ** [jsoneq] and [atoi] *)

(** The bytes of the token's span.  The spans the tokenizer gives lie
    within the buffer; one that reaches past it is cut at its end here,
    and then compares unequal in [jsoneq]. *)
Definition tok_text (json : list ascii) (tok : jsmntok_t) : list ascii :=
  take (Z.to_nat (end_ tok - start tok)) (drop (Z.to_nat (start tok)) json).

Definition jsoneq (json : list ascii) (tok : jsmntok_t) (s : string) : Z :=
  if bool_decide (type tok = JSMN_STRING)
     && (Z.of_nat (String.length s) =? end_ tok - start tok)
     && bool_decide (tok_text json tok = chars s)
  then 0 else -1.

Fixpoint atoi_digits (s : list ascii) (acc : Z) : option Z :=
  match s with
  | [] => None
  | c :: s' =>
      if isdigit c then atoi_digits s' (acc * 10 + (code c - 48)) else Some acc
  end.

Fixpoint atoi_skip (s : list ascii) : option (list ascii) :=
  match s with
  | [] => None
  | c :: s' => if isspace c then atoi_skip s' else Some s
  end.

(** [atoi] on the bytes from a position of the buffer to its end.  The
    buffer carries no terminating NUL, so a scan that is still in white
    space, a sign or digits at the end of the buffer reads past it:
    [None].  A value outside [int] is undefined as well. *)
Definition atoi (s : list ascii) : option Z :=
  s ← atoi_skip s;
  v ← match s with
      | [] => None
      | c :: s' =>
          if code c =? 45 then Z.opp <$> atoi_digits s' 0
          else if code c =? 43 then atoi_digits s' 0
          else atoi_digits s 0
      end;
  if (INT_MIN <=? v) && (v <=? INT_MAX) then Some v else None.

(** ** [parse_json] after tokenization *)

Section Decode.

(** The buffer and the tokens [t[0..r-1]] filled by the tokenizer. *)
Variable js : list ascii.
Variable t : list jsmntok_t.

Definition r : nat := length t.

(** [t[i]] *)
Definition tok_at (i : nat) : M jsmntok_t :=
  match t !! i with
  | Some k => ret k
  | None => undefined
  end.

(** [atoi(buf + tok->start)] *)
Definition atoi_at (tok : jsmntok_t) : M Z :=
  if start tok <? 0 then undefined
  else match atoi (drop (Z.to_nat (start tok)) js) with
       | Some v => ret v
       | None => undefined
       end.

(** The first loop over the tokens: [for (i = 1; i < r; i++)]. *)
Fixpoint dim_loop (fuel : nat) (i : nat) (num_angles num_markers : Z)
    : M (Z * Z) :=
  if bool_decide (i < r)%nat then
    match fuel with
    | O => out_of_fuel
    | S fuel =>
        ti <- tok_at i ;;
        if jsoneq js ti "num_angles" =? 0 then
          tv <- tok_at (i + 1) ;;
          x <- atoi_at tv ;;
          dim_loop fuel (S (i + 1)) x num_markers
        else if jsoneq js ti "num_markers" =? 0 then
          tv <- tok_at (i + 1) ;;
          x <- atoi_at tv ;;
          dim_loop fuel (S (i + 1)) num_angles x
        else
          dim_loop fuel (S i) num_angles num_markers
    end
  else ret (num_angles, num_markers).

Section ArrayPass.

Variable num_angles num_markers : Z.

(** [for (j = 0; j < sz_arr; j++) { gi = &t[indx++]; dest[j] = atoi(...); }]
    with [n] iterations left; the value is [indx] after the loop. *)
Fixpoint fill_loop (dest : outs -> ptr) (n : nat) (j : nat) (indx : nat)
    : M nat :=
  match n with
  | O => ret indx
  | S n =>
      gi <- tok_at indx ;;
      x <- atoi_at gi ;;
      o <- get_out ;;
      store (dest o) (Z.of_nat j) x ;;
      fill_loop dest n (S j) (S indx)
  end.

(** [for (k = 0; k < sz_arr_inner; k++) { ...; ptr[k * num_angles + j] = x; }] *)
Fixpoint inner_loop (p : ptr) (j : nat) (n : nat) (k : nat) (indx : nat)
    : M nat :=
  match n with
  | O => ret indx
  | S n =>
      gi <- tok_at indx ;;
      x <- atoi_at gi ;;
      store p (Z.of_nat k * num_angles + Z.of_nat j) x ;;
      inner_loop p j n (S k) (S indx)
  end.

(** The loop over the outer elements of a location array. *)
Fixpoint outer_loop (p : ptr) (n : nat) (j : nat) (indx : nat) : M nat :=
  match n with
  | O => ret indx
  | S n =>
      g <- tok_at indx ;;
      let indx := S indx in
      if bool_decide (type g = JSMN_ARRAY) then
        let sz_arr_inner := size g in
        (if negb (sz_arr_inner =? num_markers * 2) then
           printf (MSecondDimension sz_arr_inner num_markers) ;;
           return_ EXIT_FAILURE
         else skip) ;;
        indx <- inner_loop p j (Z.to_nat sz_arr_inner) O indx ;;
        outer_loop p n (S j) indx
      else
        outer_loop p n (S j) indx
  end.

(** The body of the second loop at token [i]; the value is [i] at
    the end of the body, before the loop's [i++]. *)
Definition array_body (i : nat) : M nat :=
  ti <- tok_at i ;;
  if jsoneq js ti "angles" =? 0 then
    let indx := (i + 1)%nat in
    tv <- tok_at indx ;;
    if negb (bool_decide (type tv = JSMN_ARRAY)) then ret i
    else
      let sz_arr := size tv in
      let indx := S indx in
      (if negb (sz_arr =? num_angles) then
         printf (MAnglesMismatch sz_arr num_angles) ;;
         return_ EXIT_FAILURE
       else skip) ;;
      indx <- fill_loop angles (Z.to_nat sz_arr) O indx ;;
      ret (indx - 1)%nat
  else if jsoneq js ti "marker_color" =? 0 then
    let indx := (i + 1)%nat in
    tv <- tok_at indx ;;
    if negb (bool_decide (type tv = JSMN_ARRAY)) then ret i
    else
      let sz_arr := size tv in
      let indx := S indx in
      (if negb (sz_arr =? num_markers) then
         printf (MColorsMismatch sz_arr num_markers) ;;
         return_ EXIT_FAILURE
       else skip) ;;
      indx <- fill_loop marker_color (Z.to_nat sz_arr) O indx ;;
      ret (indx - 1)%nat
  else if (jsoneq js ti "marker_start" =? 0)
          || (jsoneq js ti "marker_mid" =? 0)
          || (jsoneq js ti "marker_end" =? 0) then
    o <- get_out ;;
    let p :=
      if jsoneq js ti "marker_start" =? 0 then marker_start o
      else if jsoneq js ti "marker_mid" =? 0 then marker_mid o
      else if jsoneq js ti "marker_end" =? 0 then marker_end o
      else NULL in
    let indx := (i + 1)%nat in
    tv <- tok_at indx ;;
    if negb (bool_decide (type tv = JSMN_ARRAY)) then ret i
    else
      let sz_arr := size tv in
      let indx := S indx in
      (if negb (sz_arr =? num_angles) then
         printf (MFirstDimension sz_arr num_angles) ;;
         return_ EXIT_FAILURE
       else skip) ;;
      indx <- outer_loop p (Z.to_nat sz_arr) O indx ;;
      ret (indx - 1)%nat
  else
    printf (MUnexpectedKey (tok_text js ti)) ;;
    ret i.

(** The second loop over the tokens: [for (i = 1; i < r; i++)]. *)
Fixpoint array_loop (fuel : nat) (i : nat) : M unit :=
  if bool_decide (i < r)%nat then
    match fuel with
    | O => out_of_fuel
    | S fuel =>
        i <- array_body i ;;
        array_loop fuel (S i)
    end
  else skip.

End ArrayPass.

(** Lines 168 to 177: the five output arrays. *)
Definition allocate (num_angles num_markers : Z) : M unit :=
  n <- int_mul num_angles num_markers ;;
  n <- int_mul n 2 ;;
  p <- malloc 4 (to_size_t (to_size_t n * 4)) ;;
  set_out (fun o => Outs (marker_color o) p (marker_mid o)
                         (marker_end o) (num_ang o) (num_mark o) (angles o)) ;;
  p <- malloc 4 (to_size_t (to_size_t n * 4)) ;;
  set_out (fun o => Outs (marker_color o) (marker_start o) p
                         (marker_end o) (num_ang o) (num_mark o) (angles o)) ;;
  p <- malloc 4 (to_size_t (to_size_t n * 4)) ;;
  set_out (fun o => Outs (marker_color o) (marker_start o) (marker_mid o)
                         p (num_ang o) (num_mark o) (angles o)) ;;
  p <- malloc 4 (to_size_t (to_size_t num_angles * 4)) ;;
  set_out (fun o => Outs (marker_color o) (marker_start o) (marker_mid o)
                         (marker_end o) (num_ang o) (num_mark o) p) ;;
  p <- malloc 4 (to_size_t (to_size_t num_markers * 4)) ;;
  set_out (fun o => Outs p (marker_start o) (marker_mid o)
                         (marker_end o) (num_ang o) (num_mark o) (angles o)).

(** Lines 179 to 309: the test of the allocations, the second loop
    and the successful end. *)
Definition fill_arrays (num_angles num_markers : Z) : M unit :=
  o <- get_out ;;
  (if bool_decide (marker_start o = NULL) || bool_decide (marker_mid o = NULL)
      || bool_decide (marker_end o = NULL) || bool_decide (angles o = NULL) then
     printf MNotAllocated ;; return_ EXIT_FAILURE
   else skip) ;;
  array_loop num_angles num_markers r 1 ;;
  b <- get_buf ;;
  free b ;;
  return_ EXIT_SUCCESS.

(** Lines 164 to 309: what follows the test of the dimensions. *)
Definition decode_arrays (num_angles num_markers : Z) : M unit :=
  set_out (fun o => Outs (marker_color o) (marker_start o) (marker_mid o)
                         (marker_end o) num_angles (num_mark o) (angles o)) ;;
  set_out (fun o => Outs (marker_color o) (marker_start o) (marker_mid o)
                         (marker_end o) (num_ang o) num_markers (angles o)) ;;
  allocate num_angles num_markers ;;
  fill_arrays num_angles num_markers.

(** Lines 130 to 309 of [parse_json]: everything after the call of
    the tokenizer has filled [t]. *)
Definition decode : M unit :=
  (if bool_decide (r < 1)%nat
      || negb (bool_decide (type <$> t !! O = Some JSMN_OBJECT)) then
     printf MObjectExpected ;; return_ 1
   else skip) ;;
  '(num_angles, num_markers) <- dim_loop r 1 0 0 ;;
  printf (MDimensions num_angles num_markers) ;;
  (if (num_angles =? 0) || (num_markers =? 0) then
     printf MDimensionError ;; return_ EXIT_FAILURE
   else skip) ;;
  decode_arrays num_angles num_markers.

End Decode.

(** The bytes of the buffer [slurp] filled. *)
Definition buffer_chars (s : state) : option (list ascii) :=
  match buf s with
  | NULL => None
  | Ptr b =>
      blk ← heap s !! b;
      if live blk then
        mapM (fun c : option Z => (fun n => ascii_of_N (Z.to_N n)) <$> c) (cells blk)
      else None
  end.

(** The bytes a library function that expects a string reads from the
    start of a block: those before the first NUL; [None] when an
    uninitialised byte or the end of the block comes first. *)
Fixpoint c_string (cells : list (option Z)) : option (list Z) :=
  match cells with
  | [] => None
  | None :: _ => None
  | Some c :: cells' => if c =? 0 then Some [] else (c ::.) <$> c_string cells'
  end.

(** [printf("File %s", buf)]: the buffer is read as a string. *)
Definition echo : M unit :=
  fun s =>
    match buf s with
    | NULL => Undefined
    | Ptr b =>
        match heap s !! b with
        | Some (Block true c) =>
            match c_string c with
            | Some _ => printf MFile s
            | None => Undefined
            end
        | _ => Undefined
        end
    end.

(** Lines 121 to 309 of [parse_json]: the call of the tokenizer on the
    buffer and everything after it.  The tokenizer is told to read
    [file_size] bytes, which the buffer has to hold. *)
Definition decode_buffer (file_size : Z) : M unit :=
  fun s =>
    match buffer_chars s with
    | None => Undefined
    | Some js =>
        if (file_size <? 0) || (Z.of_nat (length js) <? file_size) then Undefined
        else
          let '(r, t) := Jsmn.jsmn_parse js file_size 128 in
          ((if r <? 0 then printf (MParseFailed r) ;; return_ 1 else skip) ;;
           decode js t) s
    end.

Definition parse_json : M unit :=
  file_size <- call (slurp false) ;;
  (if file_size <? 0 then printf MReadFailed ;; usage else skip) ;;
  echo ;;
  decode_buffer file_size.

End Program.

(** ** Reading the result *)

(** The cells of the array [p] points to, when [p] points to a block
    that is still allocated. *)
Definition array_at (s : state) (p : ptr) : option (list (option Z)) :=
  match p with
  | NULL => None
  | Ptr b =>
      match heap s !! b with
      | Some (Block true c) => Some c
      | _ => None
      end
  end.

(** The five out-pointers. *)
Definition out_ptrs (o : outs) : list ptr :=
  [marker_color o; marker_start o; marker_mid o; marker_end o; angles o].

(** An allocator that never fails, and one that refuses requests above
    [limit] bytes. *)
Definition always : nat -> Z -> bool := fun _ _ => true.

(** A file that opens and reads without error. *)
Definition file_of (bytes : list ascii) : fsys :=
  Fsys true 0 (Z.of_nat (length bytes)) bytes 0.

Definition outs0 : outs := Outs NULL NULL NULL NULL 0 0 NULL.
Definition state0 : state := State [] O outs0 NULL [].

(** ** Documents used below *)

Definition scenario_A : list ascii :=
  json "{'num_angles':2,'num_markers':3,'angles':[0,90],'marker_color':[1,2,3],'marker_start':[[0,1,2,3,4,5],[6,7,8,9,10,11]]}".


(** ** Vocabulary of the statements *)

(** The two dimension fields. *)
Inductive dim := NumAngles | NumMarkers.

Definition dim_name (d : dim) : string :=
  match d with
  | NumAngles => "num_angles"
  | NumMarkers => "num_markers"
  end.


(** [tok] is a string token whose text is [name]. *)
Definition is_key (js : list ascii) (name : string) (tok : jsmntok_t) : Prop :=
  jsoneq js tok name = 0.

Definition is_dim_key (js : list ascii) (tok : jsmntok_t) : Prop :=
  is_key js "num_angles" tok \/ is_key js "num_markers" tok.



(** The tokens of a document that fits the token array. *)
Definition tokens_of (js : list ascii) : list jsmntok_t :=
  snd (Jsmn.jsmn_parse js (Z.of_nat (length js)) 128).

(** [s] after the code printed [ms]. *)
Definition log (s : state) (ms : list msg) : state :=
  State (heap s) (mallocs s) (out s) (buf s) (stdout s ++ ms).

(** Two heaps with the same blocks, allocated or released alike and of
    the same lengths, whatever the cells hold. *)
Definition same_blocks (h h' : list block) : Prop :=
  Forall2 (fun b b' => live b = live b' /\ length (cells b) = length (cells b')) h h'.

(** What a stretch of code that only prints and writes array cells keeps:
    the out-parameters, the count of allocations, the buffer pointer and
    the blocks of the heap. *)
Definition frame (s s' : state) : Prop :=
  out s' = out s /\ mallocs s' = mallocs s /\ buf s' = buf s
  /\ same_blocks (heap s) (heap s').

(** The four diagnostics of a shape mismatch. *)
Definition shape_mismatch (m : msg) : Prop :=
  match m with
  | MAnglesMismatch _ _ | MColorsMismatch _ _
  | MFirstDimension _ _ | MSecondDimension _ _ => True
  | _ => False
  end.

(** [m] stays within the frame: however it ends, the frame is kept; it
    never exits; and when it returns, it returns [EXIT_FAILURE] right
    after printing a shape-mismatch diagnostic. *)
Definition keeps {A} (m : M A) : Prop :=
  forall s,
    match m s with
    | Next _ s' => frame s s'
    | Returned rc s' =>
        frame s s' /\ rc = EXIT_FAILURE
        /\ exists msg, last (stdout s') = Some msg /\ shape_mismatch msg
    | Exited _ _ => False
    | Undefined | OutOfFuel => True
    end.

(** The sizes, in bytes, that [parse_json] asks of [malloc] for the
    three location arrays, for [angles] and for [marker_color]. *)
Definition location_bytes (num_angles num_markers : Z) : Z :=
  to_size_t (to_size_t (num_angles * num_markers * 2) * 4).
Definition angles_bytes (num_angles : Z) : Z :=
  to_size_t (to_size_t num_angles * 4).
Definition colors_bytes (num_markers : Z) : Z :=
  to_size_t (to_size_t num_markers * 4).

(** A block as [malloc] hands it out: allocated, no cell written. *)
Definition uninitialised (blk : block) : Prop :=
  live blk = true /\ Forall (fun c => c = None) (cells blk).

(** [p] is null or points to a block that the heap [h] did not have. *)
Definition null_or_new (h : list block) (p : ptr) : Prop :=
  match p with
  | NULL => True
  | Ptr b => (length h <= b)%nat
  end.

(** [s] after [*num_ang = num_angles; *num_mark = num_markers;]. *)
Definition with_dims (num_angles num_markers : Z) (s : state) : state :=
  State (heap s) (mallocs s)
        (Outs (marker_color (out s)) (marker_start (out s)) (marker_mid (out s))
              (marker_end (out s)) num_angles num_markers (angles (out s)))
        (buf s) (stdout s).

(** The root token is an object. *)
Definition root_object (t : list jsmntok_t) : Prop :=
  type <$> t !! O = Some JSMN_OBJECT.

Definition scenario_B : list ascii :=
  json "{'num_angles':2,'num_markers':3,'angles':[0,90,180]}".

Definition scenario_D : list ascii :=
  json "{'num_angles':2,'num_markers':0}".




(** The state in which a run ends, if it ends in one. *)
Definition final_state {A} (res : result A) : state :=
  match res with
  | Next _ s | Returned _ s | Exited _ s => s
  | Undefined | OutOfFuel => state0
  end.

Definition scenario_B_end : state :=
  Eval vm_compute in
    final_state (decode always scenario_B (tokens_of scenario_B) state0).

(** An allocator whose [n]-th call fails (calls are counted from 0). *)
Definition failing_at (n : nat) : nat -> Z -> bool :=
  fun i _ => negb (Nat.eqb i n).

(** ** Documents of the documented shape

    The content of a document, field by field in document order, and the
    arrays the decoder is to make of it.  The definitions of this part
    follow the description of the input file and of the array pass in the
    specification; the theorems below compare [decode] with them. *)

Inductive loc := LStart | LMid | LEnd.

Definition loc_name (l : loc) : string :=
  match l with
  | LStart => "marker_start"
  | LMid => "marker_mid"
  | LEnd => "marker_end"
  end.

Definition loc_ptr (l : loc) (o : outs) : ptr :=
  match l with
  | LStart => marker_start o
  | LMid => marker_mid o
  | LEnd => marker_end o
  end.

(** An element of a location array: an inner array of integers, or a
    single token that is not an array. *)
Inductive item :=
  | INot
  | IRow (vs : list Z).

(** A field: a dimension with its value and the text of its value; an
    array field with its integers; or a key the decoder does not know,
    given by the texts of its tokens (the key and the tokens of its
    value). *)
Inductive field :=
  | FDim (d : dim) (v : Z) (text : list ascii)
  | FAngles (vs : list Z)
  | FColors (vs : list Z)
  | FLoc (l : loc) (items : list item)
  | FOther (texts : list (list ascii)).

(** The seven keys [parse_json] looks for. *)
Definition known_keys : list string :=
  ["num_angles"; "num_markers"; "angles"; "marker_color";
   "marker_start"; "marker_mid"; "marker_end"].

(** No key the decoder looks for. *)
Definition inert (js : list ascii) (tok : jsmntok_t) : Prop :=
  Forall (fun name => ~ is_key js name tok) known_keys.

(** A primitive token whose text [atoi] reads as [v]. *)
Definition int_tok (js : list ascii) (v : Z) (tok : jsmntok_t) : Prop :=
  type tok = JSMN_PRIMITIVE /\ 0 <= start tok
  /\ atoi (drop (Z.to_nat (start tok)) js) = Some v.

(** The tokens of an array of integers. *)
Definition int_array (js : list ascii) (vs : list Z) (toks : list jsmntok_t) : Prop :=
  exists a es, toks = a :: es /\ type a = JSMN_ARRAY
               /\ size a = Z.of_nat (length vs) /\ Forall2 (int_tok js) vs es.

Definition item_tokens (js : list ascii) (it : item) (toks : list jsmntok_t) : Prop :=
  match it with
  | INot => exists e, toks = [e] /\ type e <> JSMN_ARRAY /\ ~ is_dim_key js e
  | IRow vs => int_array js vs toks
  end.

(** The tokens of a field. *)
Definition field_tokens (js : list ascii) (f : field) (toks : list jsmntok_t) : Prop :=
  match f with
  | FDim d v text =>
      exists k e, toks = [k; e] /\ is_key js (dim_name d) k
                  /\ int_tok js v e /\ tok_text js e = text
  | FAngles vs =>
      exists k vtoks, toks = k :: vtoks /\ is_key js "angles" k
                      /\ int_array js vs vtoks
  | FColors vs =>
      exists k vtoks, toks = k :: vtoks /\ is_key js "marker_color" k
                      /\ int_array js vs vtoks
  | FLoc l items =>
      exists k a itoks, toks = k :: a :: concat itoks /\ is_key js (loc_name l) k
                        /\ type a = JSMN_ARRAY /\ size a = Z.of_nat (length items)
                        /\ Forall2 (item_tokens js) items itoks
  | FOther texts =>
      texts <> [] /\ Forall2 (fun text tok => inert js tok /\ tok_text js tok = text)
                             texts toks
  end.

(** [t] is the token stream of an object with the fields [fs]. *)
Definition document (js : list ascii) (fs : list field) (t : list jsmntok_t) : Prop :=
  exists root ftoks, t = root :: concat ftoks /\ type root = JSMN_OBJECT
                     /\ Forall2 (field_tokens js) fs ftoks.

(** The dimensions: the last value given for each, 0 when none is. *)
Definition dims_of_field (f : field) (d : Z * Z) : Z * Z :=
  match f with
  | FDim NumAngles v _ => (v, snd d)
  | FDim NumMarkers v _ => (fst d, v)
  | _ => d
  end.

Definition dims_of (fs : list field) : Z * Z :=
  foldl (fun d f => dims_of_field f d) (0, 0) fs.

(** The five arrays and what was printed. *)
Record arrays := Arrays {
  a_colors : list (option Z);
  a_start : list (option Z);
  a_mid : list (option Z);
  a_end : list (option Z);
  a_angles : list (option Z);
  a_log : list msg
}.

Definition loc_array (l : loc) (A : arrays) : list (option Z) :=
  match l with
  | LStart => a_start A
  | LMid => a_mid A
  | LEnd => a_end A
  end.

Definition set_loc (l : loc) (c : list (option Z)) (A : arrays) : arrays :=
  match l with
  | LStart => Arrays (a_colors A) c (a_mid A) (a_end A) (a_angles A) (a_log A)
  | LMid => Arrays (a_colors A) (a_start A) c (a_end A) (a_angles A) (a_log A)
  | LEnd => Arrays (a_colors A) (a_start A) (a_mid A) c (a_angles A) (a_log A)
  end.

Definition say (m : list msg) (A : arrays) : arrays :=
  Arrays (a_colors A) (a_start A) (a_mid A) (a_end A) (a_angles A) (a_log A ++ m).

(** [dest[j], dest[j+1], ... = vs] *)
Fixpoint store_seq (j : nat) (vs : list Z) (c : list (option Z)) : list (option Z) :=
  match vs with
  | [] => c
  | v :: vs => store_seq (S j) vs (<[j := Some v]> c)
  end.

(** [dest[k * numAngles + j] = v] for the components [v] of the [j]-th
    inner array, [k] counting them. *)
Fixpoint store_row (num_angles : Z) (j k : nat) (vs : list Z) (c : list (option Z))
    : list (option Z) :=
  match vs with
  | [] => c
  | v :: vs =>
      store_row num_angles j (S k) vs
        (<[Z.to_nat (Z.of_nat k * num_angles + Z.of_nat j) := Some v]> c)
  end.

(** The outcome of a field or of the pass: the diagnostic of the shape
    mismatch that ended it, if one did, and the arrays then. *)
Definition outcome : Type := option msg * arrays.

Fixpoint items_sem (num_angles num_markers : Z) (l : loc) (j : nat)
    (items : list item) (A : arrays) : outcome :=
  match items with
  | [] => (None, A)
  | INot :: items => items_sem num_angles num_markers l (S j) items A
  | IRow vs :: items =>
      if Z.of_nat (length vs) =? num_markers * 2 then
        items_sem num_angles num_markers l (S j) items
          (set_loc l (store_row num_angles j O vs (loc_array l A)) A)
      else
        let m := MSecondDimension (Z.of_nat (length vs)) num_markers in
        (Some m, say [m] A)
  end.

Definition field_sem (num_angles num_markers : Z) (f : field) (A : arrays) : outcome :=
  match f with
  | FDim d v text =>
      (None, say [MUnexpectedKey (chars (dim_name d)); MUnexpectedKey text] A)
  | FOther texts => (None, say (MUnexpectedKey <$> texts) A)
  | FAngles vs =>
      if Z.of_nat (length vs) =? num_angles then
        (None, Arrays (a_colors A) (a_start A) (a_mid A) (a_end A)
                      (store_seq O vs (a_angles A)) (a_log A))
      else
        let m := MAnglesMismatch (Z.of_nat (length vs)) num_angles in
        (Some m, say [m] A)
  | FColors vs =>
      if Z.of_nat (length vs) =? num_markers then
        (None, Arrays (store_seq O vs (a_colors A)) (a_start A) (a_mid A) (a_end A)
                      (a_angles A) (a_log A))
      else
        let m := MColorsMismatch (Z.of_nat (length vs)) num_markers in
        (Some m, say [m] A)
  | FLoc l items =>
      if Z.of_nat (length items) =? num_angles then
        items_sem num_angles num_markers l O items A
      else
        let m := MFirstDimension (Z.of_nat (length items)) num_angles in
        (Some m, say [m] A)
  end.

Fixpoint fields_sem (num_angles num_markers : Z) (fs : list field) (A : arrays)
    : outcome :=
  match fs with
  | [] => (None, A)
  | f :: fs =>
      match field_sem num_angles num_markers f A with
      | (None, A') => fields_sem num_angles num_markers fs A'
      | failed => failed
      end
  end.

(** The state holds the arrays [A]: the five out-pointers point to five
    different allocated blocks with the cells of [A], and what was
    printed is the log of [A]. *)
Definition holds (s : state) (A : arrays) : Prop :=
  array_at s (marker_color (out s)) = Some (a_colors A)
  /\ array_at s (marker_start (out s)) = Some (a_start A)
  /\ array_at s (marker_mid (out s)) = Some (a_mid A)
  /\ array_at s (marker_end (out s)) = Some (a_end A)
  /\ array_at s (angles (out s)) = Some (a_angles A)
  /\ NoDup (out_ptrs (out s))
  /\ stdout s = a_log A.

(** The arrays have the sizes the dimensions ask for. *)
Definition sized (num_angles num_markers : Z) (A : arrays) : Prop :=
  Z.of_nat (length (a_colors A)) = num_markers
  /\ Z.of_nat (length (a_angles A)) = num_angles
  /\ Z.of_nat (length (a_start A)) = num_angles * num_markers * 2
  /\ Z.of_nat (length (a_mid A)) = num_angles * num_markers * 2
  /\ Z.of_nat (length (a_end A)) = num_angles * num_markers * 2.

(** The tokens [toks] sit in [t] from index [i] on. *)
Definition tokens_at (t : list jsmntok_t) (i : nat) (toks : list jsmntok_t) : Prop :=
  forall m e, toks !! m = Some e -> t !! (i + m)%nat = Some e.

(** From [s] to [s'] only cells of the array at [p] were written, and it
    now holds [c]. *)
Definition writes (p : ptr) (s s' : state) (c : list (option Z)) : Prop :=
  array_at s' p = Some c
  /\ (forall p', p' <> p -> array_at s' p' = array_at s p')
  /\ frame s s' /\ stdout s' = stdout s.

(** None of the five keys of the second loop. *)
Definition not_array_key (js : list ascii) (tok : jsmntok_t) : Prop :=
  ~ is_key js "angles" tok /\ ~ is_key js "marker_color" tok
  /\ ~ is_key js "marker_start" tok /\ ~ is_key js "marker_mid" tok
  /\ ~ is_key js "marker_end" tok.

(** The second loop, entered at token [i] in state [s] with fuel for
    every remaining token, ends as [res]. *)
Definition runs (js : list ascii) (t : list jsmntok_t) (num_angles num_markers : Z)
    (i : nat) (s : state) (res : result unit) : Prop :=
  forall fuel, (length t - i <= fuel)%nat ->
    array_loop js t num_angles num_markers fuel i s = res.

(** The first loop, entered at token [i] with the values [a] and [b] and
    fuel for every remaining token, ends with the values [v]. *)
Definition dims_run (js : list ascii) (t : list jsmntok_t) (i : nat) (a b : Z)
    (v : Z * Z) : Prop :=
  forall fuel s, (length t - i <= fuel)%nat -> dim_loop js t fuel i a b s = Next v s.

(** The five calls of [malloc] that follow state [s] succeed. *)
Definition allocations_succeed (malloc_ok : nat -> Z -> bool) (s : state)
    (num_angles num_markers : Z) : Prop :=
  malloc_ok (mallocs s) (location_bytes num_angles num_markers) = true
  /\ malloc_ok (mallocs s + 1)%nat (location_bytes num_angles num_markers) = true
  /\ malloc_ok (mallocs s + 2)%nat (location_bytes num_angles num_markers) = true
  /\ malloc_ok (mallocs s + 3)%nat (angles_bytes num_angles) = true
  /\ malloc_ok (mallocs s + 4)%nat (colors_bytes num_markers) = true.

(** The buffer pointer is null or points to an allocated block. *)
Definition buffer_allocated (s : state) : Prop :=
  match buf s with
  | NULL => True
  | Ptr b => exists c, heap s !! b = Some (Block true c)
  end.

(** The arrays as allocated for the dimensions, nothing written, after
    [log] was printed. *)
Definition fresh_arrays (num_angles num_markers : Z) (log : list msg) : arrays :=
  Arrays (replicate (Z.to_nat num_markers) None)
         (replicate (Z.to_nat (num_angles * num_markers * 2)) None)
         (replicate (Z.to_nat (num_angles * num_markers * 2)) None)
         (replicate (Z.to_nat (num_angles * num_markers * 2)) None)
         (replicate (Z.to_nat num_angles) None)
         log.

(** What [decode] is to make of the fields [fs] when started after [log]
    was printed. *)
Definition document_sem (fs : list field) (log : list msg) : outcome :=
  let '(num_angles, num_markers) := dims_of fs in
  fields_sem num_angles num_markers fs
    (fresh_arrays num_angles num_markers (log ++ [MDimensions num_angles num_markers])).

(** A field whose shape disagrees with the dimensions: an outer length
    other than its dimension, or an inner location array whose length is
    not [numMarkers * 2]. *)
Definition mismatched (num_angles num_markers : Z) (f : field) : Prop :=
  match f with
  | FAngles vs => Z.of_nat (length vs) <> num_angles
  | FColors vs => Z.of_nat (length vs) <> num_markers
  | FLoc _ items =>
      Z.of_nat (length items) <> num_angles
      \/ Exists (fun it => match it with
                           | IRow vs => Z.of_nat (length vs) <> num_markers * 2
                           | INot => False
                           end) items
  | _ => False
  end.

(** An array field: angles, marker_color or a location field. *)
Definition array_field (f : field) : Prop :=
  match f with
  | FAngles _ | FColors _ | FLoc _ _ => True
  | _ => False
  end.



(** The same cells in the five arrays, whatever was printed. *)
Definition same_cells (A A' : arrays) : Prop :=
  a_colors A = a_colors A' /\ a_start A = a_start A' /\ a_mid A = a_mid A'
  /\ a_end A = a_end A' /\ a_angles A = a_angles A'.

Definition nested_angles : list ascii :=
  json "{'num_angles':2,'num_markers':1,'angles':[[1,2],3],'marker_color':[7]}".



Definition small_document : list ascii :=
  json "{'num_angles':1,'num_markers':1,'angles':[5]}".


(** The state right after the five arrays were allocated for the given
    dimensions, from the empty state. *)
Definition allocated_state (num_angles num_markers : Z) : state :=
  final_state (allocate always num_angles num_markers
                 (with_dims num_angles num_markers state0)).

(** The state [slurp] leaves when it has read the bytes without error:
    the buffer allocated and filled, the caller's pointer on it. *)
Definition loaded (bytes : list ascii) (s : state) : state :=
  State (heap s ++ [Block true (map (fun ch => Some (code ch)) bytes)])
        (S (mallocs s)) (out s) (Ptr (length (heap s))) (stdout s).

(** Lines 121 to 309 of [parse_json] on the bytes [js], read by [slurp]
    into the buffer from the empty state. *)
Definition decode_loaded (malloc_ok : nat -> Z -> bool) (js : list ascii)
    : result unit :=
  decode_buffer malloc_ok (Z.of_nat (length js)) (loaded js state0).

(** ** Vocabulary of the further properties *)

(** The file opens, [ftell] gives its size, and it is read and closed
    without error. *)
Definition readable (fs : fsys) : Prop :=
  fopen_ok fs = true /\ fseek_rc fs = 0 /\ fclose_rc fs <> EOF
  /\ 0 <= ftell_off fs < SIZE_MOD
  /\ ftell_off fs <= Z.of_nat (length (fbytes fs)).

(** The bytes [slurp] reads from it. *)
Definition contents (fs : fsys) : list ascii :=
  take (Z.to_nat (ftell_off fs)) (fbytes fs).

(** [m] does not run out of loop fuel. *)
Definition ends {A} (m : M A) : Prop := forall s, m s <> OutOfFuel.

Definition unterminated : list ascii := json "{'num_angles':2".

Definition top_level_array : list ascii := json "[1,2]".

(** The five output arrays by name. *)
Inductive array_name := AAngles | AColors | ALoc (l : loc).

Definition array_cells (a : array_name) (A : arrays) : list (option Z) :=
  match a with
  | AAngles => a_angles A
  | AColors => a_colors A
  | ALoc l => loc_array l A
  end.

Definition array_ptr (a : array_name) (o : outs) : ptr :=
  match a with
  | AAngles => angles o
  | AColors => marker_color o
  | ALoc l => loc_ptr l o
  end.

(** The number of cells [parse_json] allocates for the array. *)
Definition array_size (a : array_name) (num_angles num_markers : Z) : Z :=
  match a with
  | AAngles => num_angles
  | AColors => num_markers
  | ALoc _ => num_angles * num_markers * 2
  end.

(** The array a field is stored in. *)
Definition field_array (f : field) : option array_name :=
  match f with
  | FAngles _ => Some AAngles
  | FColors _ => Some AColors
  | FLoc l _ => Some (ALoc l)
  | _ => None
  end.

(** The integers of an angles or marker_color field. *)
Definition field_values (f : field) : option (list Z) :=
  match f with
  | FAngles vs | FColors vs => Some vs
  | _ => None
  end.

Definition two_rows : list ascii :=
  json "{'num_angles':2,'num_markers':1,'marker_mid':[[1,2],[3,4]]}".

(** The fields of two of the documents above. *)
Definition small_document_fields : list field :=
  [FDim NumAngles 1 (chars "1"); FDim NumMarkers 1 (chars "1"); FAngles [5]].

Definition two_rows_fields : list field :=
  [FDim NumAngles 2 (chars "2"); FDim NumMarkers 1 (chars "1");
   FLoc LMid [IRow [1; 2]; IRow [3; 4]]].

Definition dangling_key : list ascii := json "{'a':'num_angles'}".

Definition huge_dimensions : list ascii :=
  json "{'num_angles':65536,'num_markers':32768}".

Definition scalar_angles : list ascii :=
  json "{'num_angles':1,'num_markers':1,'angles':5}".

(** The five keys of the second loop. *)
Definition array_keys : list string :=
  ["angles"; "marker_color"; "marker_start"; "marker_mid"; "marker_end"].

(** [m] spares the blocks of the heap [h0]: run in a state whose
    out-pointers are null or point to blocks that [h0] did not have, it
    leaves the blocks of [h0] and the out-parameters as they are. *)
Definition spares (h0 : list block) {A} (m : M A) : Prop :=
  forall s,
    Forall (null_or_new h0) (out_ptrs (out s)) ->
    match m s with
    | Next _ s' | Returned _ s' | Exited _ s' =>
        out s' = out s
        /\ forall b, (b < length h0)%nat -> heap s' !! b = heap s !! b
    | Undefined | OutOfFuel => True
    end.

(** A caller whose five out-pointers all point to a block of its own. *)
Definition caller_state : state :=
  State [Block true [Some 7]] O
        (Outs (Ptr 0) (Ptr 0) (Ptr 0) (Ptr 0) 0 0 (Ptr 0)) NULL [].

Definition late_mismatch : list ascii :=
  json "{'num_angles':1,'num_markers':1,'angles':[5],'marker_color':[1,2]}".

(** * Properties *)



(** ** The statement monad *)

Ltac run_step H :=
  match type of H with
  | context [match ?t !! ?i with _ => _ end] =>
      let E := fresh "Etok" in destruct (t !! i) eqn:E; simpl in H
  | context [if ?b then _ else _] =>
      let E := fresh "Eb" in destruct b eqn:E; simpl in H
  end.

Lemma bind_Next {A B} (m : M A) (k : A -> M B) s a s1 :
  m s = Next a s1 -> bind m k s = k a s1.
Proof. unfold bind. now intros ->. Qed.

Lemma bind_inv_Next {A B} (m : M A) (k : A -> M B) s b s' :
  bind m k s = Next b s' -> exists a s1, m s = Next a s1 /\ k a s1 = Next b s'.
Proof. unfold bind. destruct (m s); try discriminate. eauto. Qed.

Lemma bind_inv_Returned {A B} (m : M A) (k : A -> M B) s rc s' :
  bind m k s = Returned rc s' ->
  m s = Returned rc s' \/ exists a s1, m s = Next a s1 /\ k a s1 = Returned rc s'.
Proof.
  unfold bind. destruct (m s) as [a s1|rc1 s1|rc1 s1| |]; intros H;
    try discriminate H.
  - right. exists a, s1. auto.
  - left. now inversion H.
Qed.

Lemma log_log s ms ms' : log (log s ms) ms' = log s (ms ++ ms').
Proof. unfold log. simpl. now rewrite app_assoc. Qed.

Lemma printf_log m s : printf m s = Next tt (log s [m]).
Proof. reflexivity. Qed.

(** *** What printing and writing cells keep *)

Lemma same_blocks_refl h : same_blocks h h.
Proof. apply Forall2_same_length_lookup_2; [reflexivity|]. intros i x y -> [= <-]. auto. Qed.

Lemma same_blocks_trans h1 h2 h3 :
  same_blocks h1 h2 -> same_blocks h2 h3 -> same_blocks h1 h3.
Proof.
  unfold same_blocks. intros H1 H2.
  eapply Forall2_trans; [|exact H1|exact H2].
  simpl. intros x y z [-> ->] [-> ->]. auto.
Qed.

Lemma same_blocks_insert h b blk blk' :
  h !! b = Some blk -> live blk = live blk' ->
  length (cells blk) = length (cells blk') ->
  same_blocks h (<[b := blk']> h).
Proof.
  intros Hb Hl Hc. unfold same_blocks.
  rewrite <- (list_insert_id h b blk Hb) at 1.
  apply Forall2_insert; [apply same_blocks_refl|auto].
Qed.

Lemma same_blocks_lookup h h' b blk' :
  same_blocks h h' -> h' !! b = Some blk' ->
  exists blk, h !! b = Some blk /\ live blk = live blk'
              /\ length (cells blk) = length (cells blk').
Proof.
  intros H Hb. destruct (Forall2_lookup_r _ _ _ _ _ H Hb) as (blk & ? & ? & ?). eauto.
Qed.

Lemma frame_refl s : frame s s.
Proof. unfold frame. auto using same_blocks_refl. Qed.

Lemma frame_trans s1 s2 s3 : frame s1 s2 -> frame s2 s3 -> frame s1 s3.
Proof.
  unfold frame. intros (-> & -> & -> & H1) (-> & -> & -> & H2).
  eauto using same_blocks_trans.
Qed.

Lemma frame_log s ms : frame s (log s ms).
Proof. unfold frame, log. simpl. auto using same_blocks_refl. Qed.

Lemma keeps_ret {A} (a : A) : keeps (ret a).
Proof. intros s. apply frame_refl. Qed.

Lemma keeps_undefined {A} : keeps (@undefined A).
Proof. intros s. exact I. Qed.

Lemma keeps_out_of_fuel {A} : keeps (@out_of_fuel A).
Proof. intros s. exact I. Qed.

Lemma keeps_printf m : keeps (printf m).
Proof. intros s. apply (frame_log s [m]). Qed.

Lemma keeps_get_out : keeps get_out.
Proof. intros s. apply frame_refl. Qed.

(** [printf(...); return EXIT_FAILURE;] for a shape mismatch. *)
Lemma keeps_mismatch {A} m :
  shape_mismatch m -> keeps (printf m ;; @return_ A EXIT_FAILURE)%stmt.
Proof.
  intros Hm s. simpl. split; [apply (frame_log s [m])|]. split; [reflexivity|].
  exists m. simpl. now rewrite last_snoc.
Qed.

Lemma keeps_bind {A B} (m : M A) (k : A -> M B) :
  keeps m -> (forall a, keeps (k a)) -> keeps (bind m k).
Proof.
  intros Hm Hk s. specialize (Hm s). unfold bind in *.
  destruct (m s) as [a s1|rc s1|rc s1| |]; try assumption.
  specialize (Hk a s1).
  destruct (k a s1); eauto using frame_trans.
  destruct Hk as (? & ? & ?). eauto using frame_trans.
Qed.

Lemma keeps_if {A} (b : bool) (m1 m2 : M A) :
  keeps m1 -> keeps m2 -> keeps (if b then m1 else m2).
Proof. now destruct b. Qed.

Lemma keeps_tok_at t i : keeps (tok_at t i).
Proof. unfold tok_at. destruct (t !! i); auto using keeps_ret, keeps_undefined. Qed.

Lemma keeps_atoi_at js k : keeps (atoi_at js k).
Proof.
  unfold atoi_at. destruct (start k <? 0); [apply keeps_undefined|].
  destruct (atoi _); auto using keeps_ret, keeps_undefined.
Qed.

Lemma keeps_store p idx x : keeps (store p idx x).
Proof.
  intros s. unfold store.
  destruct p as [|b]; [exact I|].
  destruct (heap s !! b) as [[[] c]|] eqn:Hb; try exact I.
  destruct (_ && _); [|exact I].
  unfold frame, set_heap. simpl. repeat split.
  eapply same_blocks_insert; [exact Hb|reflexivity|].
  simpl. now rewrite length_insert.
Qed.

Create HintDb keeps.
#[local] Hint Resolve keeps_ret keeps_undefined keeps_out_of_fuel
  keeps_printf keeps_get_out keeps_tok_at keeps_atoi_at keeps_store : keeps.
#[local] Hint Extern 1 (keeps (bind (printf _) (fun _ => return_ _))) =>
  apply keeps_mismatch; exact I : keeps.

Ltac keeps_auto :=
  repeat first
    [ solve [auto with keeps]
    | apply keeps_bind; [|intros ?]
    | apply keeps_if ].

Section ArrayPassFrame.

Variable js : list ascii.
Variable t : list jsmntok_t.
Variable num_angles num_markers : Z.

Lemma keeps_fill_loop dest n : forall j indx,
  keeps (fill_loop js t dest n j indx).
Proof. induction n as [|n IH]; intros j indx; simpl; keeps_auto. Qed.

Lemma keeps_inner_loop p j n : forall k indx,
  keeps (inner_loop js t num_angles p j n k indx).
Proof. induction n as [|n IH]; intros k indx; simpl; keeps_auto. Qed.

Lemma keeps_outer_loop p n : forall j indx,
  keeps (outer_loop js t num_angles num_markers p n j indx).
Proof.
  induction n as [|n IH]; intros j indx; simpl; keeps_auto.
  apply keeps_inner_loop.
Qed.

Lemma keeps_array_body i : keeps (array_body js t num_angles num_markers i).
Proof.
  unfold array_body. keeps_auto;
    auto using keeps_fill_loop, keeps_outer_loop.
Qed.

Lemma keeps_array_loop fuel : forall i,
  keeps (array_loop js t num_angles num_markers fuel i).
Proof.
  induction fuel as [|fuel IH]; intros i; cbn [array_loop];
    (apply keeps_if; [|apply keeps_ret]); [apply keeps_out_of_fuel|].
  apply keeps_bind; [apply keeps_array_body|intros; apply IH].
Qed.

End ArrayPassFrame.

Section DimLoop.

Variable js : list ascii.
Variable t : list jsmntok_t.

Lemma tok_at_Some i k s : t !! i = Some k -> tok_at t i s = Next k s.
Proof. unfold tok_at. now intros ->. Qed.

Lemma tok_at_inv i s (res : result jsmntok_t) :
  tok_at t i s = res ->
  (exists k, t !! i = Some k /\ res = Next k s) \/ (t !! i = None /\ res = Undefined).
Proof. unfold tok_at. destruct (t !! i); intros <-; eauto. Qed.

Lemma atoi_at_inv tok s (res : result Z) :
  atoi_at js tok s = res ->
  (exists v, 0 <= start tok /\ atoi (drop (Z.to_nat (start tok)) js) = Some v
             /\ res = Next v s)
  \/ res = Undefined.
Proof.
  unfold atoi_at. destruct (start tok <? 0) eqn:E; [intros <-; now right|].
  destruct (atoi _) eqn:Ea; intros <-; [left|now right].
  eexists; split; [lia|eauto].
Qed.

Lemma is_key_dec name k : is_key js name k <-> (jsoneq js k name =? 0) = true.
Proof. unfold is_key. lia. Qed.

(** What one iteration of the first loop did, read off a run that ended
    normally. *)
Lemma dim_loop_inv fuel i a b s v s' :
  dim_loop js t fuel i a b s = Next v s' ->
  (length t <= i /\ v = (a, b) /\ s' = s)%nat
  \/ (i < length t)%nat /\ exists f k, fuel = S f /\ t !! i = Some k /\
     ((is_key js "num_angles" k /\ exists k' x,
         t !! (i + 1)%nat = Some k' /\ 0 <= start k'
         /\ atoi (drop (Z.to_nat (start k')) js) = Some x
         /\ dim_loop js t f (S (i + 1)) x b s = Next v s')
      \/ (~ is_key js "num_angles" k /\ is_key js "num_markers" k /\ exists k' x,
         t !! (i + 1)%nat = Some k' /\ 0 <= start k'
         /\ atoi (drop (Z.to_nat (start k')) js) = Some x
         /\ dim_loop js t f (S (i + 1)) a x s = Next v s')
      \/ (~ is_dim_key js k /\ dim_loop js t f (S i) a b s = Next v s')).
Proof.
  intros H. destruct fuel as [|f]; simpl in H; unfold r in H.
  - case_bool_decide; [discriminate|]. left. inversion H. repeat split; lia.
  - case_bool_decide; [right|left; inversion H; repeat split; lia].
    split; [assumption|]. exists f.
    unfold bind in H.
    destruct (tok_at_inv i s _ eq_refl) as [(k & Hk & E)|[_ E]];
      rewrite E in H; [|discriminate].
    exists k. split; [reflexivity|]. split; [assumption|].
    destruct (jsoneq js k "num_angles" =? 0) eqn:Ea;
      [|destruct (jsoneq js k "num_markers" =? 0) eqn:Em].
    + left. split; [now apply is_key_dec|].
      destruct (tok_at_inv (i + 1) s _ eq_refl) as [(k' & Hk' & E')|[_ E']];
        rewrite E' in H; [|discriminate].
      destruct (atoi_at_inv k' s _ eq_refl) as [(x & ? & ? & Ex)| Ex];
        rewrite Ex in H; [|discriminate].
      eauto 10.
    + right; left. split; [rewrite is_key_dec; congruence|].
      split; [now apply is_key_dec|].
      destruct (tok_at_inv (i + 1) s _ eq_refl) as [(k' & Hk' & E')|[_ E']];
        rewrite E' in H; [|discriminate].
      destruct (atoi_at_inv k' s _ eq_refl) as [(x & ? & ? & Ex)| Ex];
        rewrite Ex in H; [|discriminate].
      eauto 10.
    + right; right. split; [|assumption].
      unfold is_dim_key. rewrite !is_key_dec. intros [?|?]; congruence.
Qed.

(** The first loop neither changes the state nor leaves the function. *)
Lemma dim_loop_Next fuel : forall i a b s v s',
  dim_loop js t fuel i a b s = Next v s' -> s' = s.
Proof.
  induction fuel as [|fuel IH]; intros i a b s v s' H;
    apply dim_loop_inv in H as [(_ & _ & ->)|(_ & f & k & Hf & _ & H)]; try reflexivity;
    try discriminate.
  injection Hf as <-.
  destruct H as [(_ & ? & ? & _ & _ & _ & H)|[(_ & _ & ? & ? & _ & _ & _ & H)|(_ & H)]];
    eauto.
Qed.


Lemma jsoneq_0 name k :
  jsoneq js k name = 0 <->
  type k = JSMN_STRING /\ Z.of_nat (String.length name) = end_ k - start k
  /\ tok_text js k = chars name.
Proof.
  unfold jsoneq.
  destruct (_ && _ && _) eqn:E.
  - apply andb_true_iff in E as [E E3]. apply andb_true_iff in E as [E1 E2].
    apply bool_decide_eq_true in E1, E3. split; [intros _|reflexivity].
    repeat split; [assumption|lia|assumption].
  - split; [discriminate|]. intros (E1 & E2 & E3).
    rewrite (bool_decide_eq_true_2 _ E1), (bool_decide_eq_true_2 _ E3) in E.
    rewrite (proj2 (Z.eqb_eq _ _) E2) in E. discriminate.
Qed.



(** With fuel for every remaining token the first loop ends: it either
    meets undefined behaviour or falls through with the two values. *)
Lemma dim_loop_total fuel : forall i a b s,
  (length t - i <= fuel)%nat ->
  dim_loop js t fuel i a b s = Undefined
  \/ exists v, dim_loop js t fuel i a b s = Next v s.
Proof.
  induction fuel as [|fuel IH]; intros i a b s Hf; simpl; unfold r.
  - rewrite bool_decide_eq_false_2 by lia. right. eexists. reflexivity.
  - case_bool_decide; [|right; eexists; reflexivity].
    unfold bind.
    destruct (tok_at_inv i s _ eq_refl) as [(k & Hk & E)|[_ E]];
      rewrite E; [|now left].
    destruct (jsoneq js k "num_angles" =? 0);
      [|destruct (jsoneq js k "num_markers" =? 0)]; [| |apply IH; lia].
    + destruct (tok_at_inv (i + 1) s _ eq_refl) as [(k' & Hk' & E')|[_ E']];
        rewrite E'; [|now left].
      destruct (atoi_at_inv k' s _ eq_refl) as [(x & _ & _ & Ex)| Ex];
        rewrite Ex; [|now left].
      apply IH. lia.
    + destruct (tok_at_inv (i + 1) s _ eq_refl) as [(k' & Hk' & E')|[_ E']];
        rewrite E'; [|now left].
      destruct (atoi_at_inv k' s _ eq_refl) as [(x & _ & _ & Ex)| Ex];
        rewrite Ex; [|now left].
      apply IH. lia.
Qed.


End DimLoop.




(** ** Allocation *)

Section Allocation.

Variable malloc_ok : nat -> Z -> bool.

Lemma int_mul_inv a b s (res : result Z) :
  int_mul a b s = res ->
  (INT_MIN <= a * b <= INT_MAX /\ res = Next (a * b) s) \/ res = Undefined.
Proof.
  unfold int_mul. destruct (_ && _) eqn:E; intros <-; [left|now right].
  split; [lia|reflexivity].
Qed.

Lemma uninitialised_replicate n : uninitialised (Block true (replicate n None)).
Proof.
  split; [reflexivity|]. simpl. apply Forall_forall. intros c Hc.
  now apply elem_of_replicate in Hc as [-> _].
Qed.

(** What the five calls of [malloc] leave behind. *)
Lemma allocate_inv na nm s s1 :
  allocate malloc_ok na nm s = Next tt s1 ->
  exists news,
    heap s1 = heap s ++ news
    /\ Forall uninitialised news
    /\ mallocs s1 = (mallocs s + 5)%nat
    /\ buf s1 = buf s /\ stdout s1 = stdout s
    /\ num_ang (out s1) = num_ang (out s) /\ num_mark (out s1) = num_mark (out s)
    /\ Forall (null_or_new (heap s)) (out_ptrs (out s1))
    /\ (forall b, (length (heap s) <= b < length (heap s1))%nat ->
          Ptr b ∈ out_ptrs (out s1))
    /\ (marker_start (out s1) = NULL <->
          malloc_ok (mallocs s) (location_bytes na nm) = false)
    /\ (marker_mid (out s1) = NULL <->
          malloc_ok (mallocs s + 1)%nat (location_bytes na nm) = false)
    /\ (marker_end (out s1) = NULL <->
          malloc_ok (mallocs s + 2)%nat (location_bytes na nm) = false)
    /\ (angles (out s1) = NULL <->
          malloc_ok (mallocs s + 3)%nat (angles_bytes na) = false)
    /\ (marker_color (out s1) = NULL <->
          malloc_ok (mallocs s + 4)%nat (colors_bytes nm) = false).
Proof.
  unfold allocate. intros H.
  apply bind_inv_Next in H as (n1 & s' & Hn1 & H).
  apply int_mul_inv in Hn1 as [(_ & [= -> ->])|?]; [|discriminate].
  apply bind_inv_Next in H as (n2 & s' & Hn2 & H).
  apply int_mul_inv in Hn2 as [(_ & [= -> ->])|?]; [|discriminate].
  unfold bind, malloc, set_out, location_bytes, angles_bytes, colors_bytes in *.
  replace (mallocs s + 1)%nat with (S (mallocs s)) by lia.
  replace (mallocs s + 2)%nat with (S (S (mallocs s))) by lia.
  replace (mallocs s + 3)%nat with (S (S (S (mallocs s)))) by lia.
  replace (mallocs s + 4)%nat with (S (S (S (S (mallocs s))))) by lia.
  simpl in H.
  destruct (malloc_ok (mallocs s) _) eqn:E0; simpl in H;
  destruct (malloc_ok (S (mallocs s)) _) eqn:E1; simpl in H;
  destruct (malloc_ok (S (S (mallocs s))) _) eqn:E2; simpl in H;
  destruct (malloc_ok (S (S (S (mallocs s)))) _) eqn:E3; simpl in H;
  destruct (malloc_ok (S (S (S (S (mallocs s))))) _) eqn:E4; simpl in H;
  injection H as <-; simpl; rewrite <- ?app_assoc; simpl;
  (eexists; split; [try reflexivity; symmetry; apply app_nil_r|]);
  (split; [repeat (apply Forall_cons_2; [apply uninitialised_replicate|]);
           apply Forall_nil_2|]);
  (split; [lia|]); do 4 (split; [reflexivity|]);
  (split; [unfold out_ptrs; simpl; rewrite ?length_app; simpl;
           repeat (apply Forall_cons_2; [simpl; try exact I; lia|]);
           apply Forall_nil_2|]);
  (split; [intros b; unfold out_ptrs; simpl; rewrite ?length_app; simpl; intros Hb;
           repeat match goal with
           | Hb : (?l <= b < ?l + S ?k)%nat |- _ =>
               destruct (decide (b = (l + k)%nat)) as [->|];
               [clear Hb|assert (l <= b < l + k)%nat by lia; clear Hb]
           | Hb : (?l <= b < ?l)%nat |- _ => lia
           | Hb : (?l <= b < ?l + 0)%nat |- _ => lia
           end;
           rewrite ?Nat.add_0_r; auto 8 using list_elem_of_here, list_elem_of_further|]);
  repeat split; intros; congruence.
Qed.

End Allocation.

(** ** The paths through [decode] *)

Section DecodePaths.

Variable malloc_ok : nat -> Z -> bool.
Variable js : list ascii.
Variable t : list jsmntok_t.

Lemma decode_not_object s :
  ~ root_object t ->
  decode malloc_ok js t s = Returned 1 (log s [MObjectExpected]).
Proof.
  unfold root_object, decode, r. intros Hroot. unfold bind.
  rewrite (bool_decide_eq_false_2 _ Hroot), orb_true_r. reflexivity.
Qed.

(** [decode] once the first loop has given the two dimensions. *)
Lemma decode_dims s na nm :
  root_object t ->
  dim_loop js t (length t) 1 0 0 s = Next (na, nm) s ->
  decode malloc_ok js t s =
    if (na =? 0) || (nm =? 0)
    then Returned EXIT_FAILURE (log s [MDimensions na nm; MDimensionError])
    else decode_arrays malloc_ok js t na nm (log s [MDimensions na nm]).
Proof.
  unfold root_object, decode, r. intros Hroot Hdim. unfold bind at 1.
  rewrite (bool_decide_eq_true_2 _ Hroot).
  rewrite bool_decide_eq_false_2
    by (destruct t; [discriminate|simpl; lia]).
  simpl. unfold bind at 1. rewrite Hdim. simpl.
  destruct ((na =? 0) || (nm =? 0)).
  - unfold bind, printf, return_, log. simpl. now rewrite <- app_assoc.
  - reflexivity.
Qed.

Lemma decode_cases s :
  (~ root_object t /\ decode malloc_ok js t s = Returned 1 (log s [MObjectExpected]))
  \/ (root_object t /\ dim_loop js t (length t) 1 0 0 s = Undefined
      /\ decode malloc_ok js t s = Undefined)
  \/ (root_object t /\ exists na nm,
        dim_loop js t (length t) 1 0 0 s = Next (na, nm) s).
Proof.
  destruct (decide (root_object t)) as [Hroot|Hroot];
    [|left; auto using decode_not_object].
  right.
  destruct (dim_loop_total js t (length t) 1 0 0 s) as [H|[[na nm] H]]; [lia| |].
  - left. split; [assumption|]. split; [assumption|].
    unfold root_object, decode, r in *. unfold bind at 1.
    rewrite (bool_decide_eq_true_2 _ Hroot).
    rewrite bool_decide_eq_false_2
      by (destruct t; [discriminate|simpl; lia]).
    simpl. unfold bind at 1. now rewrite H.
  - right. eauto.
Qed.

Lemma decode_arrays_eq na nm s :
  decode_arrays malloc_ok js t na nm s =
  bind (allocate malloc_ok na nm) (fun _ => fill_arrays js t na nm)
       (with_dims na nm s).
Proof. reflexivity. Qed.

Lemma allocate_not_Returned na nm s rc s' :
  allocate malloc_ok na nm s <> Returned rc s'.
Proof.
  unfold allocate, bind, int_mul, malloc, set_out.
  repeat (destruct (_ && _); simpl; [|discriminate]).
  repeat (destruct (malloc_ok _ _); simpl); discriminate.
Qed.

Lemma free_not_Returned p s rc s' : free p s <> Returned rc s'.
Proof.
  unfold free. destruct p as [|b]; [discriminate|].
  destruct (heap s !! b) as [[[] c]|]; discriminate.
Qed.

(** The ways [decode_arrays] can return. *)
Lemma decode_arrays_inv na nm s rc s' :
  decode_arrays malloc_ok js t na nm s = Returned rc s' ->
  exists s1,
    allocate malloc_ok na nm (with_dims na nm s) = Next tt s1 /\
    ((rc = EXIT_FAILURE /\ s' = log s1 [MNotAllocated]
      /\ (marker_start (out s1) = NULL \/ marker_mid (out s1) = NULL
          \/ marker_end (out s1) = NULL \/ angles (out s1) = NULL))
     \/ (rc = EXIT_FAILURE /\ frame s1 s'
         /\ exists msg, last (stdout s') = Some msg /\ shape_mismatch msg)
     \/ (rc = EXIT_SUCCESS /\ exists s2,
           array_loop js t na nm (length t) 1 s1 = Next tt s2
           /\ frame s1 s2 /\ free (buf s2) s2 = Next tt s')).
Proof.
  rewrite decode_arrays_eq. intros H.
  apply bind_inv_Returned in H as [H|([] & s1 & Ha & H)];
    [now apply allocate_not_Returned in H|].
  exists s1. split; [assumption|].
  unfold fill_arrays in H.
  unfold bind at 1, get_out in H. unfold bind at 1 in H.
  destruct (_ || _) eqn:Hnull; simpl in H.
  - injection H as <- <-. left. split; [reflexivity|]. split; [reflexivity|].
    repeat (apply orb_true_iff in Hnull as [Hnull|Hnull]);
      apply bool_decide_eq_true in Hnull; auto.
  - right. unfold bind at 1 in H.
    pose proof (keeps_array_loop js t na nm (r t) 1 s1) as Hk.
    unfold r in *.
    destruct (array_loop _ _ _ _ _ _ _) as [[] s2|rc2 s2|rc2 s2| |] eqn:Hloop;
      try discriminate; try contradiction.
    + right. unfold bind at 1, get_buf in H. unfold bind in H.
      destruct (free (buf s2) s2) as [[] s3|rc3 s3| | |] eqn:Hf; try discriminate;
        [|now apply free_not_Returned in Hf].
      injection H as <- <-. split; [reflexivity|]. exists s2. auto.
    + left. injection H as <- <-. destruct Hk as (? & ? & ?). auto.
Qed.

End DecodePaths.




(** C10.  For every document that fails the test of the dimensions,
    decode returns with every out-parameter as the caller passed it; the
    out-parameters differ from what was passed only in runs in which both
    dimensions were non-zero, and then the two scalars hold them. *)
Theorem outputs_written_after_dimensions malloc_ok js t s na nm :
  root_object t ->
  dim_loop js t (length t) 1 0 0 s = Next (na, nm) s ->
  (na = 0 \/ nm = 0 ->
     exists s', decode malloc_ok js t s = Returned EXIT_FAILURE s'
                /\ out s' = out s)
  /\ (forall rc s', decode malloc_ok js t s = Returned rc s' ->
        out s' <> out s ->
        na <> 0 /\ nm <> 0 /\ num_ang (out s') = na /\ num_mark (out s') = nm).
Proof.
  intros Hroot Hdim.
  rewrite (decode_dims malloc_ok js t s na nm Hroot Hdim). split.
  - intros Hz.
    replace ((na =? 0) || (nm =? 0)) with true
      by (symmetry; apply orb_true_iff; lia).
    eexists. split; reflexivity.
  - intros rc s' H Hout.
    destruct ((na =? 0) || (nm =? 0)) eqn:Hz.
    + injection H as <- <-. now contradiction Hout.
    + apply orb_false_iff in Hz as [Ha Hm]. split; [lia|]. split; [lia|].
      apply decode_arrays_inv in H as (s1 & Halloc & H).
      apply allocate_inv in Halloc as (news & _ & _ & _ & _ & _ & Hang & Hmark & _).
      simpl in Hang, Hmark.
      destruct H as [(_ & -> & _)|[(_ & (Ho & _) & _)|(_ & s2 & _ & (Ho & _) & Hf)]].
      * simpl. auto.
      * rewrite Ho. auto.
      * assert (out s' = out s2) as ->; [|rewrite Ho; auto].
        unfold free in Hf. destruct (buf s2) as [|b]; [now injection Hf as <-|].
        destruct (heap s2 !! b) as [[[] c]|]; try discriminate.
        now injection Hf as <-.
Qed.

Lemma outputs_written_after_dimensions_witness :
  let js := scenario_D in
  let t := tokens_of scenario_D in
  (2 = 0 \/ 0 = 0 ->
     exists s', decode always js t state0 = Returned EXIT_FAILURE s'
                /\ out s' = out state0)
  /\ (forall rc s', decode always js t state0 = Returned rc s' ->
        out s' <> out state0 ->
        2 <> 0 /\ 0 <> 0 /\ num_ang (out s') = 2 /\ num_mark (out s') = 0).
Proof.
  apply (outputs_written_after_dimensions always scenario_D
           (tokens_of scenario_D) state0 2 0).
  - vm_compute. reflexivity.
  - vm_compute. reflexivity.
Defined.

Lemma allocate_total malloc_ok na nm s :
  INT_MIN <= na * nm <= INT_MAX -> INT_MIN <= na * nm * 2 <= INT_MAX ->
  exists s1, allocate malloc_ok na nm s = Next tt s1.
Proof.
  intros H1 H2. unfold allocate, bind, int_mul.
  replace ((INT_MIN <=? na * nm) && (na * nm <=? INT_MAX)) with true
    by (symmetry; apply andb_true_iff; lia).
  simpl.
  replace ((INT_MIN <=? na * nm * 2) && (na * nm * 2 <=? INT_MAX)) with true
    by (symmetry; apply andb_true_iff; lia).
  simpl. unfold malloc, set_out.
  repeat (destruct (malloc_ok _ _); simpl); eexists; reflexivity.
Qed.

(** C5 (as amended).  The output arrays are allocated only after both
    dimensions are known and were found non-zero.  If the allocation of
    marker_start, marker_mid, marker_end or angles fails, decode reports
    the failure, after all five allocations were attempted; the arrays
    that were allocated stay allocated, uninitialised, with their
    addresses in the caller's out-pointers. *)
Theorem allocation_failure_reported malloc_ok js t s na nm :
  root_object t ->
  dim_loop js t (length t) 1 0 0 s = Next (na, nm) s ->
  na <> 0 -> nm <> 0 ->
  INT_MIN <= na * nm <= INT_MAX -> INT_MIN <= na * nm * 2 <= INT_MAX ->
  malloc_ok (mallocs s) (location_bytes na nm) = false
  \/ malloc_ok (mallocs s + 1)%nat (location_bytes na nm) = false
  \/ malloc_ok (mallocs s + 2)%nat (location_bytes na nm) = false
  \/ malloc_ok (mallocs s + 3)%nat (angles_bytes na) = false ->
  exists s1,
    allocate malloc_ok na nm (with_dims na nm (log s [MDimensions na nm])) = Next tt s1
    /\ decode malloc_ok js t s = Returned EXIT_FAILURE (log s1 [MNotAllocated])
    /\ mallocs s1 = (mallocs s + 5)%nat
    /\ Forall (null_or_new (heap s)) (out_ptrs (out s1))
    /\ forall b blk, (length (heap s) <= b)%nat -> heap s1 !! b = Some blk ->
         uninitialised blk /\ Ptr b ∈ out_ptrs (out s1).
Proof.
  intros Hroot Hdim Hna Hnm Hr1 Hr2 Hfail.
  destruct (allocate_total malloc_ok na nm
              (with_dims na nm (log s [MDimensions na nm])) Hr1 Hr2) as [s1 Halloc].
  exists s1. split; [exact Halloc|].
  pose proof (allocate_inv malloc_ok na nm _ s1 Halloc)
    as (news & Hheap & Hnew & Hcount & _ & _ & _ & _ & Hptrs & Hin
        & Hs & Hm & He & Ha & _).
  simpl in *.
  split; [|split; [exact Hcount|split; [exact Hptrs|]]].
  - rewrite (decode_dims malloc_ok js t s na nm Hroot Hdim).
    replace ((na =? 0) || (nm =? 0)) with false
      by (symmetry; apply orb_false_iff; lia).
    rewrite decode_arrays_eq, (bind_Next _ _ _ _ _ Halloc).
    unfold fill_arrays. unfold bind at 1, get_out. unfold bind at 1.
    replace (_ || _) with true; [reflexivity|].
    symmetry. rewrite !orb_true_iff, !bool_decide_eq_true. tauto.
  - intros b blk Hb Hlook. split.
    + rewrite Hheap in Hlook. rewrite lookup_app_r in Hlook by exact Hb.
      rewrite Forall_forall in Hnew. apply Hnew.
      eapply list_elem_of_lookup_2. exact Hlook.
    + apply Hin. split; [exact Hb|]. eapply lookup_lt_Some. exact Hlook.
Qed.

Lemma allocation_failure_reported_witness :
  let js := scenario_A in
  let t := tokens_of scenario_A in
  exists s1,
    allocate (failing_at 1) 2 3 (with_dims 2 3 (log state0 [MDimensions 2 3])) = Next tt s1
    /\ decode (failing_at 1) js t state0 = Returned EXIT_FAILURE (log s1 [MNotAllocated])
    /\ mallocs s1 = (mallocs state0 + 5)%nat
    /\ Forall (null_or_new (heap state0)) (out_ptrs (out s1))
    /\ forall b blk, (length (heap state0) <= b)%nat -> heap s1 !! b = Some blk ->
         uninitialised blk /\ Ptr b ∈ out_ptrs (out s1).
Proof.
  apply (allocation_failure_reported (failing_at 1) scenario_A
           (tokens_of scenario_A) state0 2 3).
  - vm_compute. reflexivity.
  - vm_compute. reflexivity.
  - discriminate.
  - discriminate.
  - vm_compute. split; discriminate.
  - vm_compute. split; discriminate.
  - right. left. reflexivity.
Defined.

(** C5, counterexample.  When the allocation of marker_mid fails, decode
    reports the failure, and the caller's marker_start still points to
    the array allocated just before: twelve cells, none initialised. *)
Lemma allocation_failure_leaves_arrays :
  exists s, decode_loaded (failing_at 2) scenario_A
              = Returned EXIT_FAILURE s
    /\ last (stdout s) = Some MNotAllocated
    /\ marker_mid (out s) = NULL
    /\ marker_start (out s) = Ptr 1
    /\ array_at s (marker_start (out s)) = Some (replicate 12 None).
Proof.
  vm_compute. eexists. repeat (split; [reflexivity|]). reflexivity.
Qed.

(** The test of the allocations leaves marker_color out: when only its
    allocation fails, the second loop runs and writes through the null
    pointer. *)
Lemma marker_color_allocation_unchecked :
  decode_loaded (failing_at 5) scenario_A = Undefined.
Proof. vm_compute. reflexivity. Qed.

(** C4 (as amended).  On every failure path of decode no array allocated
    during the call is released: each one is still allocated when the
    error is returned, and its address is in one of the caller's
    out-pointers. *)
Theorem failure_keeps_arrays malloc_ok js t s rc s' b blk :
  decode malloc_ok js t s = Returned rc s' ->
  rc <> EXIT_SUCCESS ->
  (length (heap s) <= b)%nat ->
  heap s' !! b = Some blk ->
  live blk = true /\ Ptr b ∈ out_ptrs (out s').
Proof.
  intros H Hrc Hb Hblk.
  destruct (decode_cases malloc_ok js t s)
    as [(_ & E)|[(_ & _ & E)|(Hroot & na & nm & Hdim)]].
  - rewrite E in H. injection H as <- <-. simpl in Hblk.
    apply lookup_lt_Some in Hblk. lia.
  - rewrite E in H. discriminate.
  - rewrite (decode_dims malloc_ok js t s na nm Hroot Hdim) in H.
    destruct ((na =? 0) || (nm =? 0)).
    { injection H as <- <-. simpl in Hblk. apply lookup_lt_Some in Hblk. lia. }
    apply decode_arrays_inv in H as (s1 & Halloc & H).
    apply allocate_inv in Halloc
      as (news & Hheap & Hnew & _ & _ & _ & _ & _ & _ & Hin & _).
    simpl in Hheap, Hin.
    assert (Hs1 : forall blk1, heap s1 !! b = Some blk1 ->
              live blk1 = true /\ Ptr b ∈ out_ptrs (out s1)).
    { intros blk1 Hl. split.
      - rewrite Hheap, lookup_app_r in Hl by exact Hb.
        rewrite Forall_forall in Hnew.
        apply (Hnew blk1); eapply list_elem_of_lookup_2; exact Hl.
      - apply Hin. split; [exact Hb|]. eapply lookup_lt_Some. exact Hl. }
    destruct H as [(_ & -> & _)|[(_ & (Ho & _ & _ & Hsame) & _)|(-> & _)]].
    + apply Hs1. exact Hblk.
    + rewrite Ho.
      destruct (same_blocks_lookup _ _ _ _ Hsame Hblk) as (blk1 & Hl & Hlive & _).
      rewrite <- Hlive. apply Hs1. exact Hl.
    + now contradiction Hrc.
Qed.

Lemma failure_keeps_arrays_witness :
  decode always scenario_B (tokens_of scenario_B) state0
    = Returned EXIT_FAILURE scenario_B_end
  /\ EXIT_FAILURE <> EXIT_SUCCESS
  /\ (length (heap state0) <= 0)%nat
  /\ heap scenario_B_end !! 0%nat = Some (Block true (replicate 12 None))
  /\ live (Block true (replicate 12 None)) = true
  /\ Ptr 0 ∈ out_ptrs (out scenario_B_end).
Proof.
  assert (H1 : decode always scenario_B (tokens_of scenario_B) state0
               = Returned EXIT_FAILURE scenario_B_end) by (vm_compute; reflexivity).
  assert (H2 : EXIT_FAILURE <> EXIT_SUCCESS) by discriminate.
  assert (H3 : (length (heap state0) <= 0)%nat) by (simpl; lia).
  assert (H4 : heap scenario_B_end !! 0%nat = Some (Block true (replicate 12 None)))
    by (vm_compute; reflexivity).
  repeat (split; [assumption|]).
  exact (failure_keeps_arrays always scenario_B (tokens_of scenario_B) state0
           EXIT_FAILURE scenario_B_end 0 (Block true (replicate 12 None)) H1 H2 H3 H4).
Defined.

(** C4, counterexample.  In scenario B (three angles for num_angles = 2)
    decode reports the shape mismatch and returns with the document
    buffer and all five arrays still allocated. *)
Lemma shape_mismatch_releases_nothing :
  exists s, decode_loaded always scenario_B
              = Returned EXIT_FAILURE s
    /\ last (stdout s) = Some (MAnglesMismatch 3 2)
    /\ buf s = Ptr 0
    /\ live <$> heap s !! 0%nat = Some true
    /\ Forall (fun p => is_Some (array_at s p)) (out_ptrs (out s))
    /\ Forall (fun blk => live blk = true) (heap s).
Proof.
  vm_compute. eexists. split; [reflexivity|].
  split; [reflexivity|]. split; [reflexivity|]. split; [reflexivity|].
  split; repeat (apply Forall_cons_2; [eauto|]); apply Forall_nil_2.
Qed.

(** ** The second loop on documents of the documented shape *)

Lemma tokens_at_nil t i : tokens_at t i [].
Proof. intros m e. rewrite lookup_nil. discriminate. Qed.

Lemma tokens_at_cons t i e toks :
  tokens_at t i (e :: toks) <-> t !! i = Some e /\ tokens_at t (S i) toks.
Proof.
  unfold tokens_at. split.
  - intros H. split.
    + rewrite <- (Nat.add_0_r i). now apply H.
    + intros m e' Hm. replace (S i + m)%nat with (i + S m)%nat by lia. now apply H.
  - intros [H0 H] [|m] e' Hm.
    + rewrite Nat.add_0_r. simpl in Hm. congruence.
    + replace (i + S m)%nat with (S i + m)%nat by lia. now apply H.
Qed.

Lemma tokens_at_app t i toks1 toks2 :
  tokens_at t i (toks1 ++ toks2) <->
  tokens_at t i toks1 /\ tokens_at t (i + length toks1) toks2.
Proof.
  revert i. induction toks1 as [|e toks1 IH]; intros i; simpl.
  - rewrite Nat.add_0_r. split; [intros H; split; [apply tokens_at_nil|exact H]|tauto].
  - rewrite !tokens_at_cons, IH.
    replace (S i + length toks1)%nat with (i + S (length toks1))%nat by lia. tauto.
Qed.

Lemma tokens_at_middle pre toks post : tokens_at (pre ++ toks ++ post) (length pre) toks.
Proof.
  intros m e Hm. rewrite lookup_app_r by lia.
  replace (length pre + m - length pre)%nat with m by lia.
  now apply lookup_app_l_Some.
Qed.

Lemma tokens_at_length t i toks :
  toks <> [] -> tokens_at t i toks -> (i + length toks <= length t)%nat.
Proof.
  intros Hne H. destruct toks as [|e0 toks _] using rev_ind; [congruence|].
  specialize (H (length toks) e0). rewrite lookup_app_r, Nat.sub_diag in H by lia.
  specialize (H eq_refl). apply lookup_lt_Some in H.
  rewrite length_app. simpl. lia.
Qed.

Lemma is_key_unique js k n1 n2 : is_key js n1 k -> is_key js n2 k -> n1 = n2.
Proof.
  unfold is_key. rewrite !jsoneq_0. intros (_ & _ & H1) (_ & _ & H2).
  rewrite H1 in H2. unfold chars in H2.
  rewrite <- (string_of_list_ascii_of_string n1), <- (string_of_list_ascii_of_string n2).
  now rewrite H2.
Qed.

Lemma not_key_eqb js k name : ~ is_key js name k -> (jsoneq js k name =? 0) = false.
Proof. unfold is_key. lia. Qed.

Lemma is_key_eqb js k name : is_key js name k -> (jsoneq js k name =? 0) = true.
Proof. unfold is_key. lia. Qed.

Lemma is_key_not js k n1 n2 : is_key js n1 k -> n1 <> n2 -> ~ is_key js n2 k.
Proof. intros H1 Hne H2. apply Hne. eapply is_key_unique; eassumption. Qed.

Lemma int_tok_not_key js v e name : int_tok js v e -> ~ is_key js name e.
Proof.
  intros (Hty & _) Hk. apply jsoneq_0 in Hk as (Hs & _). congruence.
Qed.

Lemma inert_not_array_key js tok : inert js tok -> not_array_key js tok.
Proof.
  unfold inert, known_keys, not_array_key. rewrite !Forall_cons. tauto.
Qed.

Lemma inert_not_dim_key js tok : inert js tok -> ~ is_dim_key js tok.
Proof.
  unfold inert, known_keys, is_dim_key. rewrite !Forall_cons. tauto.
Qed.

Lemma dim_key_not_array_key js d k : is_key js (dim_name d) k -> not_array_key js k.
Proof.
  intros Hk. unfold not_array_key.
  repeat split; apply (is_key_not js k _ _ Hk); destruct d; discriminate.
Qed.

Lemma atoi_at_int js v e s : int_tok js v e -> atoi_at js e s = Next v s.
Proof.
  intros (_ & Hs & Ha). unfold atoi_at.
  replace (start e <? 0) with false by lia. now rewrite Ha.
Qed.

Section Writes.

Lemma array_at_frame s s' p :
  frame s s' -> is_Some (array_at s p) -> is_Some (array_at s' p).
Proof.
  intros (_ & _ & _ & Hsame) [c Hc]. destruct p as [|b]; [discriminate|].
  simpl in *. destruct (heap s !! b) as [[[] c0]|] eqn:Hb; try discriminate.
  destruct (Forall2_lookup_l _ _ _ _ _ Hsame Hb) as ([l' c'] & -> & Hl & _).
  simpl in Hl. subst l'. eauto.
Qed.

Lemma writes_refl p s c : array_at s p = Some c -> writes p s s c.
Proof. intros H. repeat split; auto using same_blocks_refl. Qed.

Lemma writes_trans p s1 s2 s3 c2 c3 :
  writes p s1 s2 c2 -> writes p s2 s3 c3 -> writes p s1 s3 c3.
Proof.
  intros (_ & Ho1 & Hf1 & Hl1) (Ha & Ho2 & Hf2 & Hl2).
  split; [exact Ha|]. split; [|split; [eapply frame_trans; eassumption|congruence]].
  intros p' Hp. rewrite Ho2, Ho1 by exact Hp. reflexivity.
Qed.

(** [p[idx] = x] inside the array. *)
Lemma store_spec p idx x s c :
  array_at s p = Some c -> 0 <= idx < Z.of_nat (length c) ->
  exists s', store p idx x s = Next tt s'
             /\ writes p s s' (<[Z.to_nat idx := Some x]> c).
Proof.
  intros Hc Hidx. pose proof (keeps_store p idx x s) as Hk.
  unfold store in *. destruct p as [|b]; [discriminate|]. simpl in Hc.
  destruct (heap s !! b) as [[[] c0]|] eqn:Hb; try discriminate.
  injection Hc as ->.
  replace ((0 <=? idx) && (idx <? Z.of_nat (length c))) with true in *
    by (symmetry; apply andb_true_iff; lia).
  eexists. split; [reflexivity|]. split; [|split; [|split; [exact Hk|reflexivity]]].
  - simpl. rewrite list_lookup_insert_eq by (eapply lookup_lt_Some; exact Hb).
    reflexivity.
  - intros [|b'] Hne; [reflexivity|]. simpl.
    rewrite list_lookup_insert_ne by congruence. reflexivity.
Qed.

Lemma length_store_seq vs : forall j c, length (store_seq j vs c) = length c.
Proof.
  induction vs as [|v vs IH]; intros j c; simpl; [reflexivity|].
  now rewrite IH, length_insert.
Qed.

Lemma length_store_row na j vs : forall k c, length (store_row na j k vs c) = length c.
Proof.
  induction vs as [|v vs IH]; intros k c; simpl; [reflexivity|].
  now rewrite IH, length_insert.
Qed.

End Writes.

Section Holds.

Lemma holds_log s A ms : holds s A -> holds (log s ms) (say ms A).
Proof.
  unfold holds. intros (? & ? & ? & ? & ? & ? & Hl).
  repeat split; try assumption. simpl. now rewrite Hl.
Qed.

Lemma out_ptrs_distinct o :
  NoDup (out_ptrs o) ->
  marker_color o <> marker_start o /\ marker_color o <> marker_mid o
  /\ marker_color o <> marker_end o /\ marker_color o <> angles o
  /\ marker_start o <> marker_mid o /\ marker_start o <> marker_end o
  /\ marker_start o <> angles o /\ marker_mid o <> marker_end o
  /\ marker_mid o <> angles o /\ marker_end o <> angles o.
Proof.
  unfold out_ptrs. rewrite !NoDup_cons, !not_elem_of_cons. tauto.
Qed.

Lemma holds_angles s s' A c :
  holds s A -> writes (angles (out s)) s s' c ->
  holds s' (Arrays (a_colors A) (a_start A) (a_mid A) (a_end A) c (a_log A)).
Proof.
  intros (H1 & H2 & H3 & H4 & H5 & Hnd & Hl) (Hc & Ho & (Hout & _) & Hs).
  pose proof (out_ptrs_distinct _ Hnd) as Hd.
  unfold holds. rewrite Hout, Hs, !Ho by tauto. simpl. tauto.
Qed.

Lemma holds_colors s s' A c :
  holds s A -> writes (marker_color (out s)) s s' c ->
  holds s' (Arrays c (a_start A) (a_mid A) (a_end A) (a_angles A) (a_log A)).
Proof.
  intros (H1 & H2 & H3 & H4 & H5 & Hnd & Hl) (Hc & Ho & (Hout & _) & Hs).
  pose proof (out_ptrs_distinct _ Hnd) as Hd.
  unfold holds. rewrite Hout, Hs, Hc.
  rewrite !Ho by (apply not_eq_sym; tauto). simpl. tauto.
Qed.

Lemma holds_loc l s s' A c :
  holds s A -> writes (loc_ptr l (out s)) s s' c -> holds s' (set_loc l c A).
Proof.
  intros (H1 & H2 & H3 & H4 & H5 & Hnd & Hl) (Hc & Ho & (Hout & _) & Hs).
  pose proof (out_ptrs_distinct _ Hnd) as Hd.
  unfold holds. rewrite Hout, Hs.
  destruct l; simpl in *;
    repeat match goal with
    | |- context [array_at s' ?p] =>
        first [ rewrite Hc
              | rewrite (Ho p) by (first [tauto | apply not_eq_sym; tauto]) ]
    end; tauto.
Qed.

Lemma holds_loc_array l s A :
  holds s A -> array_at s (loc_ptr l (out s)) = Some (loc_array l A).
Proof. intros (H1 & H2 & H3 & H4 & H5 & _). now destruct l. Qed.

Lemma sized_say na nm ms A : sized na nm A -> sized na nm (say ms A).
Proof. exact id. Qed.

Lemma sized_loc na nm l c A :
  sized na nm A -> length c = length (loc_array l A) -> sized na nm (set_loc l c A).
Proof.
  unfold sized. intros (? & ? & ? & ? & ?) Hc.
  destruct l; simpl in *; rewrite ?Hc; tauto.
Qed.

Lemma sized_loc_array na nm l A :
  sized na nm A -> Z.of_nat (length (loc_array l A)) = na * nm * 2.
Proof. intros (? & ? & ? & ? & ?). now destruct l. Qed.

End Holds.

Section ArrayPassSpec.

Variable js : list ascii.
Variable t : list jsmntok_t.
Variable num_angles num_markers : Z.

(** The loop over the elements of angles or marker_color. *)
Lemma fill_loop_spec dest vs : forall es j indx s c,
  Forall2 (int_tok js) vs es ->
  tokens_at t indx es ->
  array_at s (dest (out s)) = Some c ->
  (j + length vs <= length c)%nat ->
  exists s', fill_loop js t dest (length vs) j indx s = Next (indx + length vs)%nat s'
             /\ writes (dest (out s)) s s' (store_seq j vs c).
Proof.
  induction vs as [|v vs IH]; intros es j indx s c Hes Hat Hc Hlen.
  - simpl. rewrite Nat.add_0_r. eauto using writes_refl.
  - apply Forall2_cons_inv_l in Hes as (e & es' & He & Hes & ->).
    apply tokens_at_cons in Hat as [Hi Hat].
    simpl in Hlen. simpl fill_loop. unfold bind at 1.
    rewrite (tok_at_Some t indx e s Hi). unfold bind at 1.
    rewrite (atoi_at_int js v e s He). unfold bind at 1, get_out. unfold bind at 1.
    destruct (store_spec (dest (out s)) (Z.of_nat j) v s c Hc) as (s1 & -> & Hw);
      [lia|].
    rewrite Nat2Z.id in Hw.
    pose proof Hw as (Hc1 & _ & (Ho & _) & _).
    destruct (IH es' (S j) (S indx) s1 (<[j := Some v]> c)) as (s' & -> & Hw');
      [assumption|assumption|now rewrite Ho|rewrite length_insert; lia|].
    exists s'. split; [simpl length; f_equal; lia|].
    rewrite Ho in Hw'. simpl. eapply writes_trans; eassumption.
Qed.

(** The loop over the integers of an inner array. *)
Lemma inner_loop_spec p j vs : forall es k indx s c,
  Forall2 (int_tok js) vs es ->
  tokens_at t indx es ->
  array_at s p = Some c ->
  (forall k', (k <= k' < k + length vs)%nat ->
     0 <= Z.of_nat k' * num_angles + Z.of_nat j < Z.of_nat (length c)) ->
  exists s', inner_loop js t num_angles p j (length vs) k indx s
               = Next (indx + length vs)%nat s'
             /\ writes p s s' (store_row num_angles j k vs c).
Proof.
  induction vs as [|v vs IH]; intros es k indx s c Hes Hat Hc Hidx.
  - simpl. rewrite Nat.add_0_r. eauto using writes_refl.
  - apply Forall2_cons_inv_l in Hes as (e & es' & He & Hes & ->).
    apply tokens_at_cons in Hat as [Hi Hat].
    simpl in Hidx. simpl inner_loop. unfold bind at 1.
    rewrite (tok_at_Some t indx e s Hi). unfold bind at 1.
    rewrite (atoi_at_int js v e s He). unfold bind at 1.
    destruct (store_spec p (Z.of_nat k * num_angles + Z.of_nat j) v s c Hc)
      as (s1 & -> & Hw); [apply Hidx; lia|].
    pose proof Hw as (Hc1 & _).
    destruct (IH es' (S k) (S indx) s1 _ Hes Hat Hc1) as (s' & -> & Hw').
    { intros k' Hk'. rewrite length_insert. apply Hidx. lia. }
    exists s'. split; [simpl length; f_equal; lia|].
    simpl. eapply writes_trans; eassumption.
Qed.

(** The loop over the elements of a location array. *)
Lemma outer_loop_spec l items : forall itoks j indx s A,
  Forall2 (item_tokens js) items itoks ->
  tokens_at t indx (concat itoks) ->
  holds s A -> sized num_angles num_markers A ->
  Z.of_nat (j + length items) <= num_angles ->
  exists s',
    holds s' (snd (items_sem num_angles num_markers l j items A))
    /\ frame s s'
    /\ sized num_angles num_markers (snd (items_sem num_angles num_markers l j items A))
    /\ outer_loop js t num_angles num_markers (loc_ptr l (out s)) (length items) j indx s
       = match fst (items_sem num_angles num_markers l j items A) with
         | None => Next (indx + length (concat itoks))%nat s'
         | Some _ => Returned EXIT_FAILURE s'
         end.
Proof.
  induction items as [|it items IH]; intros itoks j indx s A Hit Hat HA Hsz Hj.
  - apply Forall2_nil_inv_l in Hit as ->. simpl. rewrite Nat.add_0_r.
    exists s. auto using frame_refl.
  - apply Forall2_cons_inv_l in Hit as (toks & itoks' & Htoks & Hit & ->).
    simpl concat in Hat. apply tokens_at_app in Hat as [Hat1 Hat2].
    simpl in Hj. destruct it as [|vs]; simpl in Htoks.
    + destruct Htoks as (e & -> & Hty & _).
      apply tokens_at_cons in Hat1 as [Hi _]. simpl in Hat2.
      replace (indx + 1)%nat with (S indx) in Hat2 by lia.
      simpl outer_loop. unfold bind at 1. rewrite (tok_at_Some t indx e s Hi).
      rewrite (bool_decide_eq_false_2 _ Hty).
      destruct (IH itoks' (S j) (S indx) s A Hit Hat2 HA Hsz) as (s' & ? & ? & ? & E);
        [lia|].
      exists s'. simpl. rewrite E.
      split; [assumption|]. split; [assumption|]. split; [assumption|].
      destruct (fst _); [reflexivity|f_equal; lia].
    + destruct Htoks as (a & es & -> & Hty & Hsize & Hes).
      apply tokens_at_cons in Hat1 as [Hi Hat1]. simpl in Hat2.
      simpl outer_loop. unfold bind at 1. rewrite (tok_at_Some t indx a s Hi).
      rewrite (bool_decide_eq_true_2 _ Hty). rewrite Hsize.
      simpl items_sem. unfold bind at 1.
      destruct (Z.of_nat (length vs) =? num_markers * 2) eqn:Hm; simpl negb; cbv iota.
      * simpl. unfold bind at 1.
        rewrite Nat2Z.id.
        destruct (inner_loop_spec (loc_ptr l (out s)) j vs es O (S indx) s
                    (loc_array l A) Hes Hat1 (holds_loc_array l s A HA))
          as (s1 & -> & Hw).
        { intros k' Hk'. rewrite (sized_loc_array _ _ l A Hsz). nia. }
        pose proof (holds_loc l s s1 A _ HA Hw) as HA1.
        pose proof Hw as (_ & _ & Hf1 & _). pose proof Hf1 as (Ho1 & _).
        destruct (IH itoks' (S j) (S indx + length vs)%nat s1
                    (set_loc l (store_row num_angles j 0 vs (loc_array l A)) A) Hit)
          as (s' & ? & ? & ? & E); [|exact HA1| |lia|].
        { replace (S indx + length vs)%nat with (indx + length (a :: es))%nat;
            [exact Hat2|]. simpl. apply Forall2_length in Hes. lia. }
        { apply sized_loc; [exact Hsz|]. apply length_store_row. }
        exists s'. rewrite Ho1 in E. rewrite E.
        split; [assumption|]. split; [eapply frame_trans; eassumption|].
        split; [assumption|].
        destruct (fst _); [reflexivity|].
        f_equal. rewrite length_app. simpl. apply Forall2_length in Hes. lia.
      * exists (log s [MSecondDimension (Z.of_nat (length vs)) num_markers]).
        simpl. split; [now apply holds_log|]. split; [apply frame_log|].
        split; [exact Hsz|reflexivity].
Qed.

Lemma runs_end i s : (length t <= i)%nat -> runs js t num_angles num_markers i s (Next tt s).
Proof.
  intros Hi fuel _. destruct fuel; simpl; unfold r;
    now rewrite bool_decide_eq_false_2 by lia.
Qed.

Lemma runs_step i i' s s' res :
  (i < length t)%nat ->
  array_body js t num_angles num_markers i s = Next i' s' ->
  (i <= i')%nat ->
  runs js t num_angles num_markers (S i') s' res ->
  runs js t num_angles num_markers i s res.
Proof.
  intros Hi Hbody Hle Hrun fuel Hfuel.
  destruct fuel as [|fuel]; [lia|]. simpl. unfold r.
  rewrite bool_decide_eq_true_2 by lia.
  unfold bind. rewrite Hbody. apply Hrun. lia.
Qed.

Lemma runs_fail i s rc s' :
  (i < length t)%nat ->
  array_body js t num_angles num_markers i s = Returned rc s' ->
  runs js t num_angles num_markers i s (Returned rc s').
Proof.
  intros Hi Hbody fuel Hfuel.
  destruct fuel as [|fuel]; [lia|]. simpl. unfold r.
  rewrite bool_decide_eq_true_2 by lia.
  unfold bind. now rewrite Hbody.
Qed.

(** A token that is none of the five keys is reported and passed. *)
Lemma body_other i e s :
  t !! i = Some e -> not_array_key js e ->
  array_body js t num_angles num_markers i s
    = Next i (log s [MUnexpectedKey (tok_text js e)]).
Proof.
  intros Hi (H1 & H2 & H3 & H4 & H5). unfold array_body, bind at 1.
  rewrite (tok_at_Some t i e s Hi).
  rewrite !not_key_eqb by assumption. reflexivity.
Qed.

Lemma body_angles i k vtoks vs s A :
  t !! i = Some k -> is_key js "angles" k ->
  tokens_at t (S i) vtoks -> int_array js vs vtoks ->
  holds s A -> sized num_angles num_markers A ->
  exists s',
    holds s' (snd (field_sem num_angles num_markers (FAngles vs) A))
    /\ frame s s'
    /\ sized num_angles num_markers (snd (field_sem num_angles num_markers (FAngles vs) A))
    /\ array_body js t num_angles num_markers i s
       = match fst (field_sem num_angles num_markers (FAngles vs) A) with
         | None => Next (i + length vtoks)%nat s'
         | Some _ => Returned EXIT_FAILURE s'
         end.
Proof.
  intros Hi Hk Hat (a & es & -> & Hty & Hsize & Hes) HA Hsz.
  apply tokens_at_cons in Hat as [Ha Hat].
  unfold array_body, bind at 1. rewrite (tok_at_Some t i k s Hi).
  rewrite (is_key_eqb _ _ _ Hk). unfold bind at 1.
  replace (i + 1)%nat with (S i) by lia.
  rewrite (tok_at_Some t (S i) a s Ha).
  rewrite (bool_decide_eq_true_2 _ Hty). simpl negb. cbv iota.
  rewrite Hsize. simpl field_sem. unfold bind at 1.
  destruct (Z.of_nat (length vs) =? num_angles) eqn:Hm; simpl negb; cbv iota.
  - simpl. unfold bind at 1. rewrite Nat2Z.id.
    pose proof HA as (_ & _ & _ & _ & Hang & _).
    destruct (fill_loop_spec angles vs es O (S (S i)) s _ Hes Hat Hang)
      as (s1 & -> & Hw).
    { destruct Hsz as (_ & Hl & _). lia. }
    exists s1. split; [eapply holds_angles; eassumption|].
    split; [apply Hw|]. split.
    + destruct Hsz as (? & ? & ? & ? & ?). unfold sized. simpl.
      rewrite length_store_seq. tauto.
    + unfold ret. f_equal. apply Forall2_length in Hes. lia.
  - exists (log s [MAnglesMismatch (Z.of_nat (length vs)) num_angles]).
    simpl. split; [now apply holds_log|]. split; [apply frame_log|].
    split; [exact Hsz|reflexivity].
Qed.

Lemma body_colors i k vtoks vs s A :
  t !! i = Some k -> is_key js "marker_color" k ->
  tokens_at t (S i) vtoks -> int_array js vs vtoks ->
  holds s A -> sized num_angles num_markers A ->
  exists s',
    holds s' (snd (field_sem num_angles num_markers (FColors vs) A))
    /\ frame s s'
    /\ sized num_angles num_markers (snd (field_sem num_angles num_markers (FColors vs) A))
    /\ array_body js t num_angles num_markers i s
       = match fst (field_sem num_angles num_markers (FColors vs) A) with
         | None => Next (i + length vtoks)%nat s'
         | Some _ => Returned EXIT_FAILURE s'
         end.
Proof.
  intros Hi Hk Hat (a & es & -> & Hty & Hsize & Hes) HA Hsz.
  apply tokens_at_cons in Hat as [Ha Hat].
  unfold array_body, bind at 1. rewrite (tok_at_Some t i k s Hi).
  rewrite (not_key_eqb js k "angles")
    by (apply (is_key_not js k _ _ Hk); discriminate).
  rewrite (is_key_eqb _ _ _ Hk). unfold bind at 1.
  replace (i + 1)%nat with (S i) by lia.
  rewrite (tok_at_Some t (S i) a s Ha).
  rewrite (bool_decide_eq_true_2 _ Hty). simpl negb. cbv iota.
  rewrite Hsize. simpl field_sem. unfold bind at 1.
  destruct (Z.of_nat (length vs) =? num_markers) eqn:Hm; simpl negb; cbv iota.
  - simpl. unfold bind at 1. rewrite Nat2Z.id.
    pose proof HA as (Hcol & _).
    destruct (fill_loop_spec marker_color vs es O (S (S i)) s _ Hes Hat Hcol)
      as (s1 & -> & Hw).
    { destruct Hsz as (Hl & _). lia. }
    exists s1. split; [eapply holds_colors; eassumption|].
    split; [apply Hw|]. split.
    + destruct Hsz as (? & ? & ? & ? & ?). unfold sized. simpl.
      rewrite length_store_seq. tauto.
    + unfold ret. f_equal. apply Forall2_length in Hes. lia.
  - exists (log s [MColorsMismatch (Z.of_nat (length vs)) num_markers]).
    simpl. split; [now apply holds_log|]. split; [apply frame_log|].
    split; [exact Hsz|reflexivity].
Qed.

Lemma body_loc i k a itoks l items s A :
  t !! i = Some k -> is_key js (loc_name l) k ->
  t !! (S i) = Some a -> type a = JSMN_ARRAY -> size a = Z.of_nat (length items) ->
  tokens_at t (S (S i)) (concat itoks) ->
  Forall2 (item_tokens js) items itoks ->
  holds s A -> sized num_angles num_markers A ->
  exists s',
    holds s' (snd (field_sem num_angles num_markers (FLoc l items) A))
    /\ frame s s'
    /\ sized num_angles num_markers (snd (field_sem num_angles num_markers (FLoc l items) A))
    /\ array_body js t num_angles num_markers i s
       = match fst (field_sem num_angles num_markers (FLoc l items) A) with
         | None => Next (i + S (length (concat itoks)))%nat s'
         | Some _ => Returned EXIT_FAILURE s'
         end.
Proof.
  intros Hi Hk Ha Hty Hsize Hat Hit HA Hsz.
  unfold array_body, bind at 1. rewrite (tok_at_Some t i k s Hi).
  rewrite (not_key_eqb js k "angles")
    by (apply (is_key_not js k _ _ Hk); destruct l; discriminate).
  rewrite (not_key_eqb js k "marker_color")
    by (apply (is_key_not js k _ _ Hk); destruct l; discriminate).
  assert (Hp : (if jsoneq js k "marker_start" =? 0 then marker_start (out s)
                else if jsoneq js k "marker_mid" =? 0 then marker_mid (out s)
                else if jsoneq js k "marker_end" =? 0 then marker_end (out s)
                else NULL) = loc_ptr l (out s)
               /\ (jsoneq js k "marker_start" =? 0)
                  || (jsoneq js k "marker_mid" =? 0)
                  || (jsoneq js k "marker_end" =? 0) = true).
  { destruct l; simpl in Hk |- *.
    - rewrite (is_key_eqb _ _ _ Hk). auto.
    - rewrite (not_key_eqb js k "marker_start")
        by (apply (is_key_not js k _ _ Hk); discriminate).
      rewrite (is_key_eqb _ _ _ Hk). auto.
    - rewrite (not_key_eqb js k "marker_start")
        by (apply (is_key_not js k _ _ Hk); discriminate).
      rewrite (not_key_eqb js k "marker_mid")
        by (apply (is_key_not js k _ _ Hk); discriminate).
      rewrite (is_key_eqb _ _ _ Hk). auto. }
  destruct Hp as [Hp ->]. unfold bind at 1, get_out. rewrite Hp.
  unfold bind at 1. replace (i + 1)%nat with (S i) by lia.
  rewrite (tok_at_Some t (S i) a s Ha).
  rewrite (bool_decide_eq_true_2 _ Hty). simpl negb. cbv iota.
  rewrite Hsize. simpl field_sem. unfold bind at 1.
  destruct (Z.of_nat (length items) =? num_angles) eqn:Hm; simpl negb; cbv iota.
  - simpl. unfold bind at 1. rewrite Nat2Z.id.
    destruct (outer_loop_spec l items itoks O (S (S i)) s A Hit Hat HA Hsz)
      as (s1 & ? & ? & ? & ->); [simpl; lia|].
    exists s1. split; [assumption|]. split; [assumption|]. split; [assumption|].
    destruct (fst _); [reflexivity|]. unfold ret. f_equal. lia.
  - exists (log s [MFirstDimension (Z.of_nat (length items)) num_angles]).
    simpl. split; [now apply holds_log|]. split; [apply frame_log|].
    split; [exact Hsz|reflexivity].
Qed.

(** Tokens that are no key of the second loop are passed one by one. *)
Lemma others_run texts : forall toks i s res,
  Forall2 (fun text tok => not_array_key js tok /\ tok_text js tok = text) texts toks ->
  tokens_at t i toks ->
  runs js t num_angles num_markers (i + length toks)
       (log s (MUnexpectedKey <$> texts)) res ->
  runs js t num_angles num_markers i s res.
Proof.
  induction texts as [|text texts IH]; intros toks i s res Htoks Hat Hrun.
  - apply Forall2_nil_inv_l in Htoks as ->. simpl in Hrun.
    rewrite Nat.add_0_r in Hrun. unfold log in Hrun. simpl in Hrun.
    rewrite app_nil_r in Hrun. now destruct s.
  - apply Forall2_cons_inv_l in Htoks as (e & toks' & [He Htext] & Htoks & ->).
    apply tokens_at_cons in Hat as [Hi Hat].
    eapply runs_step;
      [eapply lookup_lt_Some; exact Hi|apply (body_other i e s Hi He)|lia|].
    apply (IH toks' (S i) _ res Htoks Hat).
    rewrite log_log, Htext. simpl in Hrun |- *.
    replace (S (i + length toks'))%nat with (i + S (length toks'))%nat by lia.
    exact Hrun.
Qed.

(** The second loop across the tokens of one field. *)
Lemma field_runs f toks i s A :
  field_tokens js f toks -> tokens_at t i toks ->
  holds s A -> sized num_angles num_markers A ->
  exists s',
    holds s' (snd (field_sem num_angles num_markers f A))
    /\ frame s s'
    /\ sized num_angles num_markers (snd (field_sem num_angles num_markers f A))
    /\ match fst (field_sem num_angles num_markers f A) with
       | None => forall res,
           runs js t num_angles num_markers (i + length toks) s' res ->
           runs js t num_angles num_markers i s res
       | Some _ => runs js t num_angles num_markers i s (Returned EXIT_FAILURE s')
       end.
Proof.
  intros Hf Hat HA Hsz. destruct f as [d v text|vs|vs|l items|texts]; simpl in Hf.
  - destruct Hf as (k & e & -> & Hk & He & Htext).
    exists (log s [MUnexpectedKey (chars (dim_name d)); MUnexpectedKey text]).
    simpl. split; [now apply holds_log|]. split; [apply frame_log|].
    split; [exact Hsz|]. intros res Hrun.
    apply (others_run [chars (dim_name d); text] [k; e] i s res); [|exact Hat|exact Hrun].
    apply Forall2_cons. split; [split|].
    + eapply dim_key_not_array_key. exact Hk.
    + unfold is_key in Hk. now apply jsoneq_0 in Hk as (_ & _ & ?).
    + apply Forall2_cons. split; [split|constructor].
      * unfold not_array_key. repeat split; eapply int_tok_not_key; exact He.
      * exact Htext.
  - destruct Hf as (k & vtoks & -> & Hk & Hv).
    apply tokens_at_cons in Hat as [Hi Hat].
    destruct (body_angles i k vtoks vs s A Hi Hk Hat Hv HA Hsz)
      as (s' & ? & ? & ? & Hbody).
    exists s'. split; [assumption|]. split; [assumption|]. split; [assumption|].
    apply lookup_lt_Some in Hi.
    destruct (fst _).
    + now apply runs_fail.
    + intros res Hrun. eapply runs_step; [exact Hi|exact Hbody|lia|].
      simpl in Hrun. replace (S (i + length vtoks)) with (i + S (length vtoks))%nat by lia.
      exact Hrun.
  - destruct Hf as (k & vtoks & -> & Hk & Hv).
    apply tokens_at_cons in Hat as [Hi Hat].
    destruct (body_colors i k vtoks vs s A Hi Hk Hat Hv HA Hsz)
      as (s' & ? & ? & ? & Hbody).
    exists s'. split; [assumption|]. split; [assumption|]. split; [assumption|].
    apply lookup_lt_Some in Hi.
    destruct (fst _).
    + now apply runs_fail.
    + intros res Hrun. eapply runs_step; [exact Hi|exact Hbody|lia|].
      simpl in Hrun. replace (S (i + length vtoks)) with (i + S (length vtoks))%nat by lia.
      exact Hrun.
  - destruct Hf as (k & a & itoks & -> & Hk & Hty & Hsize & Hit).
    apply tokens_at_cons in Hat as [Hi Hat]. apply tokens_at_cons in Hat as [Ha Hat].
    destruct (body_loc i k a itoks l items s A Hi Hk Ha Hty Hsize Hat Hit HA Hsz)
      as (s' & ? & ? & ? & Hbody).
    exists s'. split; [assumption|]. split; [assumption|]. split; [assumption|].
    apply lookup_lt_Some in Hi.
    destruct (fst _).
    + now apply runs_fail.
    + intros res Hrun. eapply runs_step; [exact Hi|exact Hbody|lia|].
      simpl in Hrun.
      replace (S (i + S (length (concat itoks))))
        with (i + S (S (length (concat itoks))))%nat by lia.
      exact Hrun.
  - destruct Hf as (_ & Htoks).
    exists (log s (MUnexpectedKey <$> texts)).
    simpl. split; [now apply holds_log|]. split; [apply frame_log|].
    split; [exact Hsz|]. intros res Hrun.
    apply (others_run texts toks i s res); [|exact Hat|exact Hrun].
    eapply Forall2_impl; [exact Htoks|].
    simpl. intros text tok [Hin ?]. split; [now apply inert_not_array_key|assumption].
Qed.

(** The second loop across the fields of a document, to the end of the
    token stream. *)
Lemma fields_run fs : forall ftoks i s A,
  Forall2 (field_tokens js) fs ftoks ->
  tokens_at t i (concat ftoks) ->
  (i + length (concat ftoks))%nat = length t ->
  holds s A -> sized num_angles num_markers A ->
  exists s',
    holds s' (snd (fields_sem num_angles num_markers fs A))
    /\ frame s s'
    /\ runs js t num_angles num_markers i s
         match fst (fields_sem num_angles num_markers fs A) with
         | None => Next tt s'
         | Some _ => Returned EXIT_FAILURE s'
         end.
Proof.
  induction fs as [|f fs IH]; intros ftoks i s A Hfs Hat Hend HA Hsz.
  - apply Forall2_nil_inv_l in Hfs as ->. simpl in *.
    exists s. split; [assumption|]. split; [apply frame_refl|].
    apply runs_end. lia.
  - apply Forall2_cons_inv_l in Hfs as (toks & ftoks' & Hf & Hfs & ->).
    simpl concat in *. apply tokens_at_app in Hat as [Hat1 Hat2].
    rewrite length_app in Hend.
    destruct (field_runs f toks i s A Hf Hat1 HA Hsz) as (s1 & HA1 & Hf1 & Hsz1 & Hrun).
    simpl fields_sem.
    destruct (field_sem num_angles num_markers f A) as [[m|] A1]; simpl in *.
    + exists s1. auto.
    + destruct (IH ftoks' (i + length toks)%nat s1 A1 Hfs Hat2) as (s' & ? & ? & Hrun');
        [lia|assumption|assumption|].
      exists s'. split; [assumption|]. split; [eapply frame_trans; eassumption|].
      apply Hrun. exact Hrun'.
Qed.

End ArrayPassSpec.

(** ** The first loop on documents of the documented shape *)

Section DimPassSpec.

Variable js : list ascii.
Variable t : list jsmntok_t.

Lemma dims_run_end i a b : (length t <= i)%nat -> dims_run js t i a b (a, b).
Proof.
  intros Hi fuel s _. destruct fuel; simpl; unfold r;
    now rewrite bool_decide_eq_false_2 by lia.
Qed.

Lemma dims_run_skip i e a b v :
  t !! i = Some e -> ~ is_dim_key js e ->
  dims_run js t (S i) a b v -> dims_run js t i a b v.
Proof.
  intros Hi He Hrun fuel s Hfuel. pose proof (lookup_lt_Some _ _ _ Hi).
  destruct fuel as [|fuel]; [lia|]. simpl. unfold r.
  rewrite bool_decide_eq_true_2 by lia. unfold bind at 1.
  rewrite (tok_at_Some t i e s Hi).
  rewrite !not_key_eqb by (intros ?; apply He; unfold is_dim_key; tauto).
  apply Hrun. lia.
Qed.

Lemma dims_run_key i k e d x a b v :
  t !! i = Some k -> is_key js (dim_name d) k ->
  t !! (S i) = Some e -> int_tok js x e ->
  dims_run js t (S (S i)) (fst (dims_of_field (FDim d x []) (a, b)))
           (snd (dims_of_field (FDim d x []) (a, b))) v ->
  dims_run js t i a b v.
Proof.
  intros Hi Hk He Hx Hrun fuel s Hfuel. pose proof (lookup_lt_Some _ _ _ Hi).
  destruct fuel as [|fuel]; [lia|]. simpl dim_loop. unfold r.
  rewrite bool_decide_eq_true_2 by lia. unfold bind at 1.
  rewrite (tok_at_Some t i k s Hi).
  replace (i + 1)%nat with (S i) by lia.
  destruct d; simpl in Hk, Hrun.
  - rewrite (is_key_eqb _ _ _ Hk). unfold bind at 1.
    rewrite (tok_at_Some t (S i) e s He). unfold bind at 1.
    rewrite (atoi_at_int js x e s Hx). apply Hrun. lia.
  - rewrite (not_key_eqb js k "num_angles")
      by (apply (is_key_not js k _ _ Hk); discriminate).
    rewrite (is_key_eqb _ _ _ Hk). unfold bind at 1.
    rewrite (tok_at_Some t (S i) e s He). unfold bind at 1.
    rewrite (atoi_at_int js x e s Hx). apply Hrun. lia.
Qed.

Lemma dims_run_skips toks : forall i a b v,
  Forall (fun e => ~ is_dim_key js e) toks ->
  tokens_at t i toks ->
  dims_run js t (i + length toks) a b v -> dims_run js t i a b v.
Proof.
  induction toks as [|e toks IH]; intros i a b v Hno Hat Hrun.
  - simpl in Hrun. now rewrite Nat.add_0_r in Hrun.
  - apply Forall_cons in Hno as [He Hno]. apply tokens_at_cons in Hat as [Hi Hat].
    eapply dims_run_skip; [exact Hi|exact He|].
    apply IH; [exact Hno|exact Hat|].
    simpl in Hrun. replace (S i + length toks)%nat with (i + S (length toks))%nat by lia.
    exact Hrun.
Qed.

Lemma int_array_no_dim_key vs toks :
  int_array js vs toks -> Forall (fun e => ~ is_dim_key js e) toks.
Proof.
  intros (a & es & -> & Hty & _ & Hes). apply Forall_cons. split.
  - intros [H|H]; apply jsoneq_0 in H as (? & _); congruence.
  - clear -Hes. induction Hes as [|v e vs es He _ IH]; [constructor|].
    apply Forall_cons. split; [|exact IH].
    intros [H|H]; eapply int_tok_not_key; eassumption.
Qed.

(** Outside a dimension field no token is a dimension key. *)
Lemma field_no_dim_key f toks :
  field_tokens js f toks ->
  match f with
  | FDim _ _ _ => True
  | _ => Forall (fun e => ~ is_dim_key js e) toks
  end.
Proof.
  destruct f as [d v text|vs|vs|l items|texts]; simpl; [trivial| | | |].
  - intros (k & vtoks & -> & Hk & Hv). apply Forall_cons. split.
    + intros [H|H]; revert H; apply (is_key_not js k _ _ Hk); discriminate.
    + eapply int_array_no_dim_key. exact Hv.
  - intros (k & vtoks & -> & Hk & Hv). apply Forall_cons. split.
    + intros [H|H]; revert H; apply (is_key_not js k _ _ Hk); discriminate.
    + eapply int_array_no_dim_key. exact Hv.
  - intros (k & a & itoks & -> & Hk & Hty & _ & Hit). apply Forall_cons. split.
    + intros [H|H]; revert H; apply (is_key_not js k _ _ Hk); destruct l; discriminate.
    + apply Forall_cons. split.
      * intros [H|H]; apply jsoneq_0 in H as (? & _); congruence.
      * clear -Hit. induction Hit as [|it toks items itoks Hit _ IH]; [constructor|].
        simpl. apply Forall_app. split; [|exact IH].
        destruct it as [|vs]; simpl in Hit.
        -- destruct Hit as (e & -> & _ & He). apply Forall_cons. split; [exact He|constructor].
        -- eapply int_array_no_dim_key. exact Hit.
  - intros (_ & Htoks). clear -Htoks.
    induction Htoks as [|text e texts toks [He _] _ IH]; [constructor|].
    apply Forall_cons. split; [now apply inert_not_dim_key|exact IH].
Qed.

Lemma dims_of_fields_run fs : forall ftoks i a b,
  Forall2 (field_tokens js) fs ftoks ->
  tokens_at t i (concat ftoks) ->
  (i + length (concat ftoks))%nat = length t ->
  dims_run js t i a b (foldl (fun d f => dims_of_field f d) (a, b) fs).
Proof.
  induction fs as [|f fs IH]; intros ftoks i a b Hfs Hat Hend.
  - apply Forall2_nil_inv_l in Hfs as ->. simpl in *. apply dims_run_end. lia.
  - apply Forall2_cons_inv_l in Hfs as (toks & ftoks' & Hf & Hfs & ->).
    simpl concat in *. apply tokens_at_app in Hat as [Hat1 Hat2].
    rewrite length_app in Hend. simpl foldl.
    specialize (IH ftoks' (i + length toks)%nat
                   (fst (dims_of_field f (a, b))) (snd (dims_of_field f (a, b)))
                   Hfs Hat2).
    rewrite <- surjective_pairing in IH.
    pose proof (field_no_dim_key f toks Hf) as Hno.
    destruct f as [d v text|vs|vs|l items|texts];
      try (apply (dims_run_skips toks); [exact Hno|exact Hat1|apply IH; lia]).
    destruct Hf as (k & e & -> & Hk & He & _).
    apply tokens_at_cons in Hat1 as [Hi Hat1]. apply tokens_at_cons in Hat1 as [He' _].
    eapply dims_run_key; [exact Hi|exact Hk|exact He'|exact He|].
    simpl in IH. replace (S (S i)) with (i + 2)%nat by lia.
    destruct d; simpl in *; apply IH; lia.
Qed.

(** On a document the first loop gives the dimensions of its fields. *)
Lemma dims_document fs s :
  document js fs t ->
  dim_loop js t (length t) 1 0 0 s = Next (dims_of fs) s.
Proof.
  intros (root & ftoks & Ht & _ & Hfs).
  apply (dims_of_fields_run fs ftoks 1 0 0 Hfs); [| |lia]; subst t.
  - intros m e Hm. exact Hm.
  - simpl. lia.
Qed.

End DimPassSpec.

(** ** [decode] on documents of the documented shape *)

Lemma bytes_cells n : 0 <= n <= INT_MAX -> to_size_t (to_size_t n * 4) / 4 = n.
Proof.
  unfold INT_MAX, to_size_t, SIZE_MOD. intros Hn.
  assert (H64 : 2 ^ 64 = 18446744073709551616) by reflexivity.
  assert (H31 : 2 ^ 31 = 2147483648) by reflexivity.
  rewrite H64, H31 in *.
  rewrite (Z.mod_small n) by lia. rewrite Z.mod_small by lia.
  apply Z.div_mul. lia.
Qed.

Lemma lookup_new {A} (h news : list A) i : (h ++ news) !! (length h + i)%nat = news !! i.
Proof. rewrite lookup_app_r by lia. f_equal. lia. Qed.

Section DecodeDocument.

Variable malloc_ok : nat -> Z -> bool.

Lemma allocate_ok na nm s :
  0 < na -> 0 < nm -> na * nm * 2 <= INT_MAX ->
  allocations_succeed malloc_ok s na nm ->
  exists s1,
    allocate malloc_ok na nm s = Next tt s1
    /\ holds s1 (fresh_arrays na nm (stdout s))
    /\ buf s1 = buf s
    /\ num_ang (out s1) = num_ang (out s) /\ num_mark (out s1) = num_mark (out s)
    /\ (forall b, (b < length (heap s))%nat -> heap s1 !! b = heap s !! b)
    /\ Forall (null_or_new (heap s)) (out_ptrs (out s1)).
Proof.
  intros Hna Hnm Hmax (A0 & A1 & A2 & A3 & A4).
  assert (Hmax' : INT_MAX = 2147483647) by reflexivity.
  assert (Hmin' : INT_MIN = -2147483648) by reflexivity.
  unfold allocate, bind, int_mul.
  replace ((INT_MIN <=? na * nm) && (na * nm <=? INT_MAX)) with true
    by (symmetry; apply andb_true_iff; nia).
  simpl.
  replace ((INT_MIN <=? na * nm * 2) && (na * nm * 2 <=? INT_MAX)) with true
    by (symmetry; apply andb_true_iff; nia).
  simpl. unfold malloc, set_out. unfold location_bytes, angles_bytes, colors_bytes in *.
  replace (mallocs s + 1)%nat with (S (mallocs s)) in A1 by lia.
  replace (mallocs s + 2)%nat with (S (S (mallocs s))) in A2 by lia.
  replace (mallocs s + 3)%nat with (S (S (S (mallocs s)))) in A3 by lia.
  replace (mallocs s + 4)%nat with (S (S (S (S (mallocs s))))) in A4 by lia.
  simpl. rewrite A0. simpl. rewrite A1. simpl. rewrite A2. simpl.
  rewrite A3. simpl. rewrite A4. simpl.
  eexists. split; [reflexivity|].
  rewrite <- !app_assoc. simpl. rewrite !length_app. simpl.
  rewrite !bytes_cells by nia.
  split; [|split; [reflexivity|split; [reflexivity|split; [reflexivity|split]]]].
  - unfold holds, fresh_arrays, array_at. simpl.
    rewrite <- (Nat.add_0_r (length (heap s))) at 2.
    rewrite !lookup_new. simpl.
    repeat (split; [reflexivity|]). split; [|reflexivity].
    unfold out_ptrs. simpl.
    rewrite !NoDup_cons, !not_elem_of_cons.
    repeat split; try (intros [= ?]; lia); try apply not_elem_of_nil.
    apply NoDup_nil_2.
  - intros b Hb. now rewrite lookup_app_l.
  - unfold out_ptrs. simpl.
    repeat (apply Forall_cons_2; [simpl; lia|]). apply Forall_nil_2.
Qed.

Variable js : list ascii.
Variable t : list jsmntok_t.

Lemma holds_not_null s A :
  holds s A ->
  marker_start (out s) <> NULL /\ marker_mid (out s) <> NULL
  /\ marker_end (out s) <> NULL /\ angles (out s) <> NULL.
Proof.
  intros (_ & H2 & H3 & H4 & H5 & _).
  repeat split; intros E; rewrite E in *; discriminate.
Qed.

(** [decode] does to a document what [document_sem] says. *)
Lemma decode_document fs s na nm :
  document js fs t ->
  dims_of fs = (na, nm) ->
  0 < na -> 0 < nm -> na * nm * 2 <= INT_MAX ->
  allocations_succeed malloc_ok s na nm ->
  buffer_allocated s ->
  exists s',
    decode malloc_ok js t s
      = Returned match fst (document_sem fs (stdout s)) with
                 | None => EXIT_SUCCESS
                 | Some _ => EXIT_FAILURE
                 end s'
    /\ holds s' (snd (document_sem fs (stdout s)))
    /\ num_ang (out s') = na /\ num_mark (out s') = nm.
Proof.
  intros Hdoc Hdims Hna Hnm Hmax Halloc Hbuf.
  pose proof (dims_document js t fs s Hdoc) as Hd. rewrite Hdims in Hd.
  destruct Hdoc as (root & ftoks & Ht & Hroot & Hfs).
  assert (Hobj : root_object t) by (subst t; unfold root_object; simpl; now rewrite Hroot).
  rewrite (decode_dims malloc_ok js t s na nm Hobj Hd).
  replace ((na =? 0) || (nm =? 0)) with false by (symmetry; apply orb_false_iff; lia).
  rewrite decode_arrays_eq.
  destruct (allocate_ok na nm (with_dims na nm (log s [MDimensions na nm])))
    as (s1 & Ha & HA1 & Hb1 & Hang & Hmark & Hold & Hnew); try assumption.
  rewrite (bind_Next _ _ _ _ _ Ha). simpl in Hb1, Hang, Hmark, Hold, Hnew, HA1.
  unfold document_sem. rewrite Hdims.
  set (A1 := fresh_arrays na nm (stdout s ++ [MDimensions na nm])) in *.
  assert (Hsz : sized na nm A1).
  { unfold sized, A1, fresh_arrays. simpl. rewrite !length_replicate. lia. }
  destruct (fields_run js t na nm fs ftoks 1 s1 A1 Hfs)
    as (s2 & HA2 & Hf2 & Hrun); try assumption.
  { subst t. intros m e Hm. exact Hm. }
  { subst t. simpl. lia. }
  specialize (Hrun (length t)). unfold fill_arrays.
  unfold bind at 1, get_out. unfold bind at 1.
  destruct (holds_not_null s1 A1 HA1) as (N1 & N2 & N3 & N4).
  rewrite !bool_decide_eq_false_2 by assumption. simpl.
  unfold bind at 1. unfold r. rewrite Hrun by lia.
  pose proof Hf2 as (Ho2 & _ & Hb2 & Hsame).
  destruct (fst (fields_sem na nm fs A1)).
  - exists s2. split; [reflexivity|]. split; [exact HA2|].
    rewrite Ho2. auto.
  - unfold bind at 1, get_buf. unfold bind at 1.
    unfold buffer_allocated in Hbuf. rewrite Hb2, Hb1. unfold free.
    destruct (buf s) as [|b]; [exists s2; rewrite Ho2; auto|].
    destruct Hbuf as [c Hc]. pose proof (lookup_lt_Some _ _ _ Hc) as Hlt.
    rewrite <- (Hold b Hlt) in Hc.
    destruct (Forall2_lookup_l _ _ _ _ _ Hsame Hc) as ([l2 c2] & -> & Hl2 & _).
    simpl in Hl2. subst l2.
    eexists. split; [reflexivity|]. split; [|simpl; rewrite Ho2; auto].
    assert (Hkeep : forall p, p ∈ out_ptrs (out s2) ->
              array_at (set_heap (<[b := Block false c2]> (heap s2)) s2) p
              = array_at s2 p).
    { intros p Hp. rewrite Ho2 in Hp.
      rewrite Forall_forall in Hnew. specialize (Hnew p Hp).
      destruct p as [|bp]; [reflexivity|]. simpl in Hnew |- *.
      rewrite list_lookup_insert_ne by lia. reflexivity. }
    destruct HA2 as (H1 & H2 & H3 & H4 & H5 & H6 & H7).
    unfold holds. simpl out. simpl stdout.
    rewrite !Hkeep by (unfold out_ptrs; rewrite !elem_of_cons; tauto).
    tauto.
Qed.

End DecodeDocument.

(** ** Properties of the expected outcome *)

Section Outcome.

Variable num_angles num_markers : Z.

Lemma last_say m A : last (a_log (say [m] A)) = Some m.
Proof. simpl. apply last_snoc. Qed.




(** The pass fails exactly when some field is mismatched. *)
Lemma items_sem_ok l items : forall j A,
  fst (items_sem num_angles num_markers l j items A) = None <->
  ~ Exists (fun it => match it with
                      | IRow vs => Z.of_nat (length vs) <> num_markers * 2
                      | INot => False
                      end) items.
Proof.
  induction items as [|[|vs] items IH]; intros j A; simpl.
  - rewrite Exists_nil. tauto.
  - rewrite Exists_cons, IH. tauto.
  - rewrite Exists_cons. destruct (_ =? _) eqn:E.
    + rewrite IH. apply Z.eqb_eq in E. tauto.
    + apply Z.eqb_neq in E. simpl. split; [discriminate|tauto].
Qed.

Lemma field_sem_ok f A :
  fst (field_sem num_angles num_markers f A) = None <->
  ~ mismatched num_angles num_markers f.
Proof.
  destruct f as [d v text|vs|vs|l items|texts]; simpl; try tauto.
  - destruct (_ =? _) eqn:E; simpl; [apply Z.eqb_eq in E|apply Z.eqb_neq in E];
      split; try tauto; discriminate.
  - destruct (_ =? _) eqn:E; simpl; [apply Z.eqb_eq in E|apply Z.eqb_neq in E];
      split; try tauto; discriminate.
  - destruct (_ =? _) eqn:E; simpl; [apply Z.eqb_eq in E|apply Z.eqb_neq in E].
    + rewrite items_sem_ok. tauto.
    + split; [discriminate|tauto].
Qed.

Lemma fields_sem_ok fs : forall A,
  fst (fields_sem num_angles num_markers fs A) = None <->
  ~ Exists (mismatched num_angles num_markers) fs.
Proof.
  induction fs as [|f fs IH]; intros A; simpl.
  - rewrite Exists_nil. tauto.
  - rewrite Exists_cons. pose proof (field_sem_ok f A) as Hf.
    destruct (field_sem num_angles num_markers f A) as [[m'|] A1]; simpl in *.
    + split; [discriminate|]. intros H.
      assert (Hn : ~ mismatched num_angles num_markers f) by tauto.
      apply Hf in Hn. discriminate.
    + rewrite IH. tauto.
Qed.

(** The cells written do not depend on what was printed before. *)
Lemma same_cells_refl A : same_cells A A.
Proof. repeat split. Qed.

Lemma same_cells_trans A1 A2 A3 : same_cells A1 A2 -> same_cells A2 A3 -> same_cells A1 A3.
Proof. unfold same_cells. intros (-> & -> & -> & -> & ->). tauto. Qed.

Lemma same_cells_say ms ms' A A' : same_cells A A' -> same_cells (say ms A) (say ms' A').
Proof. exact id. Qed.





(** What was printed stays printed. *)
Lemma items_sem_log l m items : forall j A,
  m ∈ a_log A -> m ∈ a_log (snd (items_sem num_angles num_markers l j items A)).
Proof.
  induction items as [|[|vs] items IH]; intros j A Hm; simpl; [assumption|now apply IH|].
  destruct (_ =? _).
  - apply IH. now destruct l.
  - simpl. apply elem_of_app. now left.
Qed.

Lemma field_sem_log m f A :
  m ∈ a_log A -> m ∈ a_log (snd (field_sem num_angles num_markers f A)).
Proof.
  intros Hm. destruct f as [d v text|vs|vs|l items|texts]; simpl;
    try (apply elem_of_app; now left);
    try (destruct (_ =? _); simpl; [assumption|apply elem_of_app; now left]).
  destruct (_ =? _); simpl; [now apply items_sem_log|apply elem_of_app; now left].
Qed.

Lemma fields_sem_log m fs : forall A,
  m ∈ a_log A -> m ∈ a_log (snd (fields_sem num_angles num_markers fs A)).
Proof.
  induction fs as [|f fs IH]; intros A Hm; simpl; [assumption|].
  pose proof (field_sem_log m f A Hm) as Hf.
  destruct (field_sem num_angles num_markers f A) as [[m'|] A1]; simpl in *;
    [assumption|now apply IH].
Qed.


End Outcome.





(** C8 (as amended).  When the second loop is at the key of an array
    field whose shape matches (an array of single integer tokens; for a
    location field an array whose elements are each a single token that
    is not an array, which is skipped, or an array of numMarkers * 2
    single integer tokens), the iteration consumes the value and leaves
    the scan position on its last token, so that the token examined next
    is the one right after the value. *)
Theorem scan_position_after_value js t na nm f toks i s A :
  array_field f ->
  field_tokens js f toks ->
  tokens_at t i toks ->
  holds s A -> sized na nm A ->
  ~ mismatched na nm f ->
  exists s',
    array_body js t na nm i s = Next (i + length toks - 1)%nat s'
    /\ forall fuel,
         array_loop js t na nm (S fuel) i s
         = array_loop js t na nm fuel (i + length toks) s'.
Proof.
  intros Harr Hf Hat HA Hsz Hok.
  apply (field_sem_ok na nm f A) in Hok.
  assert (Hstep : forall i' s',
            t !! i = Some (hd (Tok JSMN_UNDEFINED 0 0 0) toks) ->
            array_body js t na nm i s = Next i' s' ->
            forall fuel, array_loop js t na nm (S fuel) i s
                         = array_loop js t na nm fuel (S i') s').
  { intros i' s' Hi Hbody fuel. simpl. unfold r.
    rewrite bool_decide_eq_true_2 by (eapply lookup_lt_Some; exact Hi).
    unfold bind. now rewrite Hbody. }
  destruct f as [d v text|vs|vs|l items|texts]; try contradiction; simpl in Hf.
  - destruct Hf as (k & vtoks & -> & Hk & Hv).
    apply tokens_at_cons in Hat as [Hi Hat].
    destruct (body_angles js t na nm i k vtoks vs s A Hi Hk Hat Hv HA Hsz)
      as (s' & _ & _ & _ & Hbody).
    rewrite Hok in Hbody. exists s'. simpl length.
    replace (i + S (length vtoks) - 1)%nat with (i + length vtoks)%nat by lia.
    split; [exact Hbody|]. intros fuel. rewrite (Hstep _ _ Hi Hbody fuel).
    f_equal. lia.
  - destruct Hf as (k & vtoks & -> & Hk & Hv).
    apply tokens_at_cons in Hat as [Hi Hat].
    destruct (body_colors js t na nm i k vtoks vs s A Hi Hk Hat Hv HA Hsz)
      as (s' & _ & _ & _ & Hbody).
    rewrite Hok in Hbody. exists s'. simpl length.
    replace (i + S (length vtoks) - 1)%nat with (i + length vtoks)%nat by lia.
    split; [exact Hbody|]. intros fuel. rewrite (Hstep _ _ Hi Hbody fuel).
    f_equal. lia.
  - destruct Hf as (k & a & itoks & -> & Hk & Hty & Hsize & Hit).
    apply tokens_at_cons in Hat as [Hi Hat]. apply tokens_at_cons in Hat as [Ha Hat].
    destruct (body_loc js t na nm i k a itoks l items s A Hi Hk Ha Hty Hsize Hat Hit HA Hsz)
      as (s' & _ & _ & _ & Hbody).
    rewrite Hok in Hbody. exists s'. simpl length.
    replace (i + S (S (length (concat itoks))) - 1)%nat
      with (i + S (length (concat itoks)))%nat by lia.
    split; [exact Hbody|]. intros fuel. rewrite (Hstep _ _ Hi Hbody fuel).
    f_equal. lia.
Qed.

(** *** Concrete documents *)

Ltac int_tok_tac :=
  split; [reflexivity|split; [simpl; lia|vm_compute; reflexivity]].

Ltac dim_field_tac k e :=
  exists k, e; split; [reflexivity|];
  split; [vm_compute; reflexivity|];
  split; [int_tok_tac|vm_compute; reflexivity].

Ltac int_array_tac a es :=
  exists a, es; split; [reflexivity|];
  split; [reflexivity|]; split; [reflexivity|];
  repeat (apply Forall2_cons; split; [int_tok_tac|]); constructor.






Lemma scan_position_after_value_witness :
  exists s',
    array_body small_document (tokens_of small_document) 1 1 5 (allocated_state 1 1)
      = Next (5 + length [Tok JSMN_STRING 33 39 1; Tok JSMN_ARRAY 41 44 1;
                          Tok JSMN_PRIMITIVE 42 43 0] - 1)%nat s'
    /\ forall fuel,
         array_loop small_document (tokens_of small_document) 1 1 (S fuel) 5
                    (allocated_state 1 1)
         = array_loop small_document (tokens_of small_document) 1 1 fuel
             (5 + length [Tok JSMN_STRING 33 39 1; Tok JSMN_ARRAY 41 44 1;
                          Tok JSMN_PRIMITIVE 42 43 0]) s'.
Proof.
  apply (scan_position_after_value small_document (tokens_of small_document) 1 1
           (FAngles [5])
           [Tok JSMN_STRING 33 39 1; Tok JSMN_ARRAY 41 44 1; Tok JSMN_PRIMITIVE 42 43 0]
           5 (allocated_state 1 1) (fresh_arrays 1 1 [])).
  - exact I.
  - exists (Tok JSMN_STRING 33 39 1), [Tok JSMN_ARRAY 41 44 1; Tok JSMN_PRIMITIVE 42 43 0].
    split; [reflexivity|]. split; [vm_compute; reflexivity|].
    int_array_tac (Tok JSMN_ARRAY 41 44 1) [Tok JSMN_PRIMITIVE 42 43 0].
  - intros [|[|[|m]]] e He; vm_compute in He |- *; congruence.
  - unfold holds. repeat (split; [vm_compute; reflexivity|]).
    split; [|reflexivity].
    apply (bool_decide_unpack _). vm_compute. exact I.
  - vm_compute. repeat split.
  - simpl. lia.
Defined.

(** C8, counterexample.  The value of angles is [[1,2],3]: its size is 2,
    so the loop takes two tokens (the inner array and the 1) and leaves
    the scan on the 1; the token examined next is the 2 inside the inner
    array, not the key marker_color at index 11, and the 3 is never read
    as an angle. *)
Lemma nested_value_not_skipped :
  let js := nested_angles in
  let t := tokens_of js in
  t !! 5%nat = Some (Tok JSMN_STRING 33 39 1)
  /\ is_key js "angles" (Tok JSMN_STRING 33 39 1)
  /\ t !! 6%nat = Some (Tok JSMN_ARRAY 41 50 2)
  /\ (exists s', array_body js t 2 1 5 (allocated_state 2 1) = Next 8%nat s')
  /\ t !! 9%nat = Some (Tok JSMN_PRIMITIVE 45 46 0)
  /\ t !! 10%nat = Some (Tok JSMN_PRIMITIVE 48 49 0)
  /\ t !! 11%nat = Some (Tok JSMN_STRING 52 64 1)
  /\ is_key js "marker_color" (Tok JSMN_STRING 52 64 1)
  /\ exists s, decode_loaded always js = Returned EXIT_SUCCESS s
               /\ array_at s (angles (out s)) = Some [Some 0; Some 1]
               /\ MUnexpectedKey (chars "3") ∈ stdout s.
Proof.
  split; [vm_compute; reflexivity|]. split; [vm_compute; reflexivity|].
  split; [vm_compute; reflexivity|].
  split; [vm_compute; eexists; reflexivity|].
  split; [vm_compute; reflexivity|]. split; [vm_compute; reflexivity|].
  split; [vm_compute; reflexivity|]. split; [vm_compute; reflexivity|].
  vm_compute. eexists. split; [reflexivity|]. split; [reflexivity|].
  do 6 apply list_elem_of_further. apply list_elem_of_here.
Qed.

(** C9.  With the sentinel requested, [slurp] allocates one byte more
    than the file holds, but the sentinel never reaches the buffer: the
    assignment goes to the caller's pointer.  For a file of two bytes it
    lies outside that pointer, which is undefined; for an empty file it
    overwrites the pointer with null and the one byte allocated stays
    uninitialised. *)
Lemma slurp_sentinel_misplaced :
  call (slurp always (file_of (json "{}")) true) state0 = Undefined
  /\ call (slurp always (file_of []) true) state0
     = Next 0 (State [Block true [None]] 1 outs0 NULL [])
  /\ call (slurp always (file_of (json "{}")) false) state0
     = Next 2 (State [Block true [Some 123; Some 125]] 1 outs0 (Ptr 0) []).
Proof.
  split; [vm_compute; reflexivity|]. split; vm_compute; reflexivity.
Qed.

(** ** From the buffer to [decode] *)

Lemma buffer_round_trip bytes :
  mapM (fun c : option Z => (fun n => ascii_of_N (Z.to_N n)) <$> c)
       (map (fun ch => Some (code ch)) bytes) = Some bytes.
Proof.
  induction bytes as [|c bytes IH]; [reflexivity|].
  simpl. rewrite IH. simpl. unfold code. now rewrite N2Z.id, ascii_N_embedding.
Qed.

Lemma buffer_chars_loaded bytes s : buffer_chars (loaded bytes s) = Some bytes.
Proof.
  unfold buffer_chars, loaded. simpl.
  rewrite lookup_app_r, Nat.sub_diag by lia. simpl. apply buffer_round_trip.
Qed.

(** Lines 121 to 309 once the tokenizer has answered. *)
Lemma decode_buffer_tokenized malloc_ok size s js n t :
  buffer_chars s = Some js ->
  0 <= size <= Z.of_nat (length js) ->
  Jsmn.jsmn_parse js size 128 = (n, t) ->
  decode_buffer malloc_ok size s =
    if n <? 0 then Returned 1 (log s [MParseFailed n])
    else decode malloc_ok js t s.
Proof.
  intros Hjs Hsz Hp. unfold decode_buffer. rewrite Hjs, Hp.
  replace (size <? 0) with false by lia.
  replace (Z.of_nat (length js) <? size) with false by lia.
  simpl. destruct (n <? 0); reflexivity.
Qed.

(** * Further properties

    ** [slurp] *)

Lemma to_size_t_range n : 0 <= to_size_t n < SIZE_MOD.
Proof. unfold to_size_t. apply Z.mod_pos_bound. reflexivity. Qed.

Lemma to_size_t_idem n : to_size_t (to_size_t n + 0) = to_size_t n.
Proof.
  rewrite Z.add_0_r. unfold to_size_t. apply Z.mod_mod. discriminate.
Qed.

(** The four ways through [slurp] when no sentinel is asked for. *)
Lemma slurp_cases malloc_ok fs s :
  let fsz := to_size_t (ftell_off fs) in
  let data := take (Z.to_nat fsz) (fbytes fs) in
  let cells := map (fun ch => Some (code ch)) data
               ++ replicate (Z.to_nat fsz - length data) None in
  let s1 live := State (heap s ++ [Block live cells]) (S (mallocs s)) (out s)
                       (Ptr (length (heap s))) (stdout s) in
  call (slurp malloc_ok fs false) s =
    if negb (fopen_ok fs) || negb (fseek_rc fs =? 0) || (ftell_off fs <? 0)
    then Next (-1) s
    else if negb (malloc_ok (mallocs s) fsz)
    then Next (-1) (State (heap s) (S (mallocs s)) (out s) NULL (stdout s))
    else if negb (fsz =? Z.of_nat (length data)) || (EOF =? fclose_rc fs)
    then Next (-1) (s1 false)
    else Next fsz (s1 true).
Proof.
  intros fsz data cells s1.
  assert (Hlen : (length data <= Z.to_nat fsz)%nat).
  { unfold data. rewrite length_take. lia. }
  assert (Hins : forall (h : list block) b b', <[length h := b']> (h ++ [b]) = h ++ [b']).
  { intros h b b'. rewrite <- (Nat.add_0_r (length h)) at 1.
    now rewrite insert_app_r. }
  unfold call, slurp.
  remember (EOF =? fclose_rc fs) as eof.
  remember (fsz =? Z.of_nat (length data)) as full eqn:Hfull.
  destruct (fopen_ok fs); [|reflexivity]. simpl.
  destruct (fseek_rc fs =? 0); [|reflexivity]. simpl.
  replace (0 >? ftell_off fs) with (ftell_off fs <? 0) by lia.
  destruct (ftell_off fs <? 0); [reflexivity|]. simpl.
  rewrite to_size_t_idem. fold fsz.
  unfold bind, skip, ret, malloc, set_buf, fread, return_. simpl.
  destruct (malloc_ok (mallocs s) fsz); [|reflexivity]. simpl.
  rewrite lookup_app_r, Nat.sub_diag by lia. simpl.
  rewrite Z.div_1_r, length_replicate. fold data.
  rewrite bool_decide_eq_true_2 by exact Hlen.
  unfold set_heap. simpl. rewrite Hins, drop_replicate. fold cells.
  rewrite <- Hfull.
  destruct full; simpl.
  - destruct eof; simpl; [|reflexivity].
    unfold free. simpl. rewrite lookup_app_r, Nat.sub_diag by lia. simpl.
    unfold set_heap. simpl. now rewrite Hins.
  - unfold free. simpl. rewrite lookup_app_r, Nat.sub_diag by lia. simpl.
    unfold set_heap. simpl. now rewrite Hins.
Qed.

(** [slurp] returns, and leaves the out-parameters and the output as
    they were. *)
Lemma slurp_frame malloc_ok fs s :
  exists n s1, call (slurp malloc_ok fs false) s = Next n s1
               /\ out s1 = out s /\ stdout s1 = stdout s.
Proof.
  rewrite slurp_cases.
  repeat (destruct (_ || _) || destruct (negb _)); eexists _, _; repeat split.
Qed.

(** X1.  Called without the sentinel, [slurp] always returns and meets no
    undefined behaviour, whatever the file system and the allocator
    answer: its value is -1 or the offset [ftell] reported; it leaves the
    out-parameters and the output alone and adds at most one block to the
    heap. *)
Theorem slurp_returns malloc_ok fs s :
  exists n s',
    call (slurp malloc_ok fs false) s = Next n s'
    /\ (n = -1 \/ (0 <= ftell_off fs /\ n = to_size_t (ftell_off fs)))
    /\ out s' = out s /\ stdout s' = stdout s
    /\ exists new, heap s' = heap s ++ new /\ (length new <= 1)%nat.
Proof.
  rewrite slurp_cases.
  destruct (negb (fopen_ok fs) || negb (fseek_rc fs =? 0) || (ftell_off fs <? 0)) eqn:E1.
  { exists (-1), s. split; [reflexivity|]. split; [now left|].
    split; [reflexivity|]. split; [reflexivity|].
    exists []. split; [now rewrite app_nil_r|simpl; lia]. }
  assert (Hoff : 0 <= ftell_off fs) by lia. clear E1.
  destruct (negb (malloc_ok (mallocs s) (to_size_t (ftell_off fs)))).
  { eexists (-1), _. split; [reflexivity|]. split; [now left|].
    split; [reflexivity|]. split; [reflexivity|].
    exists []. split; [now rewrite app_nil_r|simpl; lia]. }
  destruct (_ || _).
  - eexists (-1), _. split; [reflexivity|]. split; [now left|].
    split; [reflexivity|]. split; [reflexivity|].
    eexists [_]. split; [reflexivity|simpl; lia].
  - eexists _, _. split; [reflexivity|]. split; [right; split; [lia|reflexivity]|].
    split; [reflexivity|]. split; [reflexivity|].
    eexists [_]. split; [reflexivity|simpl; lia].
Qed.

(** X2.  When [slurp] fails it returns -1 and leaves no allocated block
    behind: every block that is allocated afterwards was there before,
    unchanged.  The caller's pointer is then as it was (nothing was
    allocated), null ([malloc] failed), or still holds the address of the
    buffer that was released (short read, or [fclose] failed). *)
Theorem slurp_failure_releases malloc_ok fs s n s' :
  call (slurp malloc_ok fs false) s = Next n s' ->
  n < 0 ->
  n = -1
  /\ (forall b blk, heap s' !! b = Some blk -> live blk = true ->
        heap s !! b = Some blk)
  /\ (buf s' = buf s \/ buf s' = NULL
      \/ exists b c, buf s' = Ptr b /\ heap s' !! b = Some (Block false c)).
Proof.
  rewrite slurp_cases. intros H Hn.
  pose proof (to_size_t_range (ftell_off fs)) as Hr.
  destruct (negb (fopen_ok fs) || negb (fseek_rc fs =? 0) || (ftell_off fs <? 0)).
  { injection H as <- <-. auto. }
  destruct (negb (malloc_ok (mallocs s) (to_size_t (ftell_off fs)))).
  { injection H as <- <-. simpl. auto. }
  destruct (_ || _); injection H as <- <-; [|lia].
  split; [reflexivity|]. simpl. split.
  - intros b blk Hb Hlive.
    destruct (decide (b < length (heap s))%nat) as [Hlt|Hge].
    + now rewrite lookup_app_l in Hb by exact Hlt.
    + rewrite lookup_app_r in Hb by lia.
      destruct (b - length (heap s))%nat; simpl in Hb; [|discriminate].
      injection Hb as <-. discriminate.
  - right; right. eexists _, _. split; [reflexivity|].
    rewrite lookup_app_r, Nat.sub_diag by lia. reflexivity.
Qed.

Lemma slurp_failure_releases_witness :
  let fs := Fsys true 0 5 (chars "abc") 0 in
  let s' := State [Block false [Some 97; Some 98; Some 99; None; None]] 1 outs0 (Ptr 0) [] in
  call (slurp always fs false) state0 = Next (-1) s'
  /\ -1 = -1
  /\ (forall b blk, heap s' !! b = Some blk -> live blk = true ->
        heap state0 !! b = Some blk)
  /\ (buf s' = buf state0 \/ buf s' = NULL
      \/ exists b c, buf s' = Ptr b /\ heap s' !! b = Some (Block false c)).
Proof.
  intros fs s'.
  assert (H : call (slurp always fs false) state0 = Next (-1) s')
    by (vm_compute; reflexivity).
  split; [exact H|].
  apply (slurp_failure_releases always fs state0 (-1) s' H). lia.
Defined.

(** X3.  Round trip of [slurp]: for a file that opens, whose size
    [ftell] reports, and that is read and closed without error, [slurp]
    (its allocation succeeding) returns the size and leaves the caller's
    pointer on a new block that holds exactly the bytes of the file; the
    blocks the heap had, the out-parameters and the output are as
    before. *)
Theorem slurp_reads_file malloc_ok fs s :
  fopen_ok fs = true -> fseek_rc fs = 0 -> fclose_rc fs <> EOF ->
  0 <= ftell_off fs < SIZE_MOD ->
  ftell_off fs <= Z.of_nat (length (fbytes fs)) ->
  malloc_ok (mallocs s) (ftell_off fs) = true ->
  exists s',
    call (slurp malloc_ok fs false) s = Next (ftell_off fs) s'
    /\ buf s' = Ptr (length (heap s))
    /\ buffer_chars s' = Some (take (Z.to_nat (ftell_off fs)) (fbytes fs))
    /\ (forall b, (b < length (heap s))%nat -> heap s' !! b = heap s !! b)
    /\ mallocs s' = S (mallocs s) /\ out s' = out s /\ stdout s' = stdout s.
Proof.
  intros Hopen Hseek Hclose Hoff Hlen Hok.
  assert (Hsz : to_size_t (ftell_off fs) = ftell_off fs)
    by (unfold to_size_t; apply Z.mod_small; lia).
  assert (Heof : (EOF =? fclose_rc fs) = false) by (apply Z.eqb_neq; congruence).
  assert (Hdata : length (take (Z.to_nat (ftell_off fs)) (fbytes fs))
                  = Z.to_nat (ftell_off fs)) by (rewrite length_take; lia).
  rewrite slurp_cases, Hsz, Hopen, Hseek, Hok, Heof, Hdata, Z2Nat.id, !Z.eqb_refl by lia.
  replace (ftell_off fs <? 0) with false by lia.
  simpl. eexists. split; [reflexivity|]. simpl.
  split; [reflexivity|]. split.
  - unfold buffer_chars. simpl.
    rewrite lookup_app_r, Nat.sub_diag by lia. simpl.
    rewrite Nat.sub_diag. simpl. rewrite app_nil_r. apply buffer_round_trip.
  - split; [|auto]. intros b Hb. now rewrite lookup_app_l.
Qed.

Lemma slurp_reads_file_witness :
  exists s',
    call (slurp always (file_of (chars "abc")) false) state0 = Next 3 s'
    /\ buf s' = Ptr 0
    /\ buffer_chars s' = Some (chars "abc")
    /\ (forall b, (b < 0)%nat -> heap s' !! b = heap state0 !! b)
    /\ mallocs s' = 1%nat /\ out s' = outs0 /\ stdout s' = [].
Proof.
  apply (slurp_reads_file always (file_of (chars "abc")) state0).
  - reflexivity.
  - reflexivity.
  - discriminate.
  - vm_compute. split; [discriminate|reflexivity].
  - simpl. lia.
  - reflexivity.
Defined.

(** X4.  With the sentinel requested and the file read without error,
    [slurp] never ends well: for a file that is not empty the assignment
    [buf[fsz] = 0] falls outside the caller's pointer object (undefined
    behaviour); for an empty file it returns 0 after replacing the
    caller's pointer by null, the one byte it allocated still allocated
    and unwritten. *)
Theorem slurp_sentinel_overruns malloc_ok fs s :
  fopen_ok fs = true -> fseek_rc fs = 0 -> fclose_rc fs <> EOF ->
  0 <= ftell_off fs < SIZE_MOD - 1 ->
  ftell_off fs <= Z.of_nat (length (fbytes fs)) ->
  malloc_ok (mallocs s) (ftell_off fs + 1) = true ->
  call (slurp malloc_ok fs true) s =
    if ftell_off fs =? 0
    then Next 0 (State (heap s ++ [Block true [None]]) (S (mallocs s)) (out s)
                       NULL (stdout s))
    else Undefined.
Proof.
  intros Hopen Hseek Hclose Hoff Hlen Hok.
  assert (Hsz : to_size_t (ftell_off fs) = ftell_off fs)
    by (unfold to_size_t; apply Z.mod_small; lia).
  assert (Hsz1 : to_size_t (ftell_off fs + 1) = ftell_off fs + 1)
    by (unfold to_size_t; apply Z.mod_small; lia).
  assert (Hins : forall (h : list block) b b', <[length h := b']> (h ++ [b]) = h ++ [b']).
  { intros h b b'. rewrite <- (Nat.add_0_r (length h)) at 1.
    now rewrite insert_app_r. }
  assert (Hdata : length (take (Z.to_nat (ftell_off fs)) (fbytes fs))
                  = Z.to_nat (ftell_off fs)) by (rewrite length_take; lia).
  unfold call, slurp.
  remember (EOF =? fclose_rc fs) as eof eqn:Heof.
  assert (eof = false) as -> by (subst eof; apply Z.eqb_neq; congruence).
  rewrite Hopen, Hseek, Hsz, Hsz1. simpl.
  replace (0 >? ftell_off fs) with false by lia.
  unfold bind, skip, ret, malloc, set_buf, fread, return_, store_bufvar. simpl.
  rewrite Hok. simpl.
  rewrite lookup_app_r, Nat.sub_diag by lia. simpl.
  rewrite Z.div_1_r, length_replicate, Hdata.
  rewrite bool_decide_eq_true_2 by lia.
  rewrite Z2Nat.id, Z.eqb_refl by lia. simpl.
  destruct (ftell_off fs =? 0) eqn:E0; [|reflexivity].
  apply Z.eqb_eq in E0. rewrite E0. simpl. unfold set_heap. simpl.
  now rewrite Hins.
Qed.

Lemma slurp_sentinel_overruns_witness :
  call (slurp always (file_of (chars "abc")) true) state0 = Undefined.
Proof.
  apply (slurp_sentinel_overruns always (file_of (chars "abc")) state0).
  - reflexivity.
  - reflexivity.
  - discriminate.
  - vm_compute. split; [discriminate|reflexivity].
  - simpl. lia.
  - reflexivity.
Defined.

Lemma slurp_readable malloc_ok fs s :
  readable fs -> malloc_ok (mallocs s) (ftell_off fs) = true ->
  call (slurp malloc_ok fs false) s
  = Next (ftell_off fs)
         (State (heap s ++ [Block true (map (fun ch => Some (code ch)) (contents fs))])
                (S (mallocs s)) (out s) (Ptr (length (heap s))) (stdout s)).
Proof.
  intros (Hopen & Hseek & Hclose & Hoff & Hlen) Hok.
  assert (Hsz : to_size_t (ftell_off fs) = ftell_off fs)
    by (unfold to_size_t; apply Z.mod_small; lia).
  assert (Heof : (EOF =? fclose_rc fs) = false) by (apply Z.eqb_neq; congruence).
  assert (Hdata : length (take (Z.to_nat (ftell_off fs)) (fbytes fs))
                  = Z.to_nat (ftell_off fs)) by (rewrite length_take; lia).
  rewrite slurp_cases, Hsz, Hopen, Hseek, Hok, Heof, Hdata, Z2Nat.id, !Z.eqb_refl by lia.
  replace (ftell_off fs <? 0) with false by lia.
  simpl. rewrite Nat.sub_diag. simpl. now rewrite app_nil_r.
Qed.

Lemma readable_file_of bytes :
  Z.of_nat (length bytes) < SIZE_MOD -> readable (file_of bytes).
Proof.
  intros H. unfold readable, file_of. simpl.
  split; [reflexivity|]. split; [reflexivity|]. split; [discriminate|]. lia.
Qed.

Lemma contents_file_of bytes : contents (file_of bytes) = bytes.
Proof. unfold contents, file_of. simpl. rewrite Nat2Z.id. apply firstn_all. Qed.

Lemma c_string_unterminated bytes :
  Forall (fun ch => code ch <> 0) bytes ->
  c_string (map (fun ch => Some (code ch)) bytes) = None.
Proof.
  induction 1 as [|ch bytes Hch _ IH]; simpl; [reflexivity|].
  rewrite (proj2 (Z.eqb_neq _ _) Hch), IH. reflexivity.
Qed.

(** X5.  Called without the sentinel, as [parse_json] calls it, [slurp]
    allocates exactly the size of the file and writes no terminator: for
    a file without a NUL byte the buffer it returns holds no NUL either,
    so it is not a C string. *)
Theorem buffer_not_terminated malloc_ok fs s :
  readable fs -> malloc_ok (mallocs s) (ftell_off fs) = true ->
  Forall (fun ch => code ch <> 0) (contents fs) ->
  exists s' cells,
    call (slurp malloc_ok fs false) s = Next (ftell_off fs) s'
    /\ array_at s' (buf s') = Some cells
    /\ Z.of_nat (length cells) = ftell_off fs
    /\ c_string cells = None.
Proof.
  intros Hr Hok Hnul. rewrite (slurp_readable malloc_ok fs s Hr Hok).
  eexists _, _. split; [reflexivity|]. simpl.
  rewrite lookup_app_r, Nat.sub_diag by lia. simpl.
  split; [reflexivity|]. split; [|now apply c_string_unterminated].
  destruct Hr as (_ & _ & _ & Hoff & Hlen).
  unfold contents. rewrite length_map, length_take. lia.
Qed.

Lemma buffer_not_terminated_witness :
  exists s' cells,
    call (slurp always (file_of small_document) false) state0 = Next 45 s'
    /\ array_at s' (buf s') = Some cells
    /\ Z.of_nat (length cells) = 45
    /\ c_string cells = None.
Proof.
  apply (buffer_not_terminated always (file_of small_document) state0).
  - apply readable_file_of. vm_compute. reflexivity.
  - reflexivity.
  - apply Forall_forall. intros ch Hch. vm_compute in Hch.
    repeat (apply elem_of_cons in Hch as [->|Hch]; [discriminate|]).
    now apply elem_of_nil in Hch.
Defined.

(** ** Termination *)

Lemma ends_bind {A B} (m : M A) (k : A -> M B) :
  ends m -> (forall a, ends (k a)) -> ends (bind m k).
Proof.
  intros Hm Hk s. unfold bind. specialize (Hm s).
  destruct (m s); try discriminate; [apply Hk|contradiction].
Qed.

Lemma ends_if {A} (b : bool) (m1 m2 : M A) :
  ends m1 -> ends m2 -> ends (if b then m1 else m2).
Proof. now destruct b. Qed.

Lemma ends_ret {A} (a : A) : ends (ret a).
Proof. intros s. discriminate. Qed.

Lemma ends_skip : ends skip.
Proof. intros s. discriminate. Qed.

Lemma ends_return {A} rc : ends (@return_ A rc).
Proof. intros s. discriminate. Qed.

Lemma ends_undefined {A} : ends (@undefined A).
Proof. intros s. discriminate. Qed.

Lemma ends_printf m : ends (printf m).
Proof. intros s. discriminate. Qed.

Lemma ends_get_out : ends get_out.
Proof. intros s. discriminate. Qed.

Lemma ends_tok_at t i : ends (tok_at t i).
Proof. intros s. unfold tok_at. destruct (t !! i); discriminate. Qed.

Lemma ends_atoi_at js k : ends (atoi_at js k).
Proof.
  intros s. unfold atoi_at. destruct (_ <? _); [discriminate|].
  destruct (atoi _); discriminate.
Qed.

Lemma ends_store p idx x : ends (store p idx x).
Proof.
  intros s. unfold store. destruct p as [|b]; [discriminate|].
  destruct (heap s !! b) as [[[] c]|]; try discriminate.
  destruct (_ && _); discriminate.
Qed.

Create HintDb ends.
#[global] Hint Resolve ends_ret ends_skip ends_return ends_undefined ends_printf ends_get_out
  ends_tok_at ends_atoi_at ends_store : ends.

Ltac ends_auto :=
  repeat first
    [ solve [auto with ends]
    | apply ends_bind; [|intros ?]
    | apply ends_if ].

Section Termination.

Variable js : list ascii.
Variable t : list jsmntok_t.
Variable num_angles num_markers : Z.

Lemma fill_loop_indx dest n : forall j indx s indx' s',
  fill_loop js t dest n j indx s = Next indx' s' -> indx' = (indx + n)%nat.
Proof.
  induction n as [|n IH]; intros j indx s indx' s' H; simpl in H.
  - injection H as <- _. lia.
  - apply bind_inv_Next in H as (gi & s1 & _ & H).
    apply bind_inv_Next in H as (x & s2 & _ & H).
    apply bind_inv_Next in H as (o & s3 & _ & H).
    apply bind_inv_Next in H as ([] & s4 & _ & H).
    apply IH in H. lia.
Qed.

Lemma inner_loop_indx p j n : forall k indx s indx' s',
  inner_loop js t num_angles p j n k indx s = Next indx' s' -> indx' = (indx + n)%nat.
Proof.
  induction n as [|n IH]; intros k indx s indx' s' H; simpl in H.
  - injection H as <- _. lia.
  - apply bind_inv_Next in H as (gi & s1 & _ & H).
    apply bind_inv_Next in H as (x & s2 & _ & H).
    apply bind_inv_Next in H as ([] & s3 & _ & H).
    apply IH in H. lia.
Qed.

Lemma outer_loop_indx p n : forall j indx s indx' s',
  outer_loop js t num_angles num_markers p n j indx s = Next indx' s' ->
  (indx + n <= indx')%nat.
Proof.
  induction n as [|n IH]; intros j indx s indx' s' H; simpl in H.
  - injection H as <- _. lia.
  - apply bind_inv_Next in H as (g & s1 & _ & H).
    destruct (bool_decide (type g = JSMN_ARRAY)).
    + apply bind_inv_Next in H as ([] & s2 & _ & H).
      apply bind_inv_Next in H as (indx1 & s3 & Hin & H).
      apply inner_loop_indx in Hin. apply IH in H. lia.
    + apply IH in H. lia.
Qed.

Lemma ends_fill_loop dest n : forall j indx, ends (fill_loop js t dest n j indx).
Proof. induction n as [|n IH]; intros j indx; simpl; ends_auto. Qed.

Lemma ends_inner_loop p j n : forall k indx,
  ends (inner_loop js t num_angles p j n k indx).
Proof. induction n as [|n IH]; intros k indx; simpl; ends_auto. Qed.

Lemma ends_outer_loop p n : forall j indx,
  ends (outer_loop js t num_angles num_markers p n j indx).
Proof.
  induction n as [|n IH]; intros j indx; simpl; ends_auto.
  apply ends_inner_loop.
Qed.

Lemma ends_array_body i : ends (array_body js t num_angles num_markers i).
Proof.
  unfold array_body. ends_auto; auto using ends_fill_loop, ends_outer_loop.
Qed.

(** The body of the second loop never moves the scan backwards. *)
Lemma array_body_advance i s i' s' :
  array_body js t num_angles num_markers i s = Next i' s' -> (i <= i')%nat.
Proof.
  unfold array_body. intros H.
  apply bind_inv_Next in H as (ti & s1 & _ & H).
  destruct (jsoneq js ti "angles" =? 0);
    [|destruct (jsoneq js ti "marker_color" =? 0);
      [|destruct ((jsoneq js ti "marker_start" =? 0) || (jsoneq js ti "marker_mid" =? 0)
                  || (jsoneq js ti "marker_end" =? 0))]].
  - apply bind_inv_Next in H as (tv & s2 & _ & H).
    destruct (negb (bool_decide (type tv = JSMN_ARRAY))); [injection H as <- _; lia|].
    apply bind_inv_Next in H as ([] & s3 & _ & H).
    apply bind_inv_Next in H as (indx & s4 & Hf & H).
    apply fill_loop_indx in Hf. injection H as <- _. lia.
  - apply bind_inv_Next in H as (tv & s2 & _ & H).
    destruct (negb (bool_decide (type tv = JSMN_ARRAY))); [injection H as <- _; lia|].
    apply bind_inv_Next in H as ([] & s3 & _ & H).
    apply bind_inv_Next in H as (indx & s4 & Hf & H).
    apply fill_loop_indx in Hf. injection H as <- _. lia.
  - apply bind_inv_Next in H as (o & s2 & _ & H).
    apply bind_inv_Next in H as (tv & s3 & _ & H).
    destruct (negb (bool_decide (type tv = JSMN_ARRAY))); [injection H as <- _; lia|].
    apply bind_inv_Next in H as ([] & s4 & _ & H).
    apply bind_inv_Next in H as (indx & s5 & Hf & H).
    apply outer_loop_indx in Hf. injection H as <- _. lia.
  - apply bind_inv_Next in H as ([] & s2 & _ & H). injection H as <- _. lia.
Qed.

(** With fuel for every remaining token the second loop ends. *)
Lemma array_loop_ends fuel : forall i s,
  (length t - i <= fuel)%nat ->
  array_loop js t num_angles num_markers fuel i s <> OutOfFuel.
Proof.
  induction fuel as [|fuel IH]; intros i s Hf; simpl; unfold r.
  - rewrite bool_decide_eq_false_2 by lia. discriminate.
  - case_bool_decide; [|discriminate].
    unfold bind.
    destruct (array_body js t num_angles num_markers i s) as [i' s'| | | |] eqn:Hb;
      try discriminate.
    + apply array_body_advance in Hb. apply IH. lia.
    + now apply ends_array_body in Hb.
Qed.

End Termination.

Lemma ends_int_mul a b : ends (int_mul a b).
Proof. intros s. unfold int_mul. destruct (_ && _); discriminate. Qed.

(** [decode] ends for every buffer and every token array: with undefined
    behaviour, or by returning 0 or 1. *)
Lemma decode_result malloc_ok js t s :
  decode malloc_ok js t s = Undefined
  \/ exists rc s', decode malloc_ok js t s = Returned rc s'
                   /\ (rc = EXIT_SUCCESS \/ rc = EXIT_FAILURE).
Proof.
  destruct (decode_cases malloc_ok js t s)
    as [(_ & E)|[(_ & _ & E)|(Hroot & na & nm & Hdim)]].
  - right. rewrite E. eexists _, _. split; [reflexivity|now right].
  - now left.
  - rewrite (decode_dims malloc_ok js t s na nm Hroot Hdim).
    destruct ((na =? 0) || (nm =? 0)).
    { right. eexists _, _. split; [reflexivity|now right]. }
    rewrite decode_arrays_eq.
    destruct (allocate malloc_ok na nm (with_dims na nm (log s [MDimensions na nm])))
      as [[] s1|rc s1|rc s1| |] eqn:Ha.
    + rewrite (bind_Next _ _ _ _ _ Ha).
      unfold fill_arrays, bind, get_out, get_buf.
      destruct (_ || _ || _ || _).
      { right. eexists _, _. split; [reflexivity|now right]. }
      simpl.
      pose proof (keeps_array_loop js t na nm (r t) 1 s1) as Hk.
      pose proof (array_loop_ends js t na nm (r t) 1 s1) as He.
      destruct (array_loop js t na nm (r t) 1 s1) as [[] s2|rc s2|rc s2| |];
        try contradiction.
      * unfold free. destruct (buf s2) as [|b].
        { right. eexists _, _. split; [reflexivity|now left]. }
        destruct (heap s2 !! b) as [[[] c]|]; try now left.
        right. eexists _, _. split; [reflexivity|now left].
      * right. destruct Hk as (_ & -> & _).
        eexists _, _. split; [reflexivity|now right].
      * now left.
      * exfalso. apply He; [unfold r; lia|reflexivity].
    + now apply allocate_not_Returned in Ha.
    + exfalso. revert Ha. unfold allocate, bind, int_mul, malloc, set_out.
      repeat (destruct (_ && _); simpl; [|discriminate]).
      repeat (destruct (malloc_ok _ _); simpl); discriminate.
    + left. unfold bind. now rewrite Ha.
    + exfalso. revert Ha. unfold allocate, bind, int_mul, malloc, set_out.
      repeat (destruct (_ && _); simpl; [|discriminate]).
      repeat (destruct (malloc_ok _ _); simpl); discriminate.
Qed.

(** Lines 121 to 309 end for every buffer: with undefined behaviour, or
    by returning 0 or 1. *)
Lemma decode_buffer_result malloc_ok size s :
  decode_buffer malloc_ok size s = Undefined
  \/ exists rc s', decode_buffer malloc_ok size s = Returned rc s'
                   /\ (rc = EXIT_SUCCESS \/ rc = EXIT_FAILURE).
Proof.
  unfold decode_buffer. destruct (buffer_chars s) as [js|]; [|now left].
  destruct ((size <? 0) || (Z.of_nat (length js) <? size)); [now left|].
  destruct (Jsmn.jsmn_parse js size 128) as [r t].
  destruct (r <? 0).
  - right. eexists _, _. split; [reflexivity|now right].
  - apply decode_result.
Qed.

(** The echo prints one entry or is undefined. *)
Lemma echo_inv s (res : result unit) :
  echo s = res -> res = Undefined \/ res = Next tt (log s [MFile]).
Proof.
  unfold echo. intros <-. destruct (buf s) as [|b]; [now left|].
  destruct (heap s !! b) as [[[] c]|]; try now left.
  destruct (c_string c); [right; apply printf_log|now left].
Qed.

(** [parse_json] after [slurp] has returned. *)
Lemma parse_json_after_slurp malloc_ok fs s n s1 :
  call (slurp malloc_ok fs false) s = Next n s1 ->
  parse_json malloc_ok fs s =
    if n <? 0 then Exited 1 (log s1 [MReadFailed; MUsage])
    else match echo s1 with
         | Next _ s2 => decode_buffer malloc_ok n s2
         | _ => Undefined
         end.
Proof.
  intros H. unfold parse_json. unfold bind at 1. rewrite H.
  destruct (n <? 0).
  - unfold bind, usage, printf, exit, log. simpl. now rewrite <- app_assoc.
  - unfold bind at 1. unfold skip at 1, ret at 1. unfold bind at 1.
    destruct (echo_inv s1 _ eq_refl) as [-> | ->]; reflexivity.
Qed.

(** X6.  [parse_json] ends for every file and every allocator: unless it
    meets undefined behaviour it either exits the process with status 1
    or returns 0 or 1; neither of its two loops over the tokens runs
    forever, although the second one assigns the loop index in its
    body. *)
Theorem parse_json_ends malloc_ok fs s :
  parse_json malloc_ok fs s = Undefined
  \/ (exists s', parse_json malloc_ok fs s = Exited 1 s')
  \/ exists rc s', parse_json malloc_ok fs s = Returned rc s'
                   /\ (rc = EXIT_SUCCESS \/ rc = EXIT_FAILURE).
Proof.
  destruct (call (slurp malloc_ok fs false) s) as [n s1| | | |] eqn:Hs;
    try (rewrite slurp_cases in Hs; revert Hs;
         repeat (destruct (_ || _) || destruct (negb _)); discriminate).
  rewrite (parse_json_after_slurp malloc_ok fs s n s1 Hs).
  destruct (n <? 0); [right; left; eauto|].
  destruct (echo_inv s1 _ eq_refl) as [-> | ->]; [now left|].
  destruct (decode_buffer_result malloc_ok n (log s1 [MFile])) as [->|H]; auto.
Qed.

(** ** [parse_json] around the decoder *)

(** X7.  [parse_json] exits the process exactly when [slurp] returns a
    negative size, and then with status 1, after the lines of [perror]
    and [usage], with the out-parameters as the caller passed them: a
    file that cannot be read is never reported through the return
    value. *)
Theorem read_failure_exits malloc_ok fs s :
  ((exists rc s', parse_json malloc_ok fs s = Exited rc s')
   <-> exists n s1, call (slurp malloc_ok fs false) s = Next n s1 /\ n < 0)
  /\ forall rc s', parse_json malloc_ok fs s = Exited rc s' ->
       rc = 1 /\ out s' = out s /\ stdout s' = stdout s ++ [MReadFailed; MUsage].
Proof.
  destruct (slurp_frame malloc_ok fs s) as (n & s1 & Hs & Ho & Hl).
  rewrite (parse_json_after_slurp malloc_ok fs s n s1 Hs).
  assert (Hno : forall rc s',
            match echo s1 with
            | Next _ s2 => decode_buffer malloc_ok n s2
            | _ => Undefined
            end <> Exited rc s').
  { intros rc s'. destruct (echo_inv s1 _ eq_refl) as [-> | ->]; [discriminate|].
    destruct (decode_buffer_result malloc_ok n (log s1 [MFile]))
      as [->|(? & ? & -> & _)]; discriminate. }
  destruct (n <? 0) eqn:En.
  - split; [split|].
    + intros _. exists n, s1. split; [exact Hs|lia].
    + intros _. eauto.
    + intros rc s' [= <- <-]. simpl. rewrite Ho, Hl. auto.
  - split; [split|].
    + intros (rc & s' & H). now apply Hno in H.
    + intros (n' & s1' & Hs' & Hn). rewrite Hs in Hs'. injection Hs' as <- <-. lia.
    + intros rc s' H. now apply Hno in H.
Qed.

Lemma read_failure_exits_witness :
  exists rc s', parse_json always (Fsys false 0 0 [] 0) state0 = Exited rc s'.
Proof.
  apply (proj1 (read_failure_exits always (Fsys false 0 0 [] 0) state0)).
  exists (-1), state0. split; [reflexivity|lia].
Defined.

(** X8.  When the tokenizer rejects the first [size] bytes of the buffer
    (a negative count: invalid or incomplete JSON, or more tokens than
    the array of 128 holds), lines 121 to 128 of [parse_json] print the
    code and return 1: no out-parameter is written, nothing is
    allocated, and the file buffer is not released. *)
Theorem tokenizer_failure_returns malloc_ok size s js n t :
  buffer_chars s = Some js ->
  0 <= size <= Z.of_nat (length js) ->
  Jsmn.jsmn_parse js size 128 = (n, t) ->
  n < 0 ->
  exists s',
    decode_buffer malloc_ok size s = Returned 1 s'
    /\ stdout s' = stdout s ++ [MParseFailed n]
    /\ out s' = out s /\ mallocs s' = mallocs s
    /\ heap s' = heap s /\ buf s' = buf s.
Proof.
  intros Hjs Hsz Hp Hn.
  rewrite (decode_buffer_tokenized malloc_ok size s js n t Hjs Hsz Hp).
  replace (n <? 0) with true by lia.
  eexists. split; [reflexivity|]. simpl. auto.
Qed.

Lemma tokenizer_failure_returns_witness :
  exists s',
    decode_loaded always unterminated = Returned 1 s'
    /\ stdout s' = [MParseFailed JSMN_ERROR_PART]
    /\ out s' = outs0 /\ mallocs s' = 1%nat
    /\ heap s' = heap (loaded unterminated state0)
    /\ buf s' = Ptr 0.
Proof.
  apply (tokenizer_failure_returns always (Z.of_nat (length unterminated))
           (loaded unterminated state0) unterminated JSMN_ERROR_PART
           [Tok JSMN_OBJECT 0 (-1) 1; Tok JSMN_STRING 2 12 1; Tok JSMN_PRIMITIVE 14 15 0]).
  - apply buffer_chars_loaded.
  - lia.
  - vm_compute. reflexivity.
  - vm_compute. reflexivity.
Defined.

(** X9.  When the tokens do not start with an object (an empty buffer
    gives no token at all; the root may be an array or a scalar), lines
    121 to 134 of [parse_json] print "Object expected" and return 1: no
    out-parameter is written, nothing is allocated, and the file buffer
    is not released. *)
Theorem non_object_rejected malloc_ok size s js n t :
  buffer_chars s = Some js ->
  0 <= size <= Z.of_nat (length js) ->
  Jsmn.jsmn_parse js size 128 = (n, t) ->
  0 <= n -> ~ root_object t ->
  exists s',
    decode_buffer malloc_ok size s = Returned 1 s'
    /\ stdout s' = stdout s ++ [MObjectExpected]
    /\ out s' = out s /\ mallocs s' = mallocs s
    /\ heap s' = heap s /\ buf s' = buf s.
Proof.
  intros Hjs Hsz Hp Hn Hroot.
  rewrite (decode_buffer_tokenized malloc_ok size s js n t Hjs Hsz Hp).
  replace (n <? 0) with false by lia.
  rewrite (decode_not_object malloc_ok js t s Hroot).
  eexists. split; [reflexivity|]. simpl. auto.
Qed.

Lemma non_object_rejected_witness :
  (exists s',
     decode_loaded always [] = Returned 1 s'
     /\ stdout s' = [MObjectExpected]
     /\ out s' = outs0 /\ mallocs s' = 1%nat
     /\ heap s' = [Block true []] /\ buf s' = Ptr 0)
  /\ exists s',
       decode_loaded always top_level_array = Returned 1 s'
       /\ stdout s' = [MObjectExpected]
       /\ out s' = outs0 /\ mallocs s' = 1%nat
       /\ heap s' = heap (loaded top_level_array state0) /\ buf s' = Ptr 0.
Proof.
  split.
  - apply (non_object_rejected always 0 (loaded [] state0) [] 0 []).
    + apply buffer_chars_loaded.
    + simpl. lia.
    + vm_compute. reflexivity.
    + lia.
    + vm_compute. discriminate.
  - apply (non_object_rejected always (Z.of_nat (length top_level_array))
             (loaded top_level_array state0) top_level_array 3
             [Tok JSMN_ARRAY 0 5 2; Tok JSMN_PRIMITIVE 1 2 0; Tok JSMN_PRIMITIVE 3 4 0]).
    + apply buffer_chars_loaded.
    + lia.
    + vm_compute. reflexivity.
    + lia.
    + vm_compute. discriminate.
Defined.

(** X10.  The file buffer is released exactly on success: whenever
    decode returns, the buffer pointer is the one of the start, and the
    block is released if the value returned is [EXIT_SUCCESS] and still
    allocated otherwise. *)
Theorem buffer_released_on_success_only malloc_ok js t s rc s' b c :
  decode malloc_ok js t s = Returned rc s' ->
  buf s = Ptr b -> heap s !! b = Some (Block true c) ->
  buf s' = Ptr b
  /\ exists c', heap s' !! b = Some (Block (negb (rc =? EXIT_SUCCESS)) c').
Proof.
  intros H Hbuf Hb.
  pose proof (lookup_lt_Some _ _ _ Hb) as Hlt.
  destruct (decode_cases malloc_ok js t s)
    as [(_ & E)|[(_ & _ & E)|(Hroot & na & nm & Hdim)]].
  - rewrite E in H. injection H as <- <-. simpl. eauto.
  - rewrite E in H. discriminate.
  - rewrite (decode_dims malloc_ok js t s na nm Hroot Hdim) in H.
    destruct ((na =? 0) || (nm =? 0)).
    { injection H as <- <-. simpl. eauto. }
    apply decode_arrays_inv in H as (s1 & Halloc & H).
    apply allocate_inv in Halloc as (news & Hheap & _ & _ & Hbuf1 & _).
    simpl in Hheap, Hbuf1.
    assert (Hb1 : heap s1 !! b = Some (Block true c))
      by (rewrite Hheap, lookup_app_l by exact Hlt; exact Hb).
    destruct H as [(-> & -> & _)|[(-> & (_ & _ & Hbuf' & Hsame) & _)
                                 |(-> & s2 & _ & (_ & _ & Hbuf2 & Hsame) & Hf)]].
    + simpl. split; [congruence|eauto].
    + split; [congruence|].
      destruct (Forall2_lookup_l _ _ _ _ _ Hsame Hb1) as ([l2 c2] & Hl2 & Hlive & _).
      simpl in Hlive. subst l2. eauto.
    + destruct (Forall2_lookup_l _ _ _ _ _ Hsame Hb1) as ([l2 c2] & Hl2 & Hlive & _).
      simpl in Hlive. subst l2.
      unfold free in Hf. rewrite Hbuf2, Hbuf1, Hbuf, Hl2 in Hf.
      injection Hf as <-. simpl. split; [congruence|].
      rewrite list_lookup_insert_eq by (eapply lookup_lt_Some; exact Hl2). eauto.
Qed.

Lemma buffer_released_on_success_only_witness :
  let s := loaded small_document state0 in
  let s' := final_state (decode always small_document (tokens_of small_document) s) in
  buf s' = Ptr 0
  /\ exists c', heap s' !! 0%nat = Some (Block (negb (EXIT_SUCCESS =? EXIT_SUCCESS)) c').
Proof.
  intros s s'.
  apply (buffer_released_on_success_only always small_document (tokens_of small_document)
           s EXIT_SUCCESS s' 0 (map (fun ch => Some (code ch)) small_document));
    vm_compute; reflexivity.
Defined.

(** ** What the arrays hold after decode *)

Section OutcomeArrays.

Variable num_angles num_markers : Z.

Lemma fields_sem_app fs1 fs2 : forall A,
  fields_sem num_angles num_markers (fs1 ++ fs2) A =
  match fields_sem num_angles num_markers fs1 A with
  | (None, A') => fields_sem num_angles num_markers fs2 A'
  | failed => failed
  end.
Proof.
  induction fs1 as [|f fs1 IH]; intros A; simpl; [reflexivity|].
  destruct (field_sem num_angles num_markers f A) as [[m|] A1]; [reflexivity|apply IH].
Qed.

Lemma items_sem_sized l items : forall j A,
  sized num_angles num_markers A ->
  sized num_angles num_markers (snd (items_sem num_angles num_markers l j items A)).
Proof.
  induction items as [|[|vs] items IH]; intros j A HA; simpl; [assumption|now apply IH|].
  destruct (_ =? _); [|exact HA].
  apply IH. apply sized_loc; [exact HA|apply length_store_row].
Qed.

Lemma field_sem_sized f A :
  sized num_angles num_markers A ->
  sized num_angles num_markers (snd (field_sem num_angles num_markers f A)).
Proof.
  intros HA. destruct f as [d v text|vs|vs|l items|texts]; simpl;
    try exact HA; try (destruct (_ =? _); [|exact HA]).
  - destruct HA as (? & ? & ?). unfold sized. simpl. now rewrite length_store_seq.
  - destruct HA as (? & ? & ?). unfold sized. simpl. now rewrite length_store_seq.
  - now apply items_sem_sized.
Qed.

Lemma fields_sem_sized fs : forall A,
  sized num_angles num_markers A ->
  sized num_angles num_markers (snd (fields_sem num_angles num_markers fs A)).
Proof.
  induction fs as [|f fs IH]; intros A HA; simpl; [assumption|].
  pose proof (field_sem_sized f A HA) as Hf.
  destruct (field_sem num_angles num_markers f A) as [[m|] A1]; [exact Hf|now apply IH].
Qed.

(** A field leaves the arrays of the other fields as they are. *)
Lemma items_sem_other a l items : forall j A,
  a <> ALoc l ->
  array_cells a (snd (items_sem num_angles num_markers l j items A)) = array_cells a A.
Proof.
  induction items as [|[|vs] items IH]; intros j A Ha; simpl; [reflexivity|now apply IH|].
  destruct (_ =? _); [|now destruct a as [| |[]]].
  rewrite IH by exact Ha.
  destruct a as [| |l']; [now destruct l|now destruct l|].
  destruct l, l'; try reflexivity; congruence.
Qed.

Lemma field_sem_other a f A :
  field_array f <> Some a ->
  array_cells a (snd (field_sem num_angles num_markers f A)) = array_cells a A.
Proof.
  intros Ha. destruct f as [d v text|vs|vs|l items|texts]; simpl in *.
  - now destruct a as [| |[]].
  - destruct (_ =? _); destruct a as [| |[]]; try reflexivity; congruence.
  - destruct (_ =? _); destruct a as [| |[]]; try reflexivity; congruence.
  - destruct (_ =? _); [apply items_sem_other; congruence|now destruct a as [| |[]]].
  - now destruct a as [| |[]].
Qed.

Lemma fields_sem_other a fs : forall A,
  Forall (fun f => field_array f <> Some a) fs ->
  array_cells a (snd (fields_sem num_angles num_markers fs A)) = array_cells a A.
Proof.
  induction fs as [|f fs IH]; intros A Hfs; simpl; [reflexivity|].
  apply Forall_cons in Hfs as [Hf Hfs].
  pose proof (field_sem_other a f A Hf) as Ho.
  destruct (field_sem num_angles num_markers f A) as [[m|] A1]; simpl in *;
    [exact Ho|]. now rewrite IH.
Qed.

(** Storing as many integers as the array has cells fills it. *)
Lemma store_seq_fill vs : forall pre rest,
  length rest = length vs ->
  store_seq (length pre) vs (pre ++ rest) = pre ++ (Some <$> vs).
Proof.
  induction vs as [|v vs IH]; intros pre rest Hlen; simpl in *.
  - destruct rest; [reflexivity|discriminate].
  - destruct rest as [|x rest]; [discriminate|]. injection Hlen as Hlen.
    rewrite <- (Nat.add_0_r (length pre)) at 2. rewrite insert_app_r. simpl.
    replace (S (length pre)) with (length (pre ++ [Some v]))
      by (rewrite length_app; simpl; lia).
    change (pre ++ Some v :: rest) with (pre ++ [Some v] ++ rest).
    rewrite (app_assoc pre [Some v] rest).
    rewrite IH by exact Hlen. now rewrite <- app_assoc.
Qed.

Lemma store_seq_all vs c :
  length vs = length c -> store_seq O vs c = Some <$> vs.
Proof. intros H. now apply (store_seq_fill vs [] c). Qed.

End OutcomeArrays.

(** ** The layout of a location array *)

Section Layout.

Variable num_angles num_markers : Z.
Hypothesis Hna : 0 < num_angles.

Lemma cell_index k j :
  Z.to_nat (Z.of_nat k * num_angles + Z.of_nat j)
  = (k * Z.to_nat num_angles + j)%nat.
Proof. nia. Qed.

(** Two cells [k * numAngles + j] with [j < numAngles] coincide only
    when [k] and [j] do. *)
Lemma cell_index_inj k j k' j' :
  (j < Z.to_nat num_angles)%nat -> (j' < Z.to_nat num_angles)%nat ->
  (k * Z.to_nat num_angles + j = k' * Z.to_nat num_angles + j')%nat ->
  k = k' /\ j = j'.
Proof.
  intros Hj Hj' E.
  assert (HN : Z.to_nat num_angles <> O) by lia.
  assert (Ej : j = j').
  { pose proof (f_equal (fun n => n mod Z.to_nat num_angles)%nat E) as Em. simpl in Em.
    rewrite (Nat.add_comm (k * Z.to_nat num_angles)),
      (Nat.add_comm (k' * Z.to_nat num_angles)) in Em.
    rewrite !Nat.Div0.mod_add in Em. now rewrite !Nat.mod_small in Em by assumption. }
  split; [|exact Ej]. subst j'.
  apply Nat.add_cancel_r in E. now apply Nat.mul_cancel_r in E.
Qed.

Lemma store_row_other j vs : forall k0 c idx,
  (forall k, (k0 <= k < k0 + length vs)%nat ->
     idx <> (k * Z.to_nat num_angles + j)%nat) ->
  store_row num_angles j k0 vs c !! idx = c !! idx.
Proof.
  induction vs as [|v vs IH]; intros k0 c idx Hidx; simpl; [reflexivity|].
  simpl in Hidx. rewrite IH by (intros k Hk; apply Hidx; lia).
  rewrite cell_index. apply list_lookup_insert_ne.
  intros E. apply (Hidx k0); [lia|congruence].
Qed.

Lemma store_row_written j vs : forall k0 c k v,
  (j < Z.to_nat num_angles)%nat ->
  vs !! k = Some v -> ((k0 + k) * Z.to_nat num_angles + j < length c)%nat ->
  store_row num_angles j k0 vs c !! ((k0 + k) * Z.to_nat num_angles + j)%nat
  = Some (Some v).
Proof.
  induction vs as [|v0 vs IH]; intros k0 c k v Hj Hk Hlen; [discriminate|].
  simpl. destruct k as [|k]; simpl in Hk.
  - injection Hk as ->. rewrite Nat.add_0_r in *.
    rewrite store_row_other.
    + rewrite cell_index. now apply list_lookup_insert_eq.
    + intros k Hk E. apply cell_index_inj in E as [E _]; [lia|assumption|assumption].
  - replace (k0 + S k)%nat with (S k0 + k)%nat in * by lia.
    apply IH; [assumption|assumption|]. now rewrite length_insert.
Qed.

Lemma loc_array_set_loc l c A : loc_array l (set_loc l c A) = c.
Proof. now destruct l. Qed.

(** What the elements of a location field leave in its array: the
    [k]-th integer of the [j]-th element is in cell [k * numAngles + j];
    the cells of the columns before [j0] are as they were. *)
Lemma items_sem_layout l items : forall j0 A,
  fst (items_sem num_angles num_markers l j0 items A) = None ->
  Z.of_nat (length (loc_array l A)) = num_angles * num_markers * 2 ->
  (j0 + length items <= Z.to_nat num_angles)%nat ->
  let c' := loc_array l (snd (items_sem num_angles num_markers l j0 items A)) in
  (forall j row k v, items !! j = Some (IRow row) -> row !! k = Some v ->
     c' !! (k * Z.to_nat num_angles + (j0 + j))%nat = Some (Some v))
  /\ (forall idx,
        (forall k j, (j0 <= j < Z.to_nat num_angles)%nat ->
           idx <> (k * Z.to_nat num_angles + j)%nat) ->
        c' !! idx = loc_array l A !! idx).
Proof.
  induction items as [|it items IH]; intros j0 A Hok Hlen Hj0; simpl in *.
  - split; [intros j row k v Hj; now rewrite lookup_nil in Hj|reflexivity].
  - destruct it as [|vs].
    + destruct (IH (S j0) A Hok Hlen) as [IH1 IH2]; [lia|]. split.
      * intros [|j] row k v Hj Hk; simpl in Hj; [discriminate|].
        replace (j0 + S j)%nat with (S j0 + j)%nat by lia. eauto.
      * intros idx Hidx. apply IH2. intros k j Hj. apply Hidx. lia.
    + destruct (Z.of_nat (length vs) =? num_markers * 2) eqn:Hvs; [|discriminate].
      apply Z.eqb_eq in Hvs.
      set (c1 := store_row num_angles j0 0 vs (loc_array l A)) in *.
      assert (Hlen1 : Z.of_nat (length (loc_array l (set_loc l c1 A)))
                      = num_angles * num_markers * 2).
      { rewrite loc_array_set_loc. unfold c1. now rewrite length_store_row. }
      destruct (IH (S j0) (set_loc l c1 A) Hok Hlen1) as [IH1 IH2]; [lia|].
      rewrite loc_array_set_loc in IH2. split.
      * intros [|j] row k v Hj Hk; simpl in Hj.
        -- injection Hj as ->. rewrite Nat.add_0_r.
           rewrite IH2.
           ++ apply (store_row_written j0 row 0 _ k v); [lia|exact Hk|].
              apply lookup_lt_Some in Hk. nia.
           ++ intros k' j' Hj' E.
              apply cell_index_inj in E as [_ E]; lia.
        -- replace (j0 + S j)%nat with (S j0 + j)%nat by lia. eauto.
      * intros idx Hidx. rewrite IH2 by (intros k j Hj; apply Hidx; lia).
        apply store_row_other. intros k _. apply Hidx. lia.
Qed.

End Layout.

Lemma holds_array s A a :
  holds s A -> array_at s (array_ptr a (out s)) = Some (array_cells a A).
Proof.
  intros HA. destruct a as [| |l]; [| |now apply holds_loc_array];
    destruct HA as (H1 & H2 & H3 & H4 & H5 & _); assumption.
Qed.

Lemma sized_array na nm a A :
  sized na nm A -> Z.of_nat (length (array_cells a A)) = array_size a na nm.
Proof.
  intros HA. destruct a as [| |l]; [| |now apply sized_loc_array];
    destruct HA as (H1 & H2 & _); assumption.
Qed.

Lemma sized_fresh na nm log :
  0 < na -> 0 < nm -> sized na nm (fresh_arrays na nm log).
Proof.
  intros Hna Hnm. unfold sized, fresh_arrays. simpl. rewrite !length_replicate. lia.
Qed.

Lemma array_cells_fresh a na nm log :
  array_cells a (fresh_arrays na nm log) = replicate (Z.to_nat (array_size a na nm)) None.
Proof. now destruct a as [| |[]]. Qed.

(** What the second loop prints for a dimension field stays in the output
    of a pass that succeeds. *)
Lemma fields_sem_dim_logged na nm d v text fs : forall A,
  FDim d v text ∈ fs ->
  fst (fields_sem na nm fs A) = None ->
  MUnexpectedKey (chars (dim_name d)) ∈ a_log (snd (fields_sem na nm fs A))
  /\ MUnexpectedKey text ∈ a_log (snd (fields_sem na nm fs A)).
Proof.
  induction fs as [|f fs IH]; intros A Hin Hok; [now apply elem_of_nil in Hin|].
  apply elem_of_cons in Hin as [<-|Hin]; simpl in *.
  - split; apply fields_sem_log; simpl; apply elem_of_app; right.
    + apply list_elem_of_here.
    + apply list_elem_of_further, list_elem_of_here.
  - destruct (field_sem na nm f A) as [[m|] A1]; [discriminate|]. now apply IH.
Qed.

(** X11.  A missing array key is not an error: in a document without a
    shape mismatch that has no field for one of the five arrays, decode
    succeeds and leaves that array as [malloc] returned it, with no cell
    written. *)
Theorem absent_array_left_unwritten malloc_ok js t fs s na nm a :
  document js fs t ->
  dims_of fs = (na, nm) ->
  0 < na -> 0 < nm -> na * nm * 2 <= INT_MAX ->
  allocations_succeed malloc_ok s na nm ->
  buffer_allocated s ->
  ~ Exists (mismatched na nm) fs ->
  Forall (fun f => field_array f <> Some a) fs ->
  exists s',
    decode malloc_ok js t s = Returned EXIT_SUCCESS s'
    /\ array_at s' (array_ptr a (out s'))
       = Some (replicate (Z.to_nat (array_size a na nm)) None).
Proof.
  intros Hdoc Hdims Hna Hnm Hmax Halloc Hbuf Hok Habs.
  destruct (decode_document malloc_ok js t fs s na nm Hdoc Hdims Hna Hnm Hmax Halloc Hbuf)
    as (s' & Hdec & HA & _).
  unfold document_sem in *. rewrite Hdims in *.
  apply (fields_sem_ok na nm fs (fresh_arrays na nm (stdout s ++ [MDimensions na nm])))
    in Hok.
  rewrite Hok in Hdec. exists s'. split; [exact Hdec|].
  rewrite (holds_array _ _ a HA), (fields_sem_other na nm a fs _ Habs).
  now rewrite array_cells_fresh.
Qed.

(** X12.  In a document without a shape mismatch, the integers of the
    last angles field (of the last marker_color field) are, after decode,
    the cells of [angles] (of [marker_color]), in document order; an
    earlier field of the same name is overwritten. *)
Theorem flat_array_stored malloc_ok js t fs1 f fs2 s na nm a vs :
  document js (fs1 ++ f :: fs2) t ->
  dims_of (fs1 ++ f :: fs2) = (na, nm) ->
  0 < na -> 0 < nm -> na * nm * 2 <= INT_MAX ->
  allocations_succeed malloc_ok s na nm ->
  buffer_allocated s ->
  ~ Exists (mismatched na nm) (fs1 ++ f :: fs2) ->
  field_values f = Some vs -> field_array f = Some a ->
  Forall (fun f' => field_array f' <> Some a) fs2 ->
  exists s',
    decode malloc_ok js t s = Returned EXIT_SUCCESS s'
    /\ array_at s' (array_ptr a (out s')) = Some (Some <$> vs).
Proof.
  intros Hdoc Hdims Hna Hnm Hmax Halloc Hbuf Hok Hvs Ha Hlast.
  destruct (decode_document malloc_ok js t _ s na nm Hdoc Hdims Hna Hnm Hmax Halloc Hbuf)
    as (s' & Hdec & HA & _).
  unfold document_sem in *. rewrite Hdims in *.
  set (A0 := fresh_arrays na nm (stdout s ++ [MDimensions na nm])) in *.
  pose proof Hok as Hmis.
  apply (fields_sem_ok na nm _ A0) in Hok.
  rewrite Hok in Hdec. exists s'. split; [exact Hdec|].
  rewrite (holds_array _ _ a HA).
  rewrite fields_sem_app in Hok |- *.
  pose proof (fields_sem_sized na nm fs1 A0 (sized_fresh na nm _ Hna Hnm)) as Hsz.
  destruct (fields_sem na nm fs1 A0) as [[m|] A1]; [discriminate|].
  simpl in Hsz. simpl fields_sem in *.
  assert (Hf : ~ mismatched na nm f).
  { intros Hf. apply Hmis. apply Exists_app. right. now apply Exists_cons_hd. }
  destruct Hsz as (Hc & Hang & _).
  destruct f as [d v text|vs'|vs'|l items|texts]; try discriminate;
    injection Hvs as ->; injection Ha as <-; simpl in Hf; simpl field_sem in *;
    (destruct (Z.of_nat (length vs) =? _) eqn:E; [|apply Z.eqb_neq in E; lia]);
    rewrite (fields_sem_other na nm _ fs2 _ Hlast); simpl;
    apply f_equal, store_seq_all; lia.
Qed.

(** X13.  The layout of a location array: in a document without a shape
    mismatch, after decode the [k]-th integer of the [j]-th element of
    the last field of a location name, when that element is an array, is
    in cell [k * num_angles + j] of the array of that name ([j] counts
    all the elements of the field, arrays or not). *)
Theorem location_layout malloc_ok js t fs1 l items fs2 s na nm :
  document js (fs1 ++ FLoc l items :: fs2) t ->
  dims_of (fs1 ++ FLoc l items :: fs2) = (na, nm) ->
  0 < na -> 0 < nm -> na * nm * 2 <= INT_MAX ->
  allocations_succeed malloc_ok s na nm ->
  buffer_allocated s ->
  ~ Exists (mismatched na nm) (fs1 ++ FLoc l items :: fs2) ->
  Forall (fun f' => field_array f' <> Some (ALoc l)) fs2 ->
  exists s' cells,
    decode malloc_ok js t s = Returned EXIT_SUCCESS s'
    /\ array_at s' (loc_ptr l (out s')) = Some cells
    /\ Z.of_nat (length cells) = na * nm * 2
    /\ forall j row k v, items !! j = Some (IRow row) -> row !! k = Some v ->
         cells !! (k * Z.to_nat na + j)%nat = Some (Some v).
Proof.
  intros Hdoc Hdims Hna Hnm Hmax Halloc Hbuf Hok Hlast.
  destruct (decode_document malloc_ok js t _ s na nm Hdoc Hdims Hna Hnm Hmax Halloc Hbuf)
    as (s' & Hdec & HA & _).
  unfold document_sem in *. rewrite Hdims in *.
  set (A0 := fresh_arrays na nm (stdout s ++ [MDimensions na nm])) in *.
  pose proof Hok as Hmis.
  apply (fields_sem_ok na nm _ A0) in Hok.
  rewrite Hok in Hdec. exists s', (loc_array l (snd (fields_sem na nm
    (fs1 ++ FLoc l items :: fs2) A0))).
  split; [exact Hdec|]. split; [now apply holds_loc_array|].
  split.
  { apply (sized_loc_array na nm). apply fields_sem_sized. now apply sized_fresh. }
  rewrite fields_sem_app in Hok |- *.
  pose proof (fields_sem_sized na nm fs1 A0 (sized_fresh na nm _ Hna Hnm)) as Hsz.
  destruct (fields_sem na nm fs1 A0) as [[m|] A1]; [discriminate|].
  simpl in Hsz. simpl fields_sem in *.
  assert (Hf : ~ mismatched na nm (FLoc l items)).
  { intros Hf. apply Hmis. apply Exists_app. right. now apply Exists_cons_hd. }
  simpl in Hf.
  destruct (Z.of_nat (length items) =? na) eqn:E; [|apply Z.eqb_neq in E; tauto].
  apply Z.eqb_eq in E.
  destruct (items_sem na nm l 0 items A1) as [[m|] A2] eqn:Hitems; [discriminate|].
  change (loc_array l (snd (fields_sem na nm fs2 A2)))
    with (array_cells (ALoc l) (snd (fields_sem na nm fs2 A2))).
  rewrite (fields_sem_other na nm _ fs2 _ Hlast). simpl.
  destruct (items_sem_layout na nm Hna l items 0 A1) as [H1 _].
  - now rewrite Hitems.
  - now apply sized_loc_array.
  - lia.
  - rewrite Hitems in H1. exact H1.
Qed.

(** X14.  The second loop has no case for the dimension keys: in every
    decode that succeeds, each dimension field of the document is printed
    as two unexpected keys, one for the key and one for the text of its
    value. *)
Theorem dimension_fields_reported malloc_ok js t fs s na nm d v text :
  document js fs t ->
  dims_of fs = (na, nm) ->
  0 < na -> 0 < nm -> na * nm * 2 <= INT_MAX ->
  allocations_succeed malloc_ok s na nm ->
  buffer_allocated s ->
  ~ Exists (mismatched na nm) fs ->
  FDim d v text ∈ fs ->
  exists s',
    decode malloc_ok js t s = Returned EXIT_SUCCESS s'
    /\ MUnexpectedKey (chars (dim_name d)) ∈ stdout s'
    /\ MUnexpectedKey text ∈ stdout s'.
Proof.
  intros Hdoc Hdims Hna Hnm Hmax Halloc Hbuf Hok Hin.
  destruct (decode_document malloc_ok js t fs s na nm Hdoc Hdims Hna Hnm Hmax Halloc Hbuf)
    as (s' & Hdec & HA & _).
  unfold document_sem in *. rewrite Hdims in *.
  apply (fields_sem_ok na nm fs (fresh_arrays na nm (stdout s ++ [MDimensions na nm])))
    in Hok.
  rewrite Hok in Hdec. exists s'. split; [exact Hdec|].
  destruct HA as (_ & _ & _ & _ & _ & _ & ->).
  apply (fields_sem_dim_logged na nm d v text); assumption.
Qed.

(** *** Concrete documents *)

Lemma small_document_shape :
  document small_document small_document_fields (tokens_of small_document).
Proof.
  exists (Tok JSMN_OBJECT 0 45 3),
    [[Tok JSMN_STRING 2 12 1; Tok JSMN_PRIMITIVE 14 15 0];
     [Tok JSMN_STRING 17 28 1; Tok JSMN_PRIMITIVE 30 31 0];
     [Tok JSMN_STRING 33 39 1; Tok JSMN_ARRAY 41 44 1; Tok JSMN_PRIMITIVE 42 43 0]].
  split; [vm_compute; reflexivity|]. split; [reflexivity|].
  apply Forall2_cons. split.
  { dim_field_tac (Tok JSMN_STRING 2 12 1) (Tok JSMN_PRIMITIVE 14 15 0). }
  apply Forall2_cons. split.
  { dim_field_tac (Tok JSMN_STRING 17 28 1) (Tok JSMN_PRIMITIVE 30 31 0). }
  apply Forall2_cons. split; [|constructor].
  exists (Tok JSMN_STRING 33 39 1), [Tok JSMN_ARRAY 41 44 1; Tok JSMN_PRIMITIVE 42 43 0].
  split; [reflexivity|]. split; [vm_compute; reflexivity|].
  int_array_tac (Tok JSMN_ARRAY 41 44 1) [Tok JSMN_PRIMITIVE 42 43 0].
Qed.

Lemma two_rows_shape : document two_rows two_rows_fields (tokens_of two_rows).
Proof.
  exists (Tok JSMN_OBJECT 0 59 3),
    [[Tok JSMN_STRING 2 12 1; Tok JSMN_PRIMITIVE 14 15 0];
     [Tok JSMN_STRING 17 28 1; Tok JSMN_PRIMITIVE 30 31 0];
     [Tok JSMN_STRING 33 43 1; Tok JSMN_ARRAY 45 58 2;
      Tok JSMN_ARRAY 46 51 2; Tok JSMN_PRIMITIVE 47 48 0; Tok JSMN_PRIMITIVE 49 50 0;
      Tok JSMN_ARRAY 52 57 2; Tok JSMN_PRIMITIVE 53 54 0; Tok JSMN_PRIMITIVE 55 56 0]].
  split; [vm_compute; reflexivity|]. split; [reflexivity|].
  apply Forall2_cons. split.
  { dim_field_tac (Tok JSMN_STRING 2 12 1) (Tok JSMN_PRIMITIVE 14 15 0). }
  apply Forall2_cons. split.
  { dim_field_tac (Tok JSMN_STRING 17 28 1) (Tok JSMN_PRIMITIVE 30 31 0). }
  apply Forall2_cons. split; [|constructor].
  exists (Tok JSMN_STRING 33 43 1), (Tok JSMN_ARRAY 45 58 2),
    [[Tok JSMN_ARRAY 46 51 2; Tok JSMN_PRIMITIVE 47 48 0; Tok JSMN_PRIMITIVE 49 50 0];
     [Tok JSMN_ARRAY 52 57 2; Tok JSMN_PRIMITIVE 53 54 0; Tok JSMN_PRIMITIVE 55 56 0]].
  split; [reflexivity|]. split; [vm_compute; reflexivity|].
  split; [reflexivity|]. split; [reflexivity|].
  apply Forall2_cons. split.
  { int_array_tac (Tok JSMN_ARRAY 46 51 2)
      [Tok JSMN_PRIMITIVE 47 48 0; Tok JSMN_PRIMITIVE 49 50 0]. }
  apply Forall2_cons. split; [|constructor].
  int_array_tac (Tok JSMN_ARRAY 52 57 2)
    [Tok JSMN_PRIMITIVE 53 54 0; Tok JSMN_PRIMITIVE 55 56 0].
Qed.

Lemma absent_array_left_unwritten_witness :
  exists s',
    decode always small_document (tokens_of small_document) state0
      = Returned EXIT_SUCCESS s'
    /\ array_at s' (marker_color (out s')) = Some [None].
Proof.
  apply (absent_array_left_unwritten always small_document (tokens_of small_document)
           small_document_fields state0 1 1 AColors).
  - exact small_document_shape.
  - reflexivity.
  - lia.
  - lia.
  - vm_compute. discriminate.
  - repeat split.
  - exact I.
  - unfold small_document_fields. rewrite !Exists_cons, Exists_nil. simpl. lia.
  - repeat (apply Forall_cons_2; [discriminate|]). apply Forall_nil_2.
Defined.

Lemma flat_array_stored_witness :
  exists s',
    decode always small_document (tokens_of small_document) state0
      = Returned EXIT_SUCCESS s'
    /\ array_at s' (angles (out s')) = Some [Some 5].
Proof.
  apply (flat_array_stored always small_document (tokens_of small_document)
           [FDim NumAngles 1 (chars "1"); FDim NumMarkers 1 (chars "1")]
           (FAngles [5]) [] state0 1 1 AAngles [5]).
  - exact small_document_shape.
  - reflexivity.
  - lia.
  - lia.
  - vm_compute. discriminate.
  - repeat split.
  - exact I.
  - simpl. rewrite !Exists_cons, Exists_nil. simpl. lia.
  - reflexivity.
  - reflexivity.
  - apply Forall_nil_2.
Defined.

Lemma location_layout_witness :
  exists s' cells,
    decode always two_rows (tokens_of two_rows) state0 = Returned EXIT_SUCCESS s'
    /\ array_at s' (marker_mid (out s')) = Some cells
    /\ Z.of_nat (length cells) = 2 * 1 * 2
    /\ forall j row k v, [IRow [1; 2]; IRow [3; 4]] !! j = Some (IRow row) ->
         row !! k = Some v -> cells !! (k * Z.to_nat 2 + j)%nat = Some (Some v).
Proof.
  apply (location_layout always two_rows (tokens_of two_rows)
           [FDim NumAngles 2 (chars "2"); FDim NumMarkers 1 (chars "1")]
           LMid [IRow [1; 2]; IRow [3; 4]] [] state0 2 1).
  - exact two_rows_shape.
  - reflexivity.
  - lia.
  - lia.
  - vm_compute. discriminate.
  - repeat split.
  - exact I.
  - simpl. rewrite !Exists_cons, !Exists_nil. simpl.
    rewrite !Exists_cons, !Exists_nil. simpl. lia.
  - apply Forall_nil_2.
Defined.

Lemma dimension_fields_reported_witness :
  exists s',
    decode always small_document (tokens_of small_document) state0
      = Returned EXIT_SUCCESS s'
    /\ MUnexpectedKey (chars "num_markers") ∈ stdout s'
    /\ MUnexpectedKey (chars "1") ∈ stdout s'.
Proof.
  apply (dimension_fields_reported always small_document (tokens_of small_document)
           small_document_fields state0 1 1 NumMarkers 1 (chars "1")).
  - exact small_document_shape.
  - reflexivity.
  - lia.
  - lia.
  - vm_compute. discriminate.
  - repeat split.
  - exact I.
  - unfold small_document_fields. rewrite !Exists_cons, Exists_nil. simpl. lia.
  - apply list_elem_of_further, list_elem_of_here.
Defined.

(** ** Unchecked reads and sizes *)

Section DimLoopSteps.

Variable js : list ascii.
Variable t : list jsmntok_t.

Lemma dim_loop_skip fuel i e a b s :
  t !! i = Some e -> ~ is_dim_key js e ->
  dim_loop js t (S fuel) i a b s = dim_loop js t fuel (S i) a b s.
Proof.
  intros Hi He. pose proof (lookup_lt_Some _ _ _ Hi).
  simpl. unfold r. rewrite bool_decide_eq_true_2 by lia. unfold bind at 1.
  rewrite (tok_at_Some t i e s Hi).
  now rewrite !not_key_eqb by (intros ?; apply He; unfold is_dim_key; tauto).
Qed.

(** A dimension key in the last filled token: the read of the token after
    it is undefined. *)
Lemma dim_loop_key_last fuel i k a b s :
  t !! i = Some k -> is_dim_key js k -> length t = S i ->
  dim_loop js t (S fuel) i a b s = Undefined.
Proof.
  intros Hi Hk Hlen. simpl. unfold r. rewrite bool_decide_eq_true_2 by lia.
  unfold bind at 1. rewrite (tok_at_Some t i k s Hi).
  assert (Hnone : tok_at t (i + 1) s = Undefined).
  { unfold tok_at. rewrite lookup_ge_None_2 by lia. reflexivity. }
  destruct Hk as [Hk|Hk].
  - rewrite (is_key_eqb _ _ _ Hk). unfold bind. now rewrite Hnone.
  - destruct (jsoneq js k "num_angles" =? 0); [unfold bind; now rewrite Hnone|].
    rewrite (is_key_eqb _ _ _ Hk). unfold bind. now rewrite Hnone.
Qed.

End DimLoopSteps.

Lemma dim_loop_dangling js pre k : forall done fuel a b s,
  Forall (fun e => ~ is_dim_key js e) pre -> is_dim_key js k ->
  (length pre < fuel)%nat ->
  dim_loop js (done ++ pre ++ [k]) fuel (length done) a b s = Undefined.
Proof.
  induction pre as [|e pre IH]; intros done fuel a b s Hpre Hk Hfuel.
  - destruct fuel as [|fuel]; [simpl in Hfuel; lia|].
    apply dim_loop_key_last with (k := k); [|exact Hk|].
    + simpl. rewrite lookup_app_r by lia. now rewrite Nat.sub_diag.
    + rewrite length_app. simpl. lia.
  - apply Forall_cons in Hpre as [He Hpre].
    destruct fuel as [|fuel]; [simpl in Hfuel; lia|].
    rewrite (dim_loop_skip js _ fuel (length done) e).
    + replace (done ++ (e :: pre) ++ [k]) with ((done ++ [e]) ++ pre ++ [k])
        by (now rewrite <- app_assoc).
      replace (S (length done)) with (length (done ++ [e]))
        by (rewrite length_app; simpl; lia).
      apply IH; [assumption|assumption|simpl in Hfuel; lia].
    + rewrite lookup_app_r by lia. now rewrite Nat.sub_diag.
    + exact He.
Qed.

(** X15.  The first loop reads the token after a dimension key without
    testing that there is one: when the last token of the stream is a
    string that spells num_angles or num_markers (and no dimension key
    precedes it), decode reads a token the tokenizer did not fill, which
    is undefined. *)
Theorem dimension_key_without_value malloc_ok js root pre k s :
  type root = JSMN_OBJECT ->
  Forall (fun e => ~ is_dim_key js e) pre ->
  is_dim_key js k ->
  decode malloc_ok js (root :: pre ++ [k]) s = Undefined.
Proof.
  intros Hroot Hpre Hk.
  destruct (decode_cases malloc_ok js (root :: pre ++ [k]) s)
    as [(Hno & _)|[(_ & _ & E)|(_ & na & nm & Hdim)]].
  - exfalso. apply Hno. unfold root_object. simpl. now rewrite Hroot.
  - exact E.
  - rewrite (dim_loop_dangling js pre k [root]) in Hdim; [discriminate| | |];
      [assumption|assumption|].
    simpl. rewrite length_app. simpl. lia.
Qed.

Lemma dimension_key_without_value_witness :
  tokens_of dangling_key
    = Tok JSMN_OBJECT 0 18 1 :: [Tok JSMN_STRING 2 3 1] ++ [Tok JSMN_STRING 6 16 0]
  /\ decode always dangling_key
       (Tok JSMN_OBJECT 0 18 1 :: [Tok JSMN_STRING 2 3 1] ++ [Tok JSMN_STRING 6 16 0])
       state0 = Undefined.
Proof.
  split; [vm_compute; reflexivity|].
  apply (dimension_key_without_value always dangling_key (Tok JSMN_OBJECT 0 18 1)
           [Tok JSMN_STRING 2 3 1] (Tok JSMN_STRING 6 16 0) state0).
  - reflexivity.
  - apply Forall_cons_2; [|apply Forall_nil_2].
    intros [H|H]; vm_compute in H; discriminate.
  - left. vm_compute. reflexivity.
Defined.

(** X16.  The size of the location arrays is computed in [int] without
    a test: when both dimensions are non-zero and
    [num_angles * num_markers * 2] lies outside [int], decode meets
    signed overflow, which is undefined. *)
Theorem dimension_product_overflow malloc_ok js t s na nm :
  root_object t ->
  dim_loop js t (length t) 1 0 0 s = Next (na, nm) s ->
  na <> 0 -> nm <> 0 ->
  ~ (INT_MIN <= na * nm * 2 <= INT_MAX) ->
  decode malloc_ok js t s = Undefined.
Proof.
  intros Hroot Hdim Hna Hnm Hover.
  rewrite (decode_dims malloc_ok js t s na nm Hroot Hdim).
  replace ((na =? 0) || (nm =? 0)) with false by (symmetry; apply orb_false_iff; lia).
  rewrite decode_arrays_eq. unfold bind at 1, allocate. unfold bind at 1, int_mul.
  destruct ((INT_MIN <=? na * nm) && (na * nm <=? INT_MAX)) eqn:E1; [|reflexivity].
  simpl. unfold bind at 1.
  destruct ((INT_MIN <=? na * nm * 2) && (na * nm * 2 <=? INT_MAX)) eqn:E2;
    [|reflexivity].
  exfalso. apply Hover. apply andb_true_iff in E2. lia.
Qed.

Lemma dimension_product_overflow_witness :
  decode always huge_dimensions (tokens_of huge_dimensions) state0 = Undefined.
Proof.
  apply (dimension_product_overflow always huge_dimensions (tokens_of huge_dimensions)
           state0 65536 32768).
  - vm_compute. reflexivity.
  - vm_compute. reflexivity.
  - discriminate.
  - discriminate.
  - vm_compute. intros [_ H]. now apply H.
Defined.

(** X17.  The test of the allocations does not look at marker_color:
    when the four other allocations succeed and the one of marker_color
    fails, decode never reports "Memory not allocated".  Whenever it
    returns, the caller's marker_color is null, and the result is success
    or a shape mismatch. *)
Theorem marker_color_failure_unreported malloc_ok js t s na nm rc s' :
  root_object t ->
  dim_loop js t (length t) 1 0 0 s = Next (na, nm) s ->
  na <> 0 -> nm <> 0 ->
  malloc_ok (mallocs s) (location_bytes na nm) = true ->
  malloc_ok (mallocs s + 1)%nat (location_bytes na nm) = true ->
  malloc_ok (mallocs s + 2)%nat (location_bytes na nm) = true ->
  malloc_ok (mallocs s + 3)%nat (angles_bytes na) = true ->
  malloc_ok (mallocs s + 4)%nat (colors_bytes nm) = false ->
  decode malloc_ok js t s = Returned rc s' ->
  marker_color (out s') = NULL
  /\ (rc = EXIT_SUCCESS \/ exists m, last (stdout s') = Some m /\ shape_mismatch m).
Proof.
  intros Hroot Hdim Hna Hnm A0 A1 A2 A3 A4 H.
  rewrite (decode_dims malloc_ok js t s na nm Hroot Hdim) in H.
  replace ((na =? 0) || (nm =? 0)) with false in H
    by (symmetry; apply orb_false_iff; lia).
  apply decode_arrays_inv in H as (s1 & Halloc & H).
  apply allocate_inv in Halloc
    as (news & _ & _ & _ & _ & _ & _ & _ & _ & _ & Hs & Hm & He & Ha & Hc).
  simpl in Hs, Hm, He, Ha, Hc.
  apply Hc in A4.
  destruct H as [(_ & _ & Hnull)|[(_ & (Ho & _) & Hmsg)|(-> & s2 & _ & (Ho & _) & Hf)]].
  - exfalso. destruct Hnull as [N|[N|[N|N]]].
    + apply Hs in N. congruence.
    + apply Hm in N. congruence.
    + apply He in N. congruence.
    + apply Ha in N. congruence.
  - split; [congruence|now right].
  - split; [|now left].
    assert (out s' = out s2) as ->; [|congruence].
    unfold free in Hf. destruct (buf s2) as [|b]; [now injection Hf as <-|].
    destruct (heap s2 !! b) as [[[] c]|]; try discriminate.
    now injection Hf as <-.
Qed.

Lemma marker_color_failure_unreported_witness :
  let s' := final_state (decode (failing_at 4) small_document
                           (tokens_of small_document) state0) in
  decode (failing_at 4) small_document (tokens_of small_document) state0
    = Returned EXIT_SUCCESS s'
  /\ marker_color (out s') = NULL
  /\ (EXIT_SUCCESS = EXIT_SUCCESS
      \/ exists m, last (stdout s') = Some m /\ shape_mismatch m).
Proof.
  intros s'.
  assert (H : decode (failing_at 4) small_document (tokens_of small_document) state0
              = Returned EXIT_SUCCESS s') by (vm_compute; reflexivity).
  split; [exact H|].
  apply (marker_color_failure_unreported (failing_at 4) small_document
           (tokens_of small_document) state0 1 1 EXIT_SUCCESS s');
    try (vm_compute; reflexivity); try discriminate.
Defined.

(** ** Keys and their values *)

(** X18.  [jsoneq] compares whole tokens: it answers 0 only for a string
    token whose text is exactly the name, so a token matches at most one
    name and the order of the tests in [parse_json] does not matter. *)
Theorem jsoneq_one_name js tok s1 :
  jsoneq js tok s1 = 0 ->
  type tok = JSMN_STRING /\ tok_text js tok = chars s1
  /\ forall s2, jsoneq js tok s2 = 0 -> s2 = s1.
Proof.
  intros H. pose proof H as H'. apply jsoneq_0 in H' as (Hty & _ & Htext).
  split; [exact Hty|]. split; [exact Htext|].
  intros s2 H2. exact (is_key_unique js tok s2 s1 H2 H).
Qed.

Lemma jsoneq_one_name_witness :
  type (Tok JSMN_STRING 2 12 1) = JSMN_STRING
  /\ tok_text small_document (Tok JSMN_STRING 2 12 1) = chars "num_angles"
  /\ forall s2, jsoneq small_document (Tok JSMN_STRING 2 12 1) s2 = 0 ->
       s2 = "num_angles"%string.
Proof.
  apply (jsoneq_one_name small_document (Tok JSMN_STRING 2 12 1) "num_angles").
  vm_compute. reflexivity.
Defined.

Lemma array_loop_step js t na nm fuel i s i' s' :
  (i < length t)%nat ->
  array_body js t na nm i s = Next i' s' ->
  array_loop js t na nm (S fuel) i s = array_loop js t na nm fuel (S i') s'.
Proof.
  intros Hi Hbody. simpl. unfold r.
  rewrite bool_decide_eq_true_2 by exact Hi. unfold bind. now rewrite Hbody.
Qed.

(** X19.  When the token after one of the five array keys is not an
    array, the field is passed over without an error and without a write;
    the scan resumes at the value token, which (not being such a key
    itself) is printed as an unexpected key. *)
Theorem non_array_value_skipped js t na nm i k v name s :
  name ∈ array_keys ->
  t !! i = Some k -> is_key js name k ->
  t !! S i = Some v -> type v <> JSMN_ARRAY -> not_array_key js v ->
  array_body js t na nm i s = Next i s
  /\ forall fuel,
       array_loop js t na nm (S (S fuel)) i s
       = array_loop js t na nm fuel (S (S i)) (log s [MUnexpectedKey (tok_text js v)]).
Proof.
  intros Hname Hi Hk Hv Hty Hnot.
  assert (Hbody : array_body js t na nm i s = Next i s).
  { unfold array_body. unfold bind at 1. rewrite (tok_at_Some t i k s Hi).
    replace (i + 1)%nat with (S i) by lia.
    unfold array_keys in Hname.
    repeat (apply elem_of_cons in Hname as [->|Hname]);
      [| | | | |now apply elem_of_nil in Hname];
      rewrite ?(is_key_eqb _ _ _ Hk);
      rewrite ?(not_key_eqb js k "angles") by (apply (is_key_not _ _ _ _ Hk); discriminate);
      rewrite ?(not_key_eqb js k "marker_color")
        by (apply (is_key_not _ _ _ _ Hk); discriminate);
      rewrite ?(not_key_eqb js k "marker_start")
        by (apply (is_key_not _ _ _ _ Hk); discriminate);
      rewrite ?(not_key_eqb js k "marker_mid")
        by (apply (is_key_not _ _ _ _ Hk); discriminate);
      rewrite ?orb_true_r; simpl;
      unfold bind, get_out; rewrite (tok_at_Some t (S i) v _ Hv);
      now rewrite (bool_decide_eq_false_2 _ Hty). }
  split; [exact Hbody|]. intros fuel.
  pose proof (lookup_lt_Some _ _ _ Hi). pose proof (lookup_lt_Some _ _ _ Hv).
  rewrite (array_loop_step js t na nm (S fuel) i s i s) by assumption.
  apply array_loop_step; [assumption|].
  exact (body_other js t na nm (S i) v s Hv Hnot).
Qed.

Lemma non_array_value_skipped_witness :
  let s := allocated_state 1 1 in
  array_body scalar_angles (tokens_of scalar_angles) 1 1 5 s = Next 5%nat s
  /\ forall fuel,
       array_loop scalar_angles (tokens_of scalar_angles) 1 1 (S (S fuel)) 5 s
       = array_loop scalar_angles (tokens_of scalar_angles) 1 1 fuel 7
           (log s [MUnexpectedKey (tok_text scalar_angles (Tok JSMN_PRIMITIVE 41 42 0))]).
Proof.
  apply (non_array_value_skipped scalar_angles (tokens_of scalar_angles) 1 1 5
           (Tok JSMN_STRING 33 39 1) (Tok JSMN_PRIMITIVE 41 42 0) "angles").
  - apply list_elem_of_here.
  - vm_compute. reflexivity.
  - vm_compute. reflexivity.
  - vm_compute. reflexivity.
  - discriminate.
  - repeat split; intros H; vm_compute in H; discriminate.
Defined.

(** ** The caller's memory *)

Section Spares.

Variable h0 : list block.

Lemma spares_same {A} (m : M A) :
  (forall s, match m s with
             | Next _ s' | Returned _ s' | Exited _ s' =>
                 out s' = out s /\ heap s' = heap s
             | Undefined | OutOfFuel => True
             end) ->
  spares h0 m.
Proof.
  intros H s _. specialize (H s).
  destruct (m s); try exact I; destruct H as [-> ->]; auto.
Qed.

Lemma spares_ret {A} (a : A) : spares h0 (ret a).
Proof. apply spares_same. intros s. simpl. auto. Qed.

Lemma spares_skip : spares h0 skip.
Proof. apply spares_ret. Qed.

Lemma spares_return {A} rc : spares h0 (@return_ A rc).
Proof. apply spares_same. intros s. simpl. auto. Qed.

Lemma spares_undefined {A} : spares h0 (@undefined A).
Proof. intros s _. exact I. Qed.

Lemma spares_out_of_fuel {A} : spares h0 (@out_of_fuel A).
Proof. intros s _. exact I. Qed.

Lemma spares_printf m : spares h0 (printf m).
Proof. apply spares_same. intros s. simpl. auto. Qed.

Lemma spares_tok_at t i : spares h0 (tok_at t i).
Proof.
  apply spares_same. intros s. unfold tok_at. destruct (t !! i); simpl; auto.
Qed.

Lemma spares_atoi_at js k : spares h0 (atoi_at js k).
Proof.
  apply spares_same. intros s. unfold atoi_at.
  destruct (_ <? _); [exact I|]. destruct (atoi _); simpl; auto.
Qed.

Lemma spares_bind {A B} (m : M A) (k : A -> M B) :
  spares h0 m -> (forall a, spares h0 (k a)) -> spares h0 (bind m k).
Proof.
  intros Hm Hk s Hs. unfold bind. specialize (Hm s Hs).
  destruct (m s) as [a s1|rc s1|rc s1| |]; try exact Hm.
  destruct Hm as [Ho Hh]. specialize (Hk a s1). rewrite Ho in Hk. specialize (Hk Hs).
  destruct (k a s1) as [b s2|rc s2|rc s2| |]; try exact I;
    destruct Hk as [Ho2 Hh2]; (split; [congruence|]);
    intros b' Hb'; rewrite Hh2, Hh by exact Hb'; reflexivity.
Qed.

Lemma spares_if {A} (b : bool) (m1 m2 : M A) :
  spares h0 m1 -> spares h0 m2 -> spares h0 (if b then m1 else m2).
Proof. now destruct b. Qed.

(** A statement that reads the out-parameters may rely on them. *)
Lemma spares_get_out {B} (k : outs -> M B) :
  (forall o, Forall (null_or_new h0) (out_ptrs o) -> spares h0 (k o)) ->
  spares h0 (bind get_out k).
Proof. intros Hk s Hs. unfold bind, get_out. now apply Hk. Qed.

Lemma spares_store p idx x : null_or_new h0 p -> spares h0 (store p idx x).
Proof.
  intros Hp s _. unfold store. destruct p as [|b]; [exact I|]. simpl in Hp.
  destruct (heap s !! b) as [[[] c]|]; try exact I.
  destruct (_ && _); [|exact I]. simpl. split; [reflexivity|].
  intros b' Hb'. apply list_lookup_insert_ne. lia.
Qed.

End Spares.

Create HintDb spares.
#[global] Hint Resolve spares_ret spares_skip spares_return spares_undefined
  spares_out_of_fuel spares_printf spares_tok_at spares_atoi_at : spares.

Ltac spares_auto :=
  repeat match goal with
         | |- spares _ (bind get_out _) => apply spares_get_out; intros ? ?
         | |- spares _ (bind _ _) => apply spares_bind; [|intros ?]
         | |- spares _ (if _ then _ else _) => apply spares_if
         | |- spares _ _ => solve [auto with spares]
         end.

Section ArrayPassSpares.

Variable h0 : list block.
Variable js : list ascii.
Variable t : list jsmntok_t.
Variable num_angles num_markers : Z.

Lemma spares_fill_loop dest n : forall j indx,
  (forall o, dest o ∈ out_ptrs o) ->
  spares h0 (fill_loop js t dest n j indx).
Proof.
  induction n as [|n IH]; intros j indx Hdest; simpl; spares_auto.
  apply spares_store. rewrite Forall_forall in H. apply H, Hdest.
Qed.

Lemma spares_inner_loop p j n : forall k indx,
  null_or_new h0 p ->
  spares h0 (inner_loop js t num_angles p j n k indx).
Proof.
  induction n as [|n IH]; intros k indx Hp; simpl; spares_auto.
  now apply spares_store.
Qed.

Lemma spares_outer_loop p n : forall j indx,
  null_or_new h0 p ->
  spares h0 (outer_loop js t num_angles num_markers p n j indx).
Proof.
  induction n as [|n IH]; intros j indx Hp; simpl; spares_auto;
    auto using spares_inner_loop.
Qed.

Lemma spares_array_body i : spares h0 (array_body js t num_angles num_markers i).
Proof.
  unfold array_body. spares_auto.
  - apply spares_fill_loop. intros o. unfold out_ptrs.
    do 4 apply list_elem_of_further. apply list_elem_of_here.
  - apply spares_fill_loop. intros o. apply list_elem_of_here.
  - apply spares_outer_loop.
    rewrite Forall_forall in H. unfold out_ptrs in H.
    repeat destruct (_ =? 0); try exact I; apply H;
      auto 6 using list_elem_of_here, list_elem_of_further.
Qed.

Lemma spares_array_loop fuel : forall i,
  spares h0 (array_loop js t num_angles num_markers fuel i).
Proof.
  induction fuel as [|fuel IH]; intros i; cbn [array_loop];
    (apply spares_if; [|apply spares_skip]); [apply spares_out_of_fuel|].
  apply spares_bind; [apply spares_array_body|intros; apply IH].
Qed.

End ArrayPassSpares.

(** The ways [decode_arrays] can return, by what the second loop did. *)
Lemma decode_arrays_loop malloc_ok js t na nm s rc s' :
  decode_arrays malloc_ok js t na nm s = Returned rc s' ->
  exists s1,
    allocate malloc_ok na nm (with_dims na nm s) = Next tt s1 /\
    (s' = log s1 [MNotAllocated]
     \/ array_loop js t na nm (length t) 1 s1 = Returned rc s'
     \/ exists s2, array_loop js t na nm (length t) 1 s1 = Next tt s2
                   /\ free (buf s2) s2 = Next tt s').
Proof.
  rewrite decode_arrays_eq. intros H.
  apply bind_inv_Returned in H as [H|([] & s1 & Ha & H)];
    [now apply allocate_not_Returned in H|].
  exists s1. split; [assumption|].
  unfold fill_arrays in H.
  unfold bind at 1, get_out in H. unfold bind at 1 in H.
  destruct (_ || _) eqn:Hnull; simpl in H.
  - injection H as <- <-. now left.
  - right. unfold bind at 1 in H. unfold r in H.
    destruct (array_loop js t na nm (length t) 1 s1) as [[] s2|rc2 s2|rc2 s2| |];
      try discriminate.
    + right. unfold bind at 1, get_buf in H. unfold bind in H.
      destruct (free (buf s2) s2) as [[] s3|rc3 s3| | |] eqn:Hf; try discriminate;
        [|now apply free_not_Returned in Hf].
      injection H as <- <-. eauto.
    + left. exact H.
Qed.

(** X20.  decode writes only to the arrays it allocated itself: every
    block the heap had when it was entered has the same cells when it
    returns, and is the very same block unless it is the file buffer
    (whose release is the only change).  What the caller's out-pointers
    pointed to at entry is never written or released. *)
Theorem caller_memory_untouched malloc_ok js t s rc s' b blk :
  decode malloc_ok js t s = Returned rc s' ->
  heap s !! b = Some blk ->
  exists blk',
    heap s' !! b = Some blk' /\ cells blk' = cells blk
    /\ (Ptr b <> buf s -> blk' = blk).
Proof.
  intros H Hb.
  pose proof (lookup_lt_Some _ _ _ Hb) as Hlt.
  destruct (decode_cases malloc_ok js t s)
    as [(_ & E)|[(_ & _ & E)|(Hroot & na & nm & Hdim)]].
  - rewrite E in H. injection H as <- <-. simpl. eauto.
  - rewrite E in H. discriminate.
  - rewrite (decode_dims malloc_ok js t s na nm Hroot Hdim) in H.
    destruct ((na =? 0) || (nm =? 0)).
    { injection H as <- <-. simpl. eauto. }
    apply decode_arrays_loop in H as (s1 & Halloc & H).
    apply allocate_inv in Halloc as (news & Hheap & _ & _ & Hbuf1 & _ & _ & _ & Hnew & _).
    simpl in Hheap, Hbuf1, Hnew.
    assert (Hb1 : heap s1 !! b = Some blk)
      by (rewrite Hheap, lookup_app_l by exact Hlt; exact Hb).
    pose proof (spares_array_loop (heap s) js t na nm (length t) 1 s1 Hnew) as Hsp.
    pose proof (keeps_array_loop js t na nm (length t) 1 s1) as Hk.
    destruct H as [->|[Hloop|(s2 & Hloop & Hf)]]; [|rewrite Hloop in Hsp, Hk..].
    + simpl. eauto.
    + destruct Hsp as [_ Hold]. exists blk. rewrite Hold by exact Hlt. auto.
    + destruct Hsp as [_ Hold]. destruct Hk as (_ & _ & Hbuf2 & _).
      assert (Hb2 : heap s2 !! b = Some blk) by (rewrite Hold by exact Hlt; exact Hb1).
      unfold free in Hf. rewrite Hbuf2, Hbuf1 in Hf.
      destruct (buf s) as [|bb]; [injection Hf as <-; eauto|].
      destruct (heap s2 !! bb) as [[[] c]|] eqn:Hbb; try discriminate.
      injection Hf as <-. simpl.
      destruct (decide (b = bb)) as [->|Hne].
      * rewrite Hb2 in Hbb. injection Hbb as ->.
        rewrite list_lookup_insert_eq by (eapply lookup_lt_Some; exact Hb2).
        eexists. split; [reflexivity|]. split; [reflexivity|congruence].
      * rewrite list_lookup_insert_ne by congruence. eauto.
Qed.

Lemma caller_memory_untouched_witness :
  let s' := final_state (decode always small_document (tokens_of small_document)
                           caller_state) in
  exists blk',
    heap s' !! 0%nat = Some blk' /\ cells blk' = cells (Block true [Some 7])
    /\ (Ptr 0 <> buf caller_state -> blk' = Block true [Some 7]).
Proof.
  intros s'.
  apply (caller_memory_untouched always small_document (tokens_of small_document)
           caller_state EXIT_SUCCESS s' 0 (Block true [Some 7]));
    vm_compute; reflexivity.
Defined.

(** X21.  For every document of the documented shape with positive
    dimensions (the allocations succeeding) decode returns, with success
    or on a shape mismatch, and the caller then holds the two dimensions
    and five different allocated arrays: [angles] with num_angles cells,
    [marker_color] with num_markers cells and each location array with
    num_angles * num_markers * 2 cells. *)
Theorem output_arrays_sized malloc_ok js t fs s na nm :
  document js fs t ->
  dims_of fs = (na, nm) ->
  0 < na -> 0 < nm -> na * nm * 2 <= INT_MAX ->
  allocations_succeed malloc_ok s na nm ->
  buffer_allocated s ->
  exists rc s',
    decode malloc_ok js t s = Returned rc s'
    /\ num_ang (out s') = na /\ num_mark (out s') = nm
    /\ NoDup (out_ptrs (out s'))
    /\ forall a, exists cells,
         array_at s' (array_ptr a (out s')) = Some cells
         /\ Z.of_nat (length cells) = array_size a na nm.
Proof.
  intros Hdoc Hdims Hna Hnm Hmax Halloc Hbuf.
  destruct (decode_document malloc_ok js t fs s na nm Hdoc Hdims Hna Hnm Hmax Halloc Hbuf)
    as (s' & Hdec & HA & Hang & Hmark).
  eexists _, s'. split; [exact Hdec|]. split; [exact Hang|]. split; [exact Hmark|].
  split; [now destruct HA as (_ & _ & _ & _ & _ & Hnd & _)|].
  intros a. eexists. split; [apply (holds_array _ _ a HA)|].
  apply sized_array. unfold document_sem. rewrite Hdims.
  apply fields_sem_sized. now apply sized_fresh.
Qed.

Lemma output_arrays_sized_witness :
  exists rc s',
    decode always scenario_B (tokens_of scenario_B) state0 = Returned rc s'
    /\ num_ang (out s') = 2 /\ num_mark (out s') = 3
    /\ NoDup (out_ptrs (out s'))
    /\ forall a, exists cells,
         array_at s' (array_ptr a (out s')) = Some cells
         /\ Z.of_nat (length cells) = array_size a 2 3.
Proof.
  apply (output_arrays_sized always scenario_B (tokens_of scenario_B)
           [FDim NumAngles 2 (chars "2"); FDim NumMarkers 3 (chars "3");
            FAngles [0; 90; 180]] state0 2 3).
  - exists (Tok JSMN_OBJECT 0 52 3),
      [[Tok JSMN_STRING 2 12 1; Tok JSMN_PRIMITIVE 14 15 0];
       [Tok JSMN_STRING 17 28 1; Tok JSMN_PRIMITIVE 30 31 0];
       [Tok JSMN_STRING 33 39 1; Tok JSMN_ARRAY 41 51 3; Tok JSMN_PRIMITIVE 42 43 0;
        Tok JSMN_PRIMITIVE 44 46 0; Tok JSMN_PRIMITIVE 47 50 0]].
    split; [vm_compute; reflexivity|]. split; [reflexivity|].
    apply Forall2_cons. split.
    { dim_field_tac (Tok JSMN_STRING 2 12 1) (Tok JSMN_PRIMITIVE 14 15 0). }
    apply Forall2_cons. split.
    { dim_field_tac (Tok JSMN_STRING 17 28 1) (Tok JSMN_PRIMITIVE 30 31 0). }
    apply Forall2_cons. split; [|constructor].
    exists (Tok JSMN_STRING 33 39 1),
      [Tok JSMN_ARRAY 41 51 3; Tok JSMN_PRIMITIVE 42 43 0;
       Tok JSMN_PRIMITIVE 44 46 0; Tok JSMN_PRIMITIVE 47 50 0].
    split; [reflexivity|]. split; [vm_compute; reflexivity|].
    int_array_tac (Tok JSMN_ARRAY 41 51 3)
      [Tok JSMN_PRIMITIVE 42 43 0; Tok JSMN_PRIMITIVE 44 46 0; Tok JSMN_PRIMITIVE 47 50 0].
  - reflexivity.
  - lia.
  - lia.
  - vm_compute. discriminate.
  - repeat split.
  - exact I.
Defined.

(** ** Success and failure of the second loop *)

(** X22.  When decode succeeds, the blocks it added to the heap are the
    output arrays and nothing else: each of them is allocated and its
    address is in one of the caller's out-pointers. *)
Theorem success_leaves_only_arrays malloc_ok js t s s' b blk :
  decode malloc_ok js t s = Returned EXIT_SUCCESS s' ->
  buffer_allocated s ->
  (length (heap s) <= b)%nat ->
  heap s' !! b = Some blk ->
  live blk = true /\ Ptr b ∈ out_ptrs (out s').
Proof.
  intros H Hbuf Hb Hblk.
  destruct (decode_cases malloc_ok js t s)
    as [(_ & E)|[(_ & _ & E)|(Hroot & na & nm & Hdim)]];
    [rewrite E in H; discriminate|rewrite E in H; discriminate|].
  rewrite (decode_dims malloc_ok js t s na nm Hroot Hdim) in H.
  destruct ((na =? 0) || (nm =? 0)); [discriminate|].
  apply decode_arrays_inv in H as (s1 & Halloc & H).
  apply allocate_inv in Halloc
    as (news & Hheap & Hnew & _ & Hbuf1 & _ & _ & _ & _ & Hin & _).
  simpl in Hheap, Hin, Hbuf1.
  destruct H as [(? & _)|[(? & _)|(_ & s2 & _ & (Ho & _ & Hbuf2 & Hsame) & Hf)]];
    try discriminate.
  assert (Hs2 : exists blk2, heap s2 !! b = Some blk2 /\ live blk2 = live blk
                             /\ out s' = out s2).
  { unfold free in Hf. rewrite Hbuf2, Hbuf1 in Hf. unfold buffer_allocated in Hbuf.
    destruct (buf s) as [|bb]; [injection Hf as <-; eauto|].
    destruct Hbuf as [c Hc]. pose proof (lookup_lt_Some _ _ _ Hc).
    destruct (heap s2 !! bb) as [[[] c2]|]; try discriminate.
    injection Hf as <-. simpl in Hblk.
    rewrite list_lookup_insert_ne in Hblk by lia. eauto. }
  destruct Hs2 as (blk2 & Hl2 & <- & ->). rewrite Ho.
  destruct (same_blocks_lookup _ _ _ _ Hsame Hl2) as (blk1 & Hl & Hlive & _).
  rewrite <- Hlive. split.
  - rewrite Hheap, lookup_app_r in Hl by exact Hb.
    rewrite Forall_forall in Hnew.
    apply (Hnew blk1); eapply list_elem_of_lookup_2; exact Hl.
  - apply Hin. split; [exact Hb|]. eapply lookup_lt_Some. exact Hl.
Qed.

Lemma success_leaves_only_arrays_witness :
  let s := loaded small_document state0 in
  let s' := final_state (decode always small_document (tokens_of small_document) s) in
  live (Block true [Some 5]) = true /\ Ptr 4 ∈ out_ptrs (out s').
Proof.
  intros s s'.
  apply (success_leaves_only_arrays always small_document (tokens_of small_document)
           s s' 4 (Block true [Some 5])).
  - vm_compute. reflexivity.
  - vm_compute. eauto.
  - vm_compute. lia.
  - vm_compute. reflexivity.
Defined.

Section NoRollback.

Variable num_angles num_markers : Z.

(** A field that ends the pass on a shape mismatch has written nothing to
    [angles] or [marker_color]. *)
Lemma field_sem_fail_flat a f A m :
  fst (field_sem num_angles num_markers f A) = Some m ->
  a = AAngles \/ a = AColors ->
  array_cells a (snd (field_sem num_angles num_markers f A)) = array_cells a A.
Proof.
  intros Hfail Ha.
  destruct f as [d v text|vs|vs|l items|texts]; simpl in *; try discriminate.
  - destruct (_ =? _); [discriminate|]. now destruct Ha as [-> | ->].
  - destruct (_ =? _); [discriminate|]. now destruct Ha as [-> | ->].
  - destruct (_ =? _); [|now destruct Ha as [-> | ->]].
    apply items_sem_other. destruct Ha as [-> | ->]; discriminate.
Qed.

End NoRollback.

(** X23.  A shape mismatch undoes nothing: when a field is mismatched
    and the fields before it are not, decode fails, and the integers of
    the last angles (marker_color) field before the mismatched one are in
    the caller's array all the same. *)
Theorem mismatch_keeps_earlier_fields malloc_ok js t fs1 f fs2 g fs3 s na nm a vs :
  document js (fs1 ++ f :: fs2 ++ g :: fs3) t ->
  dims_of (fs1 ++ f :: fs2 ++ g :: fs3) = (na, nm) ->
  0 < na -> 0 < nm -> na * nm * 2 <= INT_MAX ->
  allocations_succeed malloc_ok s na nm ->
  buffer_allocated s ->
  ~ Exists (mismatched na nm) (fs1 ++ f :: fs2) ->
  mismatched na nm g ->
  field_values f = Some vs -> field_array f = Some a ->
  Forall (fun f' => field_array f' <> Some a) fs2 ->
  exists s',
    decode malloc_ok js t s = Returned EXIT_FAILURE s'
    /\ array_at s' (array_ptr a (out s')) = Some (Some <$> vs).
Proof.
  intros Hdoc Hdims Hna Hnm Hmax Halloc Hbuf Hok Hg Hvs Ha Hlast.
  destruct (decode_document malloc_ok js t _ s na nm Hdoc Hdims Hna Hnm Hmax Halloc Hbuf)
    as (s' & Hdec & HA & _).
  unfold document_sem in *. rewrite Hdims in *.
  set (A0 := fresh_arrays na nm (stdout s ++ [MDimensions na nm])) in *.
  assert (Hflat : a = AAngles \/ a = AColors).
  { destruct f; try discriminate; injection Ha as <-; auto. }
  pose proof (fields_sem_sized na nm fs1 A0 (sized_fresh na nm _ Hna Hnm)) as Hsz.
  assert (Hok1 : fst (fields_sem na nm fs1 A0) = None).
  { apply fields_sem_ok. intros H. apply Hok. apply Exists_app. now left. }
  assert (Hf : ~ mismatched na nm f).
  { intros H. apply Hok. apply Exists_app. right. now apply Exists_cons_hd. }
  assert (Hok2 : forall A, fst (fields_sem na nm fs2 A) = None).
  { intros A. apply fields_sem_ok. intros H. apply Hok. apply Exists_app. right.
    now apply Exists_cons_tl. }
  rewrite fields_sem_app in Hdec, HA.
  destruct (fields_sem na nm fs1 A0) as [[m|] A1]; [discriminate|].
  simpl in Hsz. simpl fields_sem in Hdec, HA.
  pose proof (proj2 (field_sem_ok na nm f A1) Hf) as Hokf.
  assert (Hcells : array_cells a (snd (field_sem na nm f A1)) = Some <$> vs).
  { destruct Hsz as (Hc & Hang & _).
    destruct f as [d v text|vs'|vs'|l items|texts]; try discriminate;
      injection Hvs as ->; injection Ha as <-; simpl in Hf |- *;
      (destruct (Z.of_nat (length vs) =? _) eqn:E; [|apply Z.eqb_neq in E; lia]);
      simpl; apply store_seq_all; lia. }
  destruct (field_sem na nm f A1) as [[m|] A2]; [discriminate|].
  simpl in Hcells.
  rewrite fields_sem_app in Hdec, HA.
  specialize (Hok2 A2).
  pose proof (fields_sem_other na nm a fs2 A2 Hlast) as Hother.
  destruct (fields_sem na nm fs2 A2) as [[m|] A3]; [discriminate|].
  simpl in Hother. simpl fields_sem in Hdec, HA.
  assert (Hfail : exists m, fst (field_sem na nm g A3) = Some m).
  { destruct (fst (field_sem na nm g A3)) as [m|] eqn:E; [eauto|].
    apply field_sem_ok in E. contradiction. }
  destruct Hfail as [m Hfail].
  pose proof (field_sem_fail_flat na nm a g A3 m Hfail Hflat) as Hkeep.
  destruct (field_sem na nm g A3) as [[m'|] A4]; [|discriminate].
  simpl in Hkeep, Hdec, HA.
  exists s'. split; [exact Hdec|].
  rewrite (holds_array _ _ a HA). congruence.
Qed.

Lemma mismatch_keeps_earlier_fields_witness :
  exists s',
    decode always late_mismatch (tokens_of late_mismatch) state0
      = Returned EXIT_FAILURE s'
    /\ array_at s' (angles (out s')) = Some [Some 5].
Proof.
  apply (mismatch_keeps_earlier_fields always late_mismatch (tokens_of late_mismatch)
           [FDim NumAngles 1 (chars "1"); FDim NumMarkers 1 (chars "1")]
           (FAngles [5]) [] (FColors [1; 2]) [] state0 1 1 AAngles [5]).
  - exists (Tok JSMN_OBJECT 0 66 4),
      [[Tok JSMN_STRING 2 12 1; Tok JSMN_PRIMITIVE 14 15 0];
       [Tok JSMN_STRING 17 28 1; Tok JSMN_PRIMITIVE 30 31 0];
       [Tok JSMN_STRING 33 39 1; Tok JSMN_ARRAY 41 44 1; Tok JSMN_PRIMITIVE 42 43 0];
       [Tok JSMN_STRING 46 58 1; Tok JSMN_ARRAY 60 65 2; Tok JSMN_PRIMITIVE 61 62 0;
        Tok JSMN_PRIMITIVE 63 64 0]].
    split; [vm_compute; reflexivity|]. split; [reflexivity|].
    apply Forall2_cons. split.
    { dim_field_tac (Tok JSMN_STRING 2 12 1) (Tok JSMN_PRIMITIVE 14 15 0). }
    apply Forall2_cons. split.
    { dim_field_tac (Tok JSMN_STRING 17 28 1) (Tok JSMN_PRIMITIVE 30 31 0). }
    apply Forall2_cons. split.
    { exists (Tok JSMN_STRING 33 39 1), [Tok JSMN_ARRAY 41 44 1; Tok JSMN_PRIMITIVE 42 43 0].
      split; [reflexivity|]. split; [vm_compute; reflexivity|].
      int_array_tac (Tok JSMN_ARRAY 41 44 1) [Tok JSMN_PRIMITIVE 42 43 0]. }
    apply Forall2_cons. split; [|constructor].
    exists (Tok JSMN_STRING 46 58 1),
      [Tok JSMN_ARRAY 60 65 2; Tok JSMN_PRIMITIVE 61 62 0; Tok JSMN_PRIMITIVE 63 64 0].
    split; [reflexivity|]. split; [vm_compute; reflexivity|].
    int_array_tac (Tok JSMN_ARRAY 60 65 2)
      [Tok JSMN_PRIMITIVE 61 62 0; Tok JSMN_PRIMITIVE 63 64 0].
  - reflexivity.
  - lia.
  - lia.
  - vm_compute. discriminate.
  - repeat split.
  - exact I.
  - simpl. rewrite !Exists_cons, Exists_nil. simpl. lia.
  - simpl. lia.
  - reflexivity.
  - reflexivity.
  - apply Forall_nil_2.
Defined.

(** ** From the file to the decoder *)

Lemma c_string_terminated bytes :
  Exists (fun ch => code ch = 0) bytes ->
  exists str, c_string (map (fun ch => Some (code ch)) bytes) = Some str.
Proof.
  induction bytes as [|ch bytes IH]; intros H.
  - now apply Exists_nil in H.
  - simpl. destruct (code ch =? 0) eqn:E; [eauto|].
    apply Exists_cons in H as [H|H]; [apply Z.eqb_neq in E; contradiction|].
    destruct (IH H) as [str ->]. simpl. eauto.
Qed.

(** X24.  From the file to the decoder: [parse_json] hands the buffer to
    [printf] as a string although [slurp] was called without the
    sentinel.  For a file that is read without error and holds no NUL
    byte the read runs past the buffer, which is undefined behaviour;
    when the file holds a NUL byte the echo is printed and the rest of
    [parse_json] is lines 121 to 309 run on the buffer [slurp] filled,
    with the size [ftell] reported. *)
Theorem parse_json_echo malloc_ok fs s :
  readable fs -> malloc_ok (mallocs s) (ftell_off fs) = true ->
  (Forall (fun ch => code ch <> 0) (contents fs) ->
   parse_json malloc_ok fs s = Undefined)
  /\ (Exists (fun ch => code ch = 0) (contents fs) ->
      parse_json malloc_ok fs s
      = decode_buffer malloc_ok (ftell_off fs) (log (loaded (contents fs) s) [MFile])).
Proof.
  intros Hr Hok.
  pose proof (slurp_readable malloc_ok fs s Hr Hok) as Hs.
  rewrite (parse_json_after_slurp malloc_ok fs s _ _ Hs).
  destruct Hr as (_ & _ & _ & Hoff & _).
  replace (ftell_off fs <? 0) with false by lia.
  unfold echo. simpl.
  rewrite lookup_app_r, Nat.sub_diag by lia. simpl.
  split; intros H.
  - now rewrite (c_string_unterminated _ H).
  - destruct (c_string_terminated _ H) as [str ->]. reflexivity.
Qed.

Lemma parse_json_echo_witness :
  parse_json always (file_of scenario_A) state0 = Undefined
  /\ parse_json always (file_of (scenario_A ++ [Ascii.zero])) state0
     = decode_buffer always (Z.of_nat (length (scenario_A ++ [Ascii.zero])))
         (log (loaded (scenario_A ++ [Ascii.zero]) state0) [MFile]).
Proof.
  split.
  - apply (proj1 (parse_json_echo always (file_of scenario_A) state0
                    (readable_file_of scenario_A eq_refl) eq_refl)).
    rewrite contents_file_of.
    apply (bool_decide_unpack _). vm_compute. reflexivity.
  - pose proof (proj2 (parse_json_echo always (file_of (scenario_A ++ [Ascii.zero])) state0
                         (readable_file_of (scenario_A ++ [Ascii.zero]) eq_refl) eq_refl))
      as H.
    rewrite contents_file_of in H. apply H.
    apply Exists_app. right. apply Exists_cons_hd. reflexivity.
Defined.
